(** * vector-io, [src/export.py]: the command-line export orchestrator

    A shallow embedding of [export.py] and a verification of its
    orchestration logic: argument collection ([set_arg_from_input],
    [set_arg_from_password]), the three backend drivers ([export_pinecone],
    [export_weaviate], [export_qdrant]) and the dispatcher [main].

    The script is effectful Python: it reads the command line and the
    environment, prompts on the terminal, mutates the [args] dictionary,
    prints, and calls into three adapter classes that live outside this
    file.  The embedding is a state-and-exception monad over an explicit
    event trace; the adapters and the process environment are a parameter
    ([world]).  Strings are byte strings. *)

From stdpp Require Import gmap strings list.
From Stdlib Require Import Ascii ZArith Lia.

(** ** Python values and the [args] dictionary *)

(** The values that occur in [vars(args)]: [None], [str], for
    [--include_crossrefs] ([type=bool]) [bool], and the empty list [[]],
    which is what [argparse] stores for an option whose argument is
    [--].  A [str] is represented by its UTF-8 encoding. *)
Inductive pyval : Type :=
  | PyNone
  | PyStr (s : string)
  | PyBool (b : bool)
  | PyEmptyList.

#[global] Instance pyval_eq_dec : EqDecision pyval.
Proof. solve_decision. Defined.

(** Python's [==] on these values.  A [bool] never equals a [str], and
    neither does [[]]; in particular [True == "Y"] is [False]. *)
Definition py_eq (x y : pyval) : bool := bool_decide (x = y).

(** [args] is a [dict] with string keys. *)
Abbreviation dict := (gmap string pyval).

(** [arg_name not in args or args[arg_name] is None] *)
Definition missing (args : dict) (arg_name : string) : bool :=
  match args !! arg_name with
  | None => true
  | Some PyNone => true
  | Some _ => false
  end.

(** ** Observable events *)

Inductive backend : Type := Pinecone | Weaviate | Qdrant.

#[global] Instance backend_eq_dec : EqDecision backend.
Proof. solve_decision. Defined.

(** What [argparse] reports through [parser.error] before exiting with
    status 2. *)
Inductive parse_error : Type :=
  | UnrecognizedArguments (extras : list string)
  | InvalidChoice (given : string)
  | ExpectedOneArgument (option_strings : list string)
  | IgnoredExplicitArgument (explicit_arg : string)
  | AmbiguousOption (arg_string : string).

#[global] Instance parse_error_eq_dec : EqDecision parse_error.
Proof. solve_decision. Defined.

(** What is written by [print]: a text line or the [str] of a dict. *)
Inductive printed : Type :=
  | PText (s : string)
  | PDict (d : dict).

#[global] Instance printed_eq_dec : EqDecision printed.
Proof. solve_decision. Defined.

Inductive event : Type :=
  | EvInput (prompt : string) (line : option string)
      (* input(prompt): the prompt is shown and a line is read; [None] at
         the end of the input *)
  | EvGetpass (prompt : string) (line : option string)
      (* getpass(prompt): the same on the terminal, without echo *)
  | EvPrint (p : printed)                (* print(...) on stdout          *)
  | EvHelp                               (* argparse prints the help text *)
  | EvError (e : parse_error)            (* argparse usage error, stderr  *)
  | EvNew (b : backend) (args : dict)    (* ExportX(args)                 *)
  | EvEnum (b : backend) (names : list pyval)
      (* get_all_index_names / get_all_class_names /
         get_all_collection_names, with the list it returned *)
  | EvGetData (b : backend) (name : pyval) (include_crossrefs : option pyval).
      (* get_data(name) or, for Weaviate, get_data(name, include_crossrefs) *)

#[global] Instance event_eq_dec : EqDecision event.
Proof. solve_decision. Defined.

Definition is_adapter_call (e : event) : bool :=
  match e with
  | EvNew _ _ | EvEnum _ _ | EvGetData _ _ _ => true
  | _ => false
  end.

Definition is_enum (e : event) : bool :=
  match e with EvEnum _ _ => true | _ => false end.

Definition is_prompt (e : event) : bool :=
  match e with EvInput _ _ | EvGetpass _ _ => true | _ => false end.

(** ** The world outside the script *)

(** [environ] is [os.environ] once [load_dotenv()] has run at import time.
    The adapter classes are not part of this file: [enum_result] gives the
    names an enumeration call returns and [adapter_raises] says whether an
    adapter call raises, both as functions of everything that happened
    before the call.  Adapters are assumed not to write to [args]. *)
Record world : Type := World {
  environ : gmap string string;
  enum_result : list event -> backend -> list pyval;
  adapter_raises : list event -> event -> bool
}.

(** The mutable part: [sys.argv], the lines still to be read by [input],
    the lines still to be read by [getpass], and the trace so far. *)
Record state : Type := State {
  argv : list string;
  stdin : list string;
  tty : list string;
  trace : list event
}.

Inductive exn : Type :=
  | EOFError
  | KeyError (key : string)
  | SystemExit (code : Z)
  | AdapterError
  | RecursionError.

#[global] Instance exn_eq_dec : EqDecision exn.
Proof. solve_decision. Defined.

Inductive outcome (A : Type) : Type :=
  | Ok (a : A)
  | Raised (e : exn).
Arguments Ok {A} a.
Arguments Raised {A} e.

(** ** The monad *)

Definition M (A : Type) : Type := state -> outcome A * state.

Definition ret {A} (a : A) : M A := fun st => (Ok a, st).

Definition bind {A B} (m : M A) (k : A -> M B) : M B :=
  fun st =>
    match m st with
    | (Ok a, st') => k a st'
    | (Raised e, st') => (Raised e, st')
    end.

Definition raise {A} (e : exn) : M A := fun st => (Raised e, st).

Notation "'let*' x ':=' m 'in' k" := (bind m (fun x => k))
  (at level 10, x name, m at level 100, k at level 200, only parsing).
Notation "m ';;' k" := (bind m (fun _ => k))
  (at level 100, k at level 200, right associativity, only parsing).

(** Appending an event to the trace. *)
Definition log (e : event) (st : state) : state :=
  State (argv st) (stdin st) (tty st) (trace st ++ [e]).

Definition emit (e : event) : M unit := fun st => (Ok tt, log e st).

(** [input(prompt)]: shows the prompt, reads a line; [EOFError] when the
    input is exhausted. *)
Definition input (prompt : string) : M string :=
  fun st =>
    match stdin st with
    | [] => (Raised EOFError, log (EvInput prompt None) st)
    | line :: rest =>
        (Ok line,
         log (EvInput prompt (Some line))
           (State (argv st) rest (tty st) (trace st)))
    end.

(** [getpass(prompt)]: the same on the terminal, without echo.  The
    terminal is a stream of its own here; nothing below depends on how it
    relates to the standard input. *)
Definition getpass (prompt : string) : M string :=
  fun st =>
    match tty st with
    | [] => (Raised EOFError, log (EvGetpass prompt None) st)
    | line :: rest =>
        (Ok line,
         log (EvGetpass prompt (Some line))
           (State (argv st) (stdin st) rest (trace st)))
    end.

(** [print(x)] *)
Definition print (p : printed) : M unit := emit (EvPrint p).

(** [args[key]] *)
Definition getitem (args : dict) (key : string) : M pyval :=
  match args !! key with
  | Some v => ret v
  | None => raise (KeyError key)
  end.

(** [for x in xs: body(x)] *)
Fixpoint for_each {A} (xs : list A) (body : A -> M unit) : M unit :=
  match xs with
  | [] => ret tt
  | x :: xs' => body x ;; for_each xs' body
  end.

Section Script.

Variable w : world.

(** [os.getenv(name)] *)
Definition getenv (name : string) : option string := environ w !! name.

(** A call into adapter code: it is recorded, and it raises when the world
    says so. *)
Definition adapter_call (e : event) : M unit :=
  fun st =>
    if adapter_raises w (trace st) e then (Raised AdapterError, log e st)
    else (Ok tt, log e st).

(** [ExportPinecone(args)], [ExportWeaviate(args)], [ExportQdrant(args)] *)
Definition new_adapter (b : backend) (args : dict) : M unit :=
  adapter_call (EvNew b args).

(** [adapter.get_all_*_names()] *)
Definition get_all_names (b : backend) : M (list pyval) :=
  fun st =>
    let names := enum_result w (trace st) b in
    match adapter_call (EvEnum b names) st with
    | (Ok _, st') => (Ok names, st')
    | (Raised e, st') => (Raised e, st')
    end.

(** [adapter.get_data(name)] and [weaviate.get_data(name, crossrefs)] *)
Definition get_data (b : backend) (name : pyval) (crossrefs : option pyval)
  : M unit :=
  adapter_call (EvGetData b name crossrefs).

(** ** [export.py], lines 13-96

    [args] is one dict object that the functions update in place; each
    function below returns the dict as the call leaves it. *)

Definition set_arg_from_input (args : dict) (arg_name prompt : string)
  : M dict :=
  if missing args arg_name then
    let* line := input prompt in
    ret (<[arg_name := PyStr line]> args)
  else ret args.

Definition set_arg_from_password
    (args : dict) (arg_name prompt env_var_name : string) : M dict :=
  match getenv env_var_name with
  | Some v => ret (<[arg_name := PyStr v]> args)
  | None =>
      if missing args arg_name then
        let* line := getpass prompt in
        ret (<[arg_name := PyStr line]> args)
      else ret args
  end.

Definition export_pinecone (args : dict) : M dict :=
  let* args := set_arg_from_input args "environment"
            "Enter the environment of Pinecone instance: " in
  let* args := set_arg_from_input args "index"
            "Enter the name of index to export, or type all to get all indexes: " in
  let* args := set_arg_from_input args "model_name"
            "Enter the name of model used:" in
  let* args := set_arg_from_password args "pinecone_api_key"
            "Enter your Pinecone API key: " "PINECONE_API_KEY" in
  print (PDict args) ;;
  new_adapter Pinecone args ;;
  let* index := getitem args "index" in
  if py_eq index (PyStr "all") then
    let* index_names := get_all_names Pinecone in
    for_each index_names (fun index_name =>
      get_data Pinecone index_name None) ;;
    ret args
  else
    let* index := getitem args "index" in
    get_data Pinecone index None ;;
    ret args.

Definition export_weaviate (args : dict) : M dict :=
  let* args := set_arg_from_input args "url"
            "Enter the location of Weaviate instance: " in
  let* args := set_arg_from_input args "class_name"
            "Enter the name of class to export, or type all to export all classes: " in
  let* args := set_arg_from_input args "include_crossrefs"
            "Include cross references, enter Y or N: " in
  let* include_crossrefs := getitem args "include_crossrefs" in
  let args :=
    if py_eq include_crossrefs (PyStr "Y")
    then <["include_crossrefs" := PyBool true]> args
    else <["include_crossrefs" := PyBool false]> args in
  let* class_name := getitem args "class_name" in
  if py_eq class_name (PyStr "all") then
    new_adapter Weaviate args ;;
    let* class_names := get_all_names Weaviate in
    for_each class_names (fun class_name =>
      let* include_crossrefs := getitem args "include_crossrefs" in
      get_data Weaviate class_name (Some include_crossrefs)) ;;
    ret args
  else
    new_adapter Weaviate args ;;
    let* class_name := getitem args "class_name" in
    let* include_crossrefs := getitem args "include_crossrefs" in
    get_data Weaviate class_name (Some include_crossrefs) ;;
    ret args.

Definition export_qdrant (args : dict) : M dict :=
  let* args := set_arg_from_input args "url"
            "Enter the location of Qdrant instance: " in
  let* args := set_arg_from_input args "collection"
            "Enter the name of collection to export, or type all to export all collections: " in
  new_adapter Qdrant args ;;
  let* collection := getitem args "collection" in
  if py_eq collection (PyStr "all") then
    let* collection_names := get_all_names Qdrant in
    for_each collection_names (fun collection_name =>
      get_data Qdrant collection_name None) ;;
    ret args
  else
    let* collection := getitem args "collection" in
    get_data Qdrant collection None ;;
    ret args.

End Script.

(** ** The [argparse] library, for parsers of the shape built in [main]

    [main] builds one parser with the option [-m/--model_name], the
    implicit [-h/--help], and a sub-command argument ([dest] =
    ["vector_database"]) with three sub-parsers that only have options.
    What follows is [ArgumentParser.parse_args] (CPython 3.11) for such
    parsers: every option takes exactly one argument ([nargs=None]) or is
    the help flag, and the only positional is the sub-command, whose
    [nargs] is [PARSER] and which therefore swallows every remaining
    argument.  Argument strings are byte strings, the UTF-8 encoding of
    the [str] objects of [sys.argv]; every test [argparse] makes is
    against ASCII characters, except the negative-number test, whose
    [\d] matches every decimal digit of Unicode. *)

Inductive arg_type : Type := TStr | TBool.

(** [type(arg_string)]: [str(s)] is [s]; [bool(s)] is [s != ""]. *)
Definition get_value (t : arg_type) (arg_string : string) : pyval :=
  match t with
  | TStr => PyStr arg_string
  | TBool => PyBool (negb (String.eqb arg_string ""))
  end.

(** [_get_values] for an option with [nargs=None], which is given one
    argument string: a [--] is removed first; the one string left is
    converted, and with none left the value is the empty list. *)
Definition get_values (t : arg_type) (arg_string : string) : pyval :=
  if String.eqb arg_string "--" then PyEmptyList
  else get_value t arg_string.

Inductive action : Type :=
  | Help                                     (* nargs = 0 *)
  | Store (dest : string) (type : arg_type). (* nargs = None *)

Record argument : Type := Argument {
  option_strings : list string;
  act : action;
  default : pyval
}.

(** A parser without positionals is the list of its options. *)
Abbreviation option_parser := (list argument).

Record argument_parser : Type := ArgumentParser {
  optionals : option_parser;
  subparsers_dest : string;
  name_parser_map : list (string * option_parser)
}.

(** [parser._option_string_actions], in insertion order *)
Definition option_string_actions (p : option_parser)
  : list (string * argument) :=
  flat_map (fun a => map (fun o => (o, a)) (option_strings a)) p.

Fixpoint assoc {A} (k : string) (l : list (string * A)) : option A :=
  match l with
  | [] => None
  | (k', v) :: l' => if String.eqb k k' then Some v else assoc k l'
  end.

(** The namespace a parser starts from: every [dest] at its default. *)
Fixpoint defaults (p : option_parser) (ns : dict) : dict :=
  match p with
  | [] => ns
  | a :: p' =>
      match act a with
      | Help => defaults p' ns
      | Store dest _ =>
          defaults p' (match ns !! dest with
                       | None => <[dest := default a]> ns
                       | Some _ => ns
                       end)
      end
  end.

(** *** String helpers *)

Definition starts_with_dash (s : string) : bool :=
  match s with String "-"%char _ => true | _ => false end.

Definition second_is_dash (s : string) : bool :=
  match s with String _ (String "-"%char _) => true | _ => false end.

(** [s.split('=', 1)] when ['=' in s] *)
Fixpoint split_eq (s : string) : option (string * string) :=
  match s with
  | EmptyString => None
  | String c s' =>
      if Ascii.eqb c "="%char then Some (EmptyString, s')
      else match split_eq s' with
           | Some (l, r) => Some (String c l, r)
           | None => None
           end
  end.

Fixpoint contains_space (s : string) : bool :=
  match s with
  | EmptyString => false
  | String c s' => Ascii.eqb c " "%char || contains_space s'
  end.

(** The decimal digits of Unicode 14.0 (category Nd), which is what
    [\d] matches in Python 3.11: ranges of code points, both ends
    included. *)
Definition decimal_ranges : list (N * N) :=
  [ (48, 57); (1632, 1641); (1776, 1785); (1984, 1993); (2406, 2415);
    (2534, 2543); (2662, 2671); (2790, 2799); (2918, 2927); (3046, 3055);
    (3174, 3183); (3302, 3311); (3430, 3439); (3558, 3567); (3664, 3673);
    (3792, 3801); (3872, 3881); (4160, 4169); (4240, 4249); (6112, 6121);
    (6160, 6169); (6470, 6479); (6608, 6617); (6784, 6793); (6800, 6809);
    (6992, 7001); (7088, 7097); (7232, 7241); (7248, 7257); (42528, 42537);
    (43216, 43225); (43264, 43273); (43472, 43481); (43504, 43513);
    (43600, 43609); (44016, 44025); (65296, 65305); (66720, 66729);
    (68912, 68921); (69734, 69743); (69872, 69881); (69942, 69951);
    (70096, 70105); (70384, 70393); (70736, 70745); (70864, 70873);
    (71248, 71257); (71360, 71369); (71472, 71481); (71904, 71913);
    (72016, 72025); (72784, 72793); (73040, 73049); (73120, 73129);
    (92768, 92777); (92864, 92873); (93008, 93017); (120782, 120831);
    (123200, 123209); (123632, 123641); (125264, 125273);
    (130032, 130041) ]%N.

Definition is_decimal (code_point : N) : bool :=
  existsb (fun '(lo, hi) => (lo <=? code_point)%N && (code_point <=? hi)%N)
    decimal_ranges.

(** The six low bits of a UTF-8 continuation byte. *)
Definition continuation (c : ascii) : option N :=
  let b := N_of_ascii c in
  if (128 <=? b)%N && (b <=? 191)%N then Some (b - 128)%N else None.

(** The first character of a string and what follows it: one UTF-8
    sequence, in its shortest form and not a surrogate.  Bytes that are
    not such a sequence stand for themselves in [sys.argv] and are no
    digits. *)
Definition utf8_head (s : string) : option (N * string) :=
  match s with
  | EmptyString => None
  | String c1 s1 =>
      let b1 := N_of_ascii c1 in
      if (b1 <? 128)%N then Some (b1, s1)
      else if (194 <=? b1)%N && (b1 <=? 223)%N then
        match s1 with
        | String c2 s2 =>
            match continuation c2 with
            | Some x2 => Some (((b1 - 192) * 64 + x2)%N, s2)
            | None => None
            end
        | _ => None
        end
      else if (224 <=? b1)%N && (b1 <=? 239)%N then
        match s1 with
        | String c2 (String c3 s3) =>
            match continuation c2, continuation c3 with
            | Some x2, Some x3 =>
                let cp := ((b1 - 224) * 4096 + x2 * 64 + x3)%N in
                if (2048 <=? cp)%N
                   && negb ((55296 <=? cp)%N && (cp <=? 57343)%N)
                then Some (cp, s3) else None
            | _, _ => None
            end
        | _ => None
        end
      else if (240 <=? b1)%N && (b1 <=? 244)%N then
        match s1 with
        | String c2 (String c3 (String c4 s4)) =>
            match continuation c2, continuation c3, continuation c4 with
            | Some x2, Some x3, Some x4 =>
                let cp :=
                  ((b1 - 240) * 262144 + x2 * 4096 + x3 * 64 + x4)%N in
                if (65536 <=? cp)%N && (cp <=? 1114111)%N
                then Some (cp, s4) else None
            | _, _, _ => None
            end
        | _ => None
        end
      else None
  end.

Definition starts_with_digit (s : string) : bool :=
  match utf8_head s with
  | Some (cp, _) => is_decimal cp
  | None => false
  end.

(** What is left of [s] after its leading digits; [fuel] bounds the
    number of digits. *)
Fixpoint skip_digits_upto (fuel : nat) (s : string) : string :=
  match fuel with
  | O => s
  | S fuel' =>
      match utf8_head s with
      | Some (cp, rest) =>
          if is_decimal cp then skip_digits_upto fuel' rest else s
      | None => s
      end
  end.

Definition skip_digits (s : string) : string :=
  skip_digits_upto (String.length s) s.

(** one or more digits, then the end of the string or a final newline *)
Definition digits_to_end (s : string) : bool :=
  starts_with_digit s &&
  match skip_digits s with
  | EmptyString => true
  | String c' EmptyString => Ascii.eqb c' "010"%char
  | _ => false
  end.

(** [re.match('^-\d+$|^-\d*\.\d+$', s)] *)
Definition negative_number (s : string) : bool :=
  match s with
  | String "-"%char r =>
      digits_to_end r ||
      match skip_digits r with
      | String "."%char r' => digits_to_end r'
      | _ => false
      end
  | _ => false
  end.

(** *** [_parse_optional] and [_get_option_tuples] *)

(** (action or unknown, option string, explicit argument) *)
Definition option_tuple : Type := option argument * string * option string.

Definition get_option_tuples
    (osa : list (string * argument)) (arg_string : string)
  : list option_tuple :=
  if second_is_dash arg_string then
    let '(option_prefix, explicit_arg) :=
      match split_eq arg_string with
      | Some (l, r) => (l, Some r)
      | None => (arg_string, None)
      end in
    omap (fun '(o, a) =>
            if String.prefix option_prefix o
            then Some (Some a, o, explicit_arg) else None) osa
  else
    let short_option_prefix := String.substring 0 2 arg_string in
    let short_explicit_arg :=
      String.substring 2 (String.length arg_string - 2) arg_string in
    omap (fun '(o, a) =>
            if String.eqb o short_option_prefix
            then Some (Some a, o, Some short_explicit_arg)
            else if String.prefix arg_string o
            then Some (Some a, o, None) else None) osa.

(** [None]: the string is an argument; [Some t]: it is an option. *)
Definition parse_optional
    (osa : list (string * argument)) (arg_string : string)
  : parse_error + option option_tuple :=
  if negb (starts_with_dash arg_string) then inr None
  else match assoc arg_string osa with
  | Some a => inr (Some (Some a, arg_string, None))
  | None =>
  if (String.length arg_string =? 1)%nat then inr None
  else
  match (match split_eq arg_string with
         | Some (o, e) =>
             match assoc o osa with
             | Some a => Some (Some a, o, Some e)
             | None => None
             end
         | None => None
         end) with
  | Some t => inr (Some t)
  | None =>
  match get_option_tuples osa arg_string with
  | _ :: _ :: _ => inl (AmbiguousOption arg_string)
  | [t] => inr (Some t)
  | [] =>
      if negative_number arg_string then inr None
      else if contains_space arg_string then inr None
      else inr (Some (None, arg_string, None))
  end end end.

(** The pattern letters of [_parse_known_args]: ['A'], ['O'] and ['-']. *)
Inductive token : Type :=
  | TokA (arg_string : string)
  | TokO (arg_string : string) (t : option_tuple)
  | TokDashDash.

Definition token_string (t : token) : string :=
  match t with
  | TokA s | TokO s _ => s
  | TokDashDash => "--"
  end.

Fixpoint classify (osa : list (string * argument)) (arg_strings : list string)
  : parse_error + list token :=
  match arg_strings with
  | [] => inr []
  | s :: rest =>
      if String.eqb s "--" then inr (TokDashDash :: map TokA rest)
      else
        match parse_optional osa s with
        | inl e => inl e
        | inr cls =>
            match classify osa rest with
            | inl e => inl e
            | inr toks =>
                inr (match cls with
                     | None => TokA s
                     | Some t => TokO s t
                     end :: toks)
            end
        end
  end.

(** *** [consume_optional] *)

Inductive parse_outcome (A : Type) : Type :=
  | Parsed (a : A)
  | ParseError (e : parse_error)   (* parser.error(...): exit status 2 *)
  | HelpExit.                      (* print_help(); exit status 0      *)
Arguments Parsed {A} a.
Arguments ParseError {A} e.
Arguments HelpExit {A}.

(** The loop of [consume_optional] over an explicit argument
    ([--opt=value], [-ovalue], or flags run together as in [-hm]).
    [after_help] records that a help action is already queued. *)
Inductive explicit_result : Type :=
  | XError (e : parse_error)
  | XStore (dest : string) (type : arg_type) (explicit_arg : string)
           (after_help : bool)
  | XNext (a : argument) (after_help : bool).

Fixpoint consume_explicit
    (osa : list (string * argument)) (a : argument)
    (option_string explicit_arg : string) (after_help : bool)
    {struct explicit_arg} : explicit_result :=
  match act a with
  | Store dest type => XStore dest type explicit_arg after_help
  | Help =>
      if second_is_dash option_string
      then XError (IgnoredExplicitArgument explicit_arg)
      else
        match explicit_arg with
        | EmptyString => XError (IgnoredExplicitArgument explicit_arg)
        | String c new_explicit_arg =>
            let option_string' := String "-"%char (String c EmptyString) in
            match assoc option_string' osa with
            | None => XError (IgnoredExplicitArgument explicit_arg)
            | Some a' =>
                match new_explicit_arg with
                | EmptyString => XNext a' true
                | _ => consume_explicit osa a' option_string'
                         new_explicit_arg true
                end
            end
        end
  end.

Definition consume_option_string
    (osa : list (string * argument)) (a : argument)
    (option_string : string) (explicit_arg : option string)
  : explicit_result :=
  match explicit_arg with
  | Some e => consume_explicit osa a option_string e false
  | None => XNext a false
  end.

(** *** The scan of [_parse_known_args]

    [positional] is the call of the sub-command action, if the parser has
    one; it receives the namespace so far and all remaining argument
    strings.  [extras] collects what was not recognized. *)
Fixpoint scan
    (osa : list (string * argument))
    (positional : option (dict -> list string ->
                          parse_outcome (dict * list string)))
    (toks : list token) (ns : dict) (extras : list string)
  : parse_outcome (dict * list string) :=
  let positionals :=
    match positional with
    | Some call =>
        match call ns (map token_string toks) with
        | Parsed (ns', extras') => Parsed (ns', extras ++ extras')
        | other => other
        end
    | None => Parsed (ns, extras ++ map token_string toks)
    end in
  match toks with
  | [] => Parsed (ns, extras)
  | TokA s :: rest =>
      match positional with
      | Some _ => positionals
      | None => scan osa positional rest ns (extras ++ [s])
      end
  | TokDashDash :: rest =>
      match positional, rest with
      | Some _, _ :: _ => positionals
      | _, _ => scan osa positional rest ns (extras ++ ["--"])
      end
  | TokO s (None, _, _) :: rest =>
      scan osa positional rest ns (extras ++ [s])
  | TokO s (Some a, option_string, explicit_arg) :: rest =>
      match consume_option_string osa a option_string explicit_arg with
      | XError e => ParseError e
      | XStore dest type v after_help =>
          if after_help then HelpExit
          else scan osa positional rest (<[dest := get_values type v]> ns)
                 extras
      | XNext a' after_help =>
          match act a' with
          | Help => HelpExit
          | Store dest type =>
              match rest with
              | TokA v :: rest' =>
                  if after_help then HelpExit
                  else scan osa positional rest'
                         (<[dest := get_values type v]> ns) extras
              | _ => ParseError (ExpectedOneArgument (option_strings a'))
              end
          end
      end
  end.

(** [parse_known_args] of a sub-parser *)
Definition parse_known_args_sub (p : option_parser) (arg_strings : list string)
  : parse_outcome (dict * list string) :=
  let osa := option_string_actions p in
  match classify osa arg_strings with
  | inl e => ParseError e
  | inr toks => scan osa None toks (defaults p ∅) []
  end.

(** [_SubParsersAction.__call__], after [_check_value] on the name *)
Definition subparsers_call
    (p : argument_parser) (ns : dict) (values : list string)
  : parse_outcome (dict * list string) :=
  match values with
  | [] => Parsed (ns, [])
  | parser_name :: arg_strings =>
      match assoc parser_name (name_parser_map p) with
      | None => ParseError (InvalidChoice parser_name)
      | Some sub =>
          match parse_known_args_sub sub arg_strings with
          | Parsed (subnamespace, extras) =>
              Parsed (subnamespace ∪
                        <[subparsers_dest p := PyStr parser_name]> ns,
                      extras)
          | other => other
          end
      end
  end.

Definition parse_known_args (p : argument_parser) (arg_strings : list string)
  : parse_outcome (dict * list string) :=
  let osa := option_string_actions (optionals p) in
  match classify osa arg_strings with
  | inl e => ParseError e
  | inr toks =>
      scan osa (Some (subparsers_call p)) toks
        (<[subparsers_dest p := PyNone]> (defaults (optionals p) ∅)) []
  end.

(** [parser.parse_args(arg_strings)], as the dict [vars(...)] of the
    namespace *)
Definition parse_args (p : argument_parser) (arg_strings : list string)
  : parse_outcome dict :=
  match parse_known_args p arg_strings with
  | Parsed (ns, []) => Parsed ns
  | Parsed (_, extras) => ParseError (UnrecognizedArguments extras)
  | ParseError e => ParseError e
  | HelpExit => HelpExit
  end.

(** ** [export.py], lines 99-203: [main] *)

Definition help_argument : argument := Argument ["-h"; "--help"] Help PyNone.

Definition parser_pinecone : option_parser :=
  [ help_argument;
    Argument ["-e"; "--environment"] (Store "environment" TStr) PyNone;
    Argument ["-i"; "--index"] (Store "index" TStr) (PyStr "all") ].

Definition parser_weaviate : option_parser :=
  [ help_argument;
    Argument ["-u"; "--url"] (Store "url" TStr) PyNone;
    Argument ["-c"; "--class_name"] (Store "class_name" TStr) PyNone;
    Argument ["-i"; "--include_crossrefs"]
      (Store "include_crossrefs" TBool) PyNone ].

Definition parser_qdrant : option_parser :=
  [ help_argument;
    Argument ["-u"; "--url"] (Store "url" TStr) PyNone;
    Argument ["-c"; "--collection"] (Store "collection" TStr) PyNone ].

Definition parser : argument_parser :=
  ArgumentParser
    [ help_argument;
      Argument ["-m"; "--model_name"] (Store "model_name" TStr)
        (PyStr "text-embedding-ada-002") ]
    "vector_database"
    [ ("pinecone", parser_pinecone);
      ("weaviate", parser_weaviate);
      ("qdrant", parser_qdrant) ].

Section Main.

Variable w : world.

(** [parser.parse_args()] reads [sys.argv[1:]]; [vars(args)] is the dict.
    A usage error is reported and raises [SystemExit(2)]; the help flag
    prints the help and raises [SystemExit(0)]. *)
Definition parse_sys_argv : M dict :=
  fun st =>
    match parse_args parser (tail (argv st)) with
    | Parsed ns => (Ok ns, st)
    | ParseError e => (emit (EvError e) ;; raise (SystemExit 2)) st
    | HelpExit => (emit EvHelp ;; raise (SystemExit 0)) st
    end.

(** [sys.argv.extend(l)] *)
Definition sys_argv_extend (l : list string) : M unit :=
  fun st => (Ok tt, State (argv st ++ l) (stdin st) (tty st) (trace st)).

(** [main] calls itself; [depth] is the number of Python frames still
    available, and running out of them is [RecursionError].  The line
    read at the re-prompt is stored under ["vector_database"] and read
    back at once for [sys.argv.extend]. *)
Fixpoint main (depth : nat) : M unit :=
  match depth with
  | O => raise RecursionError
  | S depth' =>
      let* args := parse_sys_argv in
      (let* vector_database := getitem args "vector_database" in
       if py_eq vector_database (PyStr "pinecone") then
         export_pinecone w args ;; ret tt
       else
       let* vector_database := getitem args "vector_database" in
       if py_eq vector_database (PyStr "weaviate") then
         export_weaviate w args ;; ret tt
       else
       let* vector_database := getitem args "vector_database" in
       if py_eq vector_database (PyStr "qdrant") then
         export_qdrant w args ;; ret tt
       else
         print (PText "Invalid vector database") ;;
         let* line := input "Enter the name of vector database to export: " in
         let args := <["vector_database" := PyStr line]> args in
         sys_argv_extend ["--vector_database"; line] ;;
         main depth') ;;
      print (PText "Export completed.")
  end.

End Main.

(** The three drivers by backend, and the key under which each keeps the
    name of the collection to export. *)
Definition export (w : world) (b : backend) : dict -> M dict :=
  match b with
  | Pinecone => export_pinecone w
  | Weaviate => export_weaviate w
  | Qdrant => export_qdrant w
  end.

Definition collection_key (b : backend) : string :=
  match b with
  | Pinecone => "index"
  | Weaviate => "class_name"
  | Qdrant => "collection"
  end.

Definition subcommand (b : backend) : string :=
  match b with
  | Pinecone => "pinecone"
  | Weaviate => "weaviate"
  | Qdrant => "qdrant"
  end.

(** * The vocabulary of the statements *)

(** The prompts of the three drivers, as the source writes them. *)
Definition environment_prompt : string :=
  "Enter the environment of Pinecone instance: ".

Definition index_prompt : string :=
  "Enter the name of index to export, or type all to get all indexes: ".

Definition model_name_prompt : string := "Enter the name of model used:".

Definition api_key_prompt : string := "Enter your Pinecone API key: ".

Definition weaviate_url_prompt : string :=
  "Enter the location of Weaviate instance: ".

Definition class_name_prompt : string :=
  "Enter the name of class to export, or type all to export all classes: ".

Definition crossrefs_prompt : string :=
  "Include cross references, enter Y or N: ".

Definition qdrant_url_prompt : string :=
  "Enter the location of Qdrant instance: ".

Definition collection_prompt : string :=
  "Enter the name of collection to export, or type all to export all collections: ".

(** The arguments each driver collects with [set_arg_from_input], with
    their prompts. *)
Definition input_table (b : backend) : list (string * string) :=
  match b with
  | Pinecone => [ ("environment", environment_prompt);
                  ("index", index_prompt);
                  ("model_name", model_name_prompt) ]
  | Weaviate => [ ("url", weaviate_url_prompt);
                  ("class_name", class_name_prompt);
                  ("include_crossrefs", crossrefs_prompt) ]
  | Qdrant => [ ("url", qdrant_url_prompt);
                ("collection", collection_prompt) ]
  end.

(** The second argument of [get_data], which only Weaviate has. *)
Definition crossrefs_arg (b : backend) (a : dict) : option pyval :=
  match b with
  | Weaviate => a !! "include_crossrefs"
  | _ => None
  end.

(** What a driver prints between collecting and calling the adapter. *)
Definition preamble (b : backend) (a : dict) : list event :=
  match b with
  | Pinecone => [EvPrint (PDict a)]
  | _ => []
  end.

(** A prompt of driver [b] that is justified by [args]: it asks for an
    argument that [args] lacks. *)
Definition asked (w : world) (b : backend) (args : dict) (e : event) : Prop :=
  (exists k p l, e = EvInput p l /\ In (k, p) (input_table b)
                 /\ missing args k = true)
  \/ (exists l, b = Pinecone /\ e = EvGetpass api_key_prompt l
                /\ getenv w "PINECONE_API_KEY" = None
                /\ missing args "pinecone_api_key" = true).

(** The dict [a] a driver ends up with, from the dict [args] it was
    given and the prompts that were answered. *)
Definition final_args
    (w : world) (b : backend) (args : dict) (prompts : list event) (a : dict)
  : Prop :=
  (forall k p, In (k, p) (input_table b) -> k <> "include_crossrefs" ->
     if missing args k
     then exists l, In (EvInput p (Some l)) prompts /\ a !! k = Some (PyStr l)
     else a !! k = args !! k)
  /\ match b with
     | Pinecone =>
         exists v, a !! "pinecone_api_key" = Some v /\
           match getenv w "PINECONE_API_KEY" with
           | Some s => v = PyStr s
           | None =>
               if missing args "pinecone_api_key"
               then exists l, v = PyStr l /\
                      In (EvGetpass api_key_prompt (Some l)) prompts
               else args !! "pinecone_api_key" = Some v
           end
     | Weaviate =>
         exists x, a !! "include_crossrefs" = Some (PyBool x) /\
           (x = true <->
              args !! "include_crossrefs" = Some (PyStr "Y")
              \/ In (EvInput crossrefs_prompt (Some "Y")) prompts)
     | Qdrant => True
     end.

(** The calls into the adapter, made after trace [tr] with the dict [a]:
    the constructor, then either one [get_data] for the selected name or,
    for ["all"], the enumeration and one [get_data] for each of the first
    [k] names.  The phase stops early only by an exception from the
    adapter. *)
Inductive adapter_phase
    (w : world) (b : backend) (a : dict) (cr : option pyval)
    (tr : list event) : outcome dict -> list event -> Prop :=
  | AP_new_raises :
      adapter_phase w b a cr tr (Raised AdapterError) [EvNew b a]
  | AP_one sel r :
      a !! collection_key b = Some sel ->
      sel <> PyStr "all" ->
      r = Ok a \/ r = Raised AdapterError ->
      adapter_phase w b a cr tr r [EvNew b a; EvGetData b sel cr]
  | AP_all names k r :
      a !! collection_key b = Some (PyStr "all") ->
      names = enum_result w (tr ++ [EvNew b a]) b ->
      (k <= length names)%nat ->
      (r = Ok a /\ k = length names) \/ r = Raised AdapterError ->
      adapter_phase w b a cr tr r
        (EvNew b a :: EvEnum b names ::
           map (fun n => EvGetData b n cr) (take k names)).

(** One [set_arg_from_input] that returned: [a] and the events [evs] it
    left. *)
Definition collected
    (args : dict) (k p : string) (a : dict) (evs : list event) : Prop :=
  (missing args k = false /\ a = args /\ evs = [])
  \/ (missing args k = true /\
      exists l, a = <[k := PyStr l]> args /\ evs = [EvInput p (Some l)]).

(** The phase as Pinecone and Qdrant write it: constructor first. *)
Definition phase_prog
    (w : world) (b : backend) (a : dict) (key : string) (cr : option pyval)
  : M dict :=
  new_adapter w b a ;;
  let* sel := getitem a key in
  if py_eq sel (PyStr "all") then
    let* names := get_all_names w b in
    for_each names (fun n => get_data w b n cr) ;;
    ret a
  else
    let* sel := getitem a key in
    get_data w b sel cr ;;
    ret a.

(** One [set_arg_from_password] that returned. *)
Definition collected_password
    (w : world) (args : dict) (k p env : string) (a : dict)
    (evs : list event) : Prop :=
  match getenv w env with
  | Some s => a = <[k := PyStr s]> args /\ evs = []
  | None =>
      (missing args k = false /\ a = args /\ evs = [])
      \/ (missing args k = true /\
          exists l, a = <[k := PyStr l]> args /\ evs = [EvGetpass p (Some l)])
  end.

(** The calls into the adapter among some events, in order. *)
Definition adapter_calls (evs : list event) : list event :=
  List.filter is_adapter_call evs.

(** A world for the examples: no environment variable is set, every
    enumeration returns [["a"; "b"]] and no adapter call raises. *)
Definition example_world : world :=
  World ∅ (fun _ _ => [PyStr "a"; PyStr "b"]) (fun _ _ => false).

Definition qdrant_all : dict :=
  {["url" := PyStr "http://localhost:6333"; "collection" := PyStr "all"]}.

Definition qdrant_docs : dict :=
  {["url" := PyStr "http://localhost:6333"; "collection" := PyStr "docs"]}.

Definition idle : state := State ["export.py"] [] [] [].

(** What [print] wrote, in order. *)
Definition printed_lines (evs : list event) : list printed :=
  omap (fun e => match e with EvPrint p => Some p | _ => None end) evs.

(** The example of the docstring of [main]:
    [python export.py weaviate -u http://localhost:8080 -c my_class -i Y]. *)
Definition docstring_weaviate_argv : list string :=
  ["weaviate"; "-u"; "http://localhost:8080"; "-c"; "my_class"; "-i"; "Y"].

Definition docstring_weaviate_args : dict :=
  {[ "model_name" := PyStr "text-embedding-ada-002";
     "vector_database" := PyStr "weaviate";
     "url" := PyStr "http://localhost:8080";
     "class_name" := PyStr "my_class";
     "include_crossrefs" := PyBool true ]}.

(** A token that no option can take as its argument and that the scan
    can only reject: an unknown option or the [--] separator. *)
Definition blocking (t : token) : Prop :=
  match t with
  | TokO _ (None, _, _) => True
  | TokDashDash => True
  | _ => False
  end.

(** The remaining tokens hold a blocking token, and the string [vd] at or
    after it. *)
Inductive blocked (vd : string) : list token -> Prop :=
  | blocked_here t post :
      blocking t -> In vd (map token_string (t :: post)) ->
      blocked vd (t :: post)
  | blocked_later t toks :
      blocked vd toks -> blocked vd (t :: toks).

(** The option [main] appends to [sys.argv] before it calls itself. *)
Definition vector_database_flag : string := "--vector_database".

(** Storing for the action of token [t] keeps [P]. *)
Definition tok_preserves (P : dict -> Prop) (t : token) : Prop :=
  match t with
  | TokO _ (Some a, _, _) =>
      match act a with
      | Store dest type =>
          forall (ns : dict) v, P ns -> P (<[dest := get_values type v]> ns)
      | Help => True
      end
  | _ => True
  end.

(** How an argument string [s] can name the option string [os]: exactly,
    as [os=value], as an abbreviation that no other option string of the
    parser starts with, as [-xvalue], or as a prefix of a single-dash
    option string. *)
Definition resolves (osa : list (string * argument)) (s os : string) : Prop :=
  os = s
  \/ String.prefix os s = true
  \/ (exists p, String.prefix "--" p = true /\ String.prefix p s = true
                /\ String.prefix p os = true
                /\ forall os' a', In (os', a') osa ->
                     String.prefix p os' = true -> os' = os)
  \/ os = String.substring 0 2 s
  \/ (String.prefix s os = true /\ second_is_dash s = false
      /\ (2 <= String.length s)%nat).

Definition tok_ok (osa : list (string * argument)) (t : token) : Prop :=
  match t with
  | TokO s (Some a, os, ex) =>
      parse_optional osa s = inr (Some (Some a, os, ex))
  | _ => True
  end.

(** Every value the options of [p] can store keeps [P]. *)
Definition parser_preserves (P : dict -> Prop) (p : option_parser) : Prop :=
  forall os a dest type,
    In (os, a) (option_string_actions p) -> act a = Store dest type ->
    forall (ns : dict) v, P ns -> P (<[dest := get_values type v]> ns).

(** No [-i...] and no [--i...] among the argument strings: the option
    [-i/--index] is not on the command line in any spelling [argparse]
    accepts. *)
Definition omits_index (arg_strings : list string) : Prop :=
  Forall (fun s => String.prefix "-i" s = false
                   /\ String.prefix "--i" s = false) arg_strings.

(** The backend an adapter call goes to. *)
Definition backend_of (e : event) : option backend :=
  match e with
  | EvNew b _ | EvEnum b _ | EvGetData b _ _ => Some b
  | _ => None
  end.

Definition is_new (e : event) : bool :=
  match e with EvNew _ _ => true | _ => false end.

(** The prompt for the name of the collection to export. *)
Definition collection_prompt_of (b : backend) : string :=
  match b with
  | Pinecone => index_prompt
  | Weaviate => class_name_prompt
  | Qdrant => collection_prompt
  end.

(** What an adapter call is told about cross-references: the entry of
    the dict the constructor receives, the second argument of
    [get_data]. *)
Definition crossrefs_seen (e : event) : option (option pyval) :=
  match e with
  | EvNew _ a => Some (a !! "include_crossrefs")
  | EvGetData _ _ cr => Some cr
  | _ => None
  end.

(** A weaviate dict without [include_crossrefs], and a state in which
    [lines] are waiting on the standard input. *)
Definition weaviate_all : dict :=
  {["url" := PyStr "http://localhost:8080"; "class_name" := PyStr "all"]}.

Definition answering (lines : list string) : state :=
  State ["export.py"] lines [] [].

(** The prompt of [main] when the command line names no backend. *)
Definition vector_database_prompt : string :=
  "Enter the name of vector database to export: ".

(** The sub-parser of each backend. *)
Definition sub_parser (b : backend) : option_parser :=
  match b with
  | Pinecone => parser_pinecone
  | Weaviate => parser_weaviate
  | Qdrant => parser_qdrant
  end.

(** The keys a sub-parser gives its namespace: those of the driver's
    table, but for [model_name], which is the main parser's. *)
Definition sub_key (b : backend) (k : string) : Prop :=
  (exists p, In (k, p) (input_table b)) /\ k <> "model_name".

(** The events of a driver: a prompt, the dict pinecone prints, or a call
    into the adapter of its own backend. *)
Definition driver_event (b : backend) (e : event) : Prop :=
  is_prompt e = true
  \/ (exists a, e = EvPrint (PDict a))
  \/ (is_adapter_call e = true /\ backend_of e = Some b).

(** No call into an adapter raises. *)
Definition never_raises (w : world) : Prop :=
  forall tr e, adapter_raises w tr e = false.

(** A world for the examples in which [PINECONE_API_KEY] is set. *)
Definition keyed_world : world :=
  World {["PINECONE_API_KEY" := "sk-env"]}
    (fun _ _ => [PyStr "a"; PyStr "b"]) (fun _ _ => false).


(** An argument string that the pinecone parser reads as the option
    [-i/--index], in any spelling: [-i], [-iX], [-i=X], [--index],
    [--index=X] or an abbreviation of the long form. *)
Definition names_index (s : string) : bool :=
  match parse_optional (option_string_actions parser_pinecone) s with
  | inr (Some (Some a, _, _)) =>
      match act a with
      | Store dest _ => String.eqb dest "index"
      | Help => false
      end
  | _ => false
  end.

(** The option [-i/--index] is on the command line: some argument string
    after the name of the sub-command names it. *)
Fixpoint index_given (arg_strings : list string) : bool :=
  match arg_strings with
  | [] => false
  | s :: rest =>
      String.eqb s "pinecone" && existsb names_index rest || index_given rest
  end.

(** What a [type=str] option stores: the string given, or the empty
    list for the argument [--]. *)
Definition str_or_empty_list (v : pyval) : Prop :=
  v = PyEmptyList \/ exists s, v = PyStr s.

(** * Verification *)

(** ** The parser on sample command lines *)

Definition namespace_of (r : parse_outcome dict) (key : string)
  : option pyval :=
  match r with
  | Parsed ns => ns !! key
  | _ => None
  end.

Example parse_no_arguments :
  parse_args parser []
  = Parsed {[ "model_name" := PyStr "text-embedding-ada-002";
              "vector_database" := PyNone ]}.
Proof. vm_compute. reflexivity. Qed.

Example parse_pinecone_defaults :
  parse_args parser ["pinecone"]
  = Parsed {[ "model_name" := PyStr "text-embedding-ada-002";
              "vector_database" := PyStr "pinecone";
              "environment" := PyNone;
              "index" := PyStr "all" ]}.
Proof. vm_compute. reflexivity. Qed.

Example parse_docstring_pinecone :
  parse_args parser ["pinecone"; "-e"; "my_env"; "-i"; "my_index"]
  = Parsed {[ "model_name" := PyStr "text-embedding-ada-002";
              "vector_database" := PyStr "pinecone";
              "environment" := PyStr "my_env";
              "index" := PyStr "my_index" ]}.
Proof. vm_compute. reflexivity. Qed.

Example parse_abbreviations :
  parse_args parser ["--mod=ada"; "qdrant"; "--u"; "here"; "-cdocs"]
  = Parsed {[ "model_name" := PyStr "ada";
              "vector_database" := PyStr "qdrant";
              "url" := PyStr "here";
              "collection" := PyStr "docs" ]}.
Proof. vm_compute. reflexivity. Qed.

Example parse_crossrefs_is_bool :
  namespace_of (parse_args parser ["weaviate"; "-i"; "N"])
    "include_crossrefs" = Some (PyBool true)
  /\ namespace_of (parse_args parser ["weaviate"; "-i"; ""])
       "include_crossrefs" = Some (PyBool false)
  /\ namespace_of (parse_args parser ["weaviate"])
       "include_crossrefs" = Some PyNone.
Proof. repeat split; vm_compute; reflexivity. Qed.

Example parse_errors :
  parse_args parser ["milvus"] = ParseError (InvalidChoice "milvus")
  /\ parse_args parser ["--vector_database"; "pinecone"]
     = ParseError (UnrecognizedArguments ["--vector_database"])
  /\ parse_args parser ["pinecone"; "-m"; "ada"]
     = ParseError (UnrecognizedArguments ["-m"; "ada"])
  /\ parse_args parser ["pinecone"; "-e"; "-x"]
     = ParseError (ExpectedOneArgument ["-e"; "--environment"])
  /\ parse_args parser ["pinecone"; "-e"; "-1"]
     <> ParseError (ExpectedOneArgument ["-e"; "--environment"])
  /\ parse_args parser ["--=x"] = ParseError (AmbiguousOption "--=x")
  /\ parse_args parser ["--help=x"]
     = ParseError (IgnoredExplicitArgument "x")
  /\ parse_args parser ["--"] = ParseError (UnrecognizedArguments ["--"])
  /\ parse_args parser ["pinecone"; "-h"] = HelpExit.
Proof. repeat split; vm_compute; try reflexivity; discriminate. Qed.

(** An option whose argument is [--] gets the empty list, in each of
    the three spellings that give the argument in the same string. *)
Example parse_dash_dash_argument :
  namespace_of (parse_args parser ["pinecone"; "-i=--"]) "index"
  = Some PyEmptyList
  /\ namespace_of (parse_args parser ["pinecone"; "--index=--"]) "index"
     = Some PyEmptyList
  /\ namespace_of (parse_args parser ["pinecone"; "-i--"]) "index"
     = Some PyEmptyList
  /\ namespace_of (parse_args parser ["--model_name=--"; "qdrant"])
       "model_name" = Some PyEmptyList
  /\ namespace_of (parse_args parser ["weaviate"; "-i=--"])
       "include_crossrefs" = Some PyEmptyList
  /\ parse_args parser ["pinecone"; "-i"; "--"]
     = ParseError (ExpectedOneArgument ["-i"; "--index"]).
Proof. repeat split; vm_compute; reflexivity. Qed.

(** A dash followed by decimal digits of any script is a negative number
    and so an argument, not an option: here [-] and ARABIC-INDIC DIGIT
    ONE (U+0661, the bytes 217 and 161).  A superscript two (U+00B2,
    the bytes 194 and 178) is no decimal digit. *)
Example parse_unicode_digits :
  namespace_of
    (parse_args parser
       ["pinecone"; "-e";
        String "-" (String "217" (String "161" EmptyString))])
    "environment"
  = Some (PyStr (String "-" (String "217" (String "161" EmptyString))))
  /\ parse_args parser
       ["pinecone"; "-e";
        String "-" (String "194" (String "178" EmptyString))]
     = ParseError (ExpectedOneArgument ["-e"; "--environment"]).
Proof. split; vm_compute; reflexivity. Qed.

(** ** Running the primitives *)

Lemma bind_ok {A B} (m : M A) (k : A -> M B) st a st1 :
  m st = (Ok a, st1) -> bind m k st = k a st1.
Proof. intros H. unfold bind. now rewrite H. Qed.

Lemma bind_raised {A B} (m : M A) (k : A -> M B) st e st1 :
  m st = (Raised e, st1) -> bind m k st = (Raised e, st1).
Proof. intros H. unfold bind. now rewrite H. Qed.

Lemma bind_ret {A B} (a : A) (k : A -> M B) st : bind (ret a) k st = k a st.
Proof. reflexivity. Qed.

Lemma bind_ext_l {A B} (m m' : M A) (k : A -> M B) st :
  m st = m' st -> bind m k st = bind m' k st.
Proof. intros H. unfold bind. now rewrite H. Qed.

Lemma getitem_some (args : dict) (key : string) (v : pyval) :
  args !! key = Some v -> getitem args key = ret v.
Proof. intros H. unfold getitem. now rewrite H. Qed.

Lemma missing_false (args : dict) (k : string) :
  missing args k = false <-> exists v, args !! k = Some v /\ v <> PyNone.
Proof.
  unfold missing. split.
  - destruct (args !! k) as [[]|] eqn:E; try discriminate; eauto.
  - intros (v & -> & Hv). destruct v; congruence.
Qed.

Lemma missing_true (args : dict) (k : string) :
  missing args k = true <-> args !! k = None \/ args !! k = Some PyNone.
Proof.
  unfold missing. split.
  - destruct (args !! k) as [[]|] eqn:E; try discriminate; eauto.
  - intros [-> | ->]; reflexivity.
Qed.

Lemma missing_insert_str (args : dict) (k : string) (s : string) :
  missing (<[k := PyStr s]> args) k = false.
Proof. unfold missing. now rewrite lookup_insert_eq. Qed.

Lemma set_arg_from_input_run (args : dict) (arg_name prompt : string) st :
  set_arg_from_input args arg_name prompt st =
    if missing args arg_name then
      match stdin st with
      | [] => (Raised EOFError, log (EvInput prompt None) st)
      | line :: rest =>
          (Ok (<[arg_name := PyStr line]> args),
           log (EvInput prompt (Some line))
             (State (argv st) rest (tty st) (trace st)))
      end
    else (Ok args, st).
Proof.
  unfold set_arg_from_input, bind, input, ret.
  destruct (missing args arg_name); [|reflexivity].
  now destruct (stdin st).
Qed.

Lemma set_arg_from_password_run
    w (args : dict) (arg_name prompt env_var_name : string) st :
  set_arg_from_password w args arg_name prompt env_var_name st =
    match getenv w env_var_name with
    | Some v => (Ok (<[arg_name := PyStr v]> args), st)
    | None =>
        if missing args arg_name then
          match tty st with
          | [] => (Raised EOFError, log (EvGetpass prompt None) st)
          | line :: rest =>
              (Ok (<[arg_name := PyStr line]> args),
               log (EvGetpass prompt (Some line))
                 (State (argv st) (stdin st) rest (trace st)))
          end
        else (Ok args, st)
    end.
Proof.
  unfold set_arg_from_password, bind, getpass, ret.
  destruct (getenv w env_var_name); [reflexivity|].
  destruct (missing args arg_name); [|reflexivity].
  now destruct (tty st).
Qed.

(** ** Argument collection *)

(** C6.  [set_arg_from_input] prompts and writes the line that was entered
    only when the argument is absent from the mapping or maps to [None];
    when it already has a value other than [None], the mapping and the
    whole state are left as they were: nothing is shown and nothing is
    read. *)
Theorem set_arg_from_input_frame
    (args : dict) (arg_name prompt : string) (st : state) :
  ((exists v, args !! arg_name = Some v /\ v <> PyNone) ->
     set_arg_from_input args arg_name prompt st = (Ok args, st))
  /\ (args !! arg_name = None \/ args !! arg_name = Some PyNone ->
        set_arg_from_input args arg_name prompt st =
          match stdin st with
          | [] => (Raised EOFError, log (EvInput prompt None) st)
          | line :: rest =>
              (Ok (<[arg_name := PyStr line]> args),
               State (argv st) rest (tty st)
                 (trace st ++ [EvInput prompt (Some line)]))
          end)
  /\ (forall r st',
        set_arg_from_input args arg_name prompt st = (r, st') ->
        st' <> st ->
        args !! arg_name = None \/ args !! arg_name = Some PyNone).
Proof.
  rewrite set_arg_from_input_run. repeat split.
  - intros H. apply missing_false in H. now rewrite H.
  - intros H. apply missing_true in H. now rewrite H.
  - intros r st'. destruct (missing args arg_name) eqn:E.
    + intros _ _. now apply missing_true.
    + intros [= _ <-] H. now destruct H.
Qed.

Lemma set_arg_from_input_frame_witness :
  set_arg_from_input {["index" := PyStr "docs"]} "index" "Enter: "
      (State ["export.py"] ["all"] [] [])
    = (Ok {["index" := PyStr "docs"]}, State ["export.py"] ["all"] [] [])
  /\ set_arg_from_input {["index" := PyNone]} "index" "Enter: "
       (State ["export.py"] ["all"] [] [])
     = (Ok (<["index" := PyStr "all"]> {["index" := PyNone]}),
        State ["export.py"] [] [] [EvInput "Enter: " (Some "all")]).
Proof.
  split.
  - apply (set_arg_from_input_frame {["index" := PyStr "docs"]}).
    exists (PyStr "docs"). split; [reflexivity | discriminate].
  - apply (set_arg_from_input_frame {["index" := PyNone]} "index" "Enter: "
             (State ["export.py"] ["all"] [] [])).
    right. reflexivity.
Defined.

(** C4.  [set_arg_from_password] takes the value of the environment
    variable when it is set, without prompting.  Only when the variable is
    unset and the argument is absent or [None] does it prompt, and then
    through [getpass]; when the variable is unset and the argument has a
    value, nothing happens. *)
Theorem set_arg_from_password_sources
    (w : world) (args : dict) (arg_name prompt env_var_name : string)
    (st : state) :
  (forall v, getenv w env_var_name = Some v ->
     set_arg_from_password w args arg_name prompt env_var_name st
       = (Ok (<[arg_name := PyStr v]> args), st))
  /\ (getenv w env_var_name = None ->
      (exists v, args !! arg_name = Some v /\ v <> PyNone) ->
      set_arg_from_password w args arg_name prompt env_var_name st
        = (Ok args, st))
  /\ (getenv w env_var_name = None ->
      args !! arg_name = None \/ args !! arg_name = Some PyNone ->
      set_arg_from_password w args arg_name prompt env_var_name st =
        match tty st with
        | [] => (Raised EOFError, log (EvGetpass prompt None) st)
        | line :: rest =>
            (Ok (<[arg_name := PyStr line]> args),
             State (argv st) (stdin st) rest
               (trace st ++ [EvGetpass prompt (Some line)]))
        end)
  /\ (forall r st',
        set_arg_from_password w args arg_name prompt env_var_name st
          = (r, st') ->
        st' <> st ->
        getenv w env_var_name = None /\
        (args !! arg_name = None \/ args !! arg_name = Some PyNone) /\
        exists line, trace st' = trace st ++ [EvGetpass prompt line]).
Proof.
  rewrite set_arg_from_password_run. repeat split.
  - now intros v ->.
  - intros -> H. apply missing_false in H. now rewrite H.
  - intros -> H. apply missing_true in H. now rewrite H.
  - destruct (getenv w env_var_name); [|reflexivity].
    injection H as _ <-. now destruct H0.
  - destruct (getenv w env_var_name).
    { injection H as _ <-. now destruct H0. }
    destruct (missing args arg_name) eqn:E.
    + now apply missing_true.
    + injection H as _ <-. now destruct H0.
  - destruct (getenv w env_var_name).
    { injection H as _ <-. now destruct H0. }
    destruct (missing args arg_name) eqn:E.
    + destruct (tty st); injection H as _ <-; eauto.
    + injection H as _ <-. now destruct H0.
Qed.

Lemma set_arg_from_password_sources_witness :
  set_arg_from_password
      (World {["PINECONE_API_KEY" := "sk-env"]} (fun _ _ => []) (fun _ _ => false))
      ∅ "pinecone_api_key" "Enter your Pinecone API key: " "PINECONE_API_KEY"
      (State ["export.py"] [] ["sk-typed"] [])
    = (Ok (<["pinecone_api_key" := PyStr "sk-env"]> ∅),
       State ["export.py"] [] ["sk-typed"] [])
  /\ set_arg_from_password
       (World ∅ (fun _ _ => []) (fun _ _ => false))
       ∅ "pinecone_api_key" "Enter your Pinecone API key: " "PINECONE_API_KEY"
       (State ["export.py"] [] ["sk-typed"] [])
     = (Ok (<["pinecone_api_key" := PyStr "sk-typed"]> ∅),
        State ["export.py"] [] []
          [EvGetpass "Enter your Pinecone API key: " (Some "sk-typed")]).
Proof.
  split.
  - apply (set_arg_from_password_sources
             (World {["PINECONE_API_KEY" := "sk-env"]}
                (fun _ _ => []) (fun _ _ => false))).
    reflexivity.
  - apply (set_arg_from_password_sources
             (World ∅ (fun _ _ => []) (fun _ _ => false)) ∅
             "pinecone_api_key" "Enter your Pinecone API key: "
             "PINECONE_API_KEY" (State ["export.py"] [] ["sk-typed"] []));
      [reflexivity | left; reflexivity].
Defined.

(** C9.  When the environment variable is set, [set_arg_from_password]
    writes its value over whatever the mapping holds for the argument,
    also over a value that was supplied explicitly; it does not prompt and
    touches no other key. *)
Theorem set_arg_from_password_env_overrides
    (w : world) (args : dict) (arg_name prompt env_var_name : string)
    (st : state) (v : string) :
  getenv w env_var_name = Some v ->
  exists a,
    set_arg_from_password w args arg_name prompt env_var_name st = (Ok a, st)
    /\ a !! arg_name = Some (PyStr v)
    /\ forall k, k <> arg_name -> a !! k = args !! k.
Proof.
  intros H. rewrite set_arg_from_password_run, H.
  eexists. split; [reflexivity|]. split.
  - apply lookup_insert_eq.
  - intros k Hk. now apply lookup_insert_ne.
Qed.

Lemma set_arg_from_password_env_overrides_witness :
  exists a,
    set_arg_from_password
      (World {["PINECONE_API_KEY" := "sk-env"]} (fun _ _ => []) (fun _ _ => false))
      {["pinecone_api_key" := PyStr "sk-explicit"]}
      "pinecone_api_key" "Enter your Pinecone API key: " "PINECONE_API_KEY"
      (State ["export.py"] [] [] [])
    = (Ok a, State ["export.py"] [] [] [])
    /\ a !! "pinecone_api_key" = Some (PyStr "sk-env")
    /\ forall k, k <> "pinecone_api_key" ->
         a !! k = ({["pinecone_api_key" := PyStr "sk-explicit"]} : dict) !! k.
Proof.
  apply (set_arg_from_password_env_overrides
           (World {["PINECONE_API_KEY" := "sk-env"]}
              (fun _ _ => []) (fun _ _ => false))).
  reflexivity.
Defined.

(** ** What a driver does, as a shape of its trace *)

Lemma set_arg_from_input_step (args : dict) (k p : string) st :
  exists r st' evs,
    set_arg_from_input args k p st = (r, st')
    /\ trace st' = trace st ++ evs
    /\ ((r = Raised EOFError /\ evs = [EvInput p None]
         /\ missing args k = true)
        \/ exists a, r = Ok a /\ collected args k p a evs).
Proof.
  rewrite set_arg_from_input_run. unfold collected.
  destruct (missing args k) eqn:E.
  - destruct (stdin st) as [|l rest].
    + do 3 eexists. split; [reflexivity|]. split; [reflexivity|]. now left.
    + do 3 eexists. split; [reflexivity|]. split; [reflexivity|].
      right. eexists. split; [reflexivity|]. right. eauto.
  - exists (Ok args), st, []. split; [reflexivity|].
    split; [now rewrite app_nil_r|]. right. eexists. split; [reflexivity|].
    now left.
Qed.

Lemma collected_lookup_ne args k p a evs k' :
  collected args k p a evs -> k' <> k -> a !! k' = args !! k'.
Proof.
  intros [(_ & -> & _) | (_ & l & -> & _)] H; [reflexivity|].
  now apply lookup_insert_ne.
Qed.

Lemma collected_present args k p a evs :
  collected args k p a evs -> missing a k = false.
Proof.
  intros [(H & -> & _) | (_ & l & -> & _)]; [exact H|].
  apply missing_insert_str.
Qed.

Lemma collected_value args k p a evs :
  collected args k p a evs ->
  if missing args k
  then exists l, evs = [EvInput p (Some l)] /\ a !! k = Some (PyStr l)
  else a = args /\ evs = [].
Proof.
  intros [(H & -> & ->) | (H & l & -> & ->)]; rewrite H; [easy|].
  exists l. split; [reflexivity|]. apply lookup_insert_eq.
Qed.

Lemma collected_events args k p a evs e :
  collected args k p a evs -> In e evs ->
  exists l, e = EvInput p (Some l) /\ missing args k = true.
Proof.
  intros [(_ & _ & ->) | (H & l & _ & ->)] Hin; [destruct Hin|].
  destruct Hin as [<- | []]. eauto.
Qed.

(** *** The loops *)

Lemma for_each_ext {A} (xs : list A) (f g : A -> M unit) st :
  (forall x st, f x st = g x st) -> for_each xs f st = for_each xs g st.
Proof.
  intros H. revert st. induction xs as [|x xs IH]; intros st; [reflexivity|].
  simpl. unfold bind. rewrite H. destruct (g x st) as [[[]|e] st1]; [|reflexivity].
  apply IH.
Qed.

Lemma for_each_get_data_run w b cr (names : list pyval) st :
  exists k r st',
    for_each names (fun n => get_data w b n cr) st = (r, st')
    /\ trace st' = trace st ++ map (fun n => EvGetData b n cr) (take k names)
    /\ (k <= length names)%nat
    /\ ((r = Ok tt /\ k = length names) \/ r = Raised AdapterError).
Proof.
  revert st. induction names as [|n names IH]; intros st.
  - exists 0%nat, (Ok tt), st. simpl. rewrite app_nil_r.
    split; [reflexivity|]. split; [reflexivity|]. split; [lia | now left].
  - simpl. unfold bind, get_data at 1, adapter_call.
    destruct (adapter_raises w (trace st) (EvGetData b n cr)).
    + exists 1%nat. do 2 eexists. split; [reflexivity|]. simpl.
      split; [reflexivity|]. split; [lia | now right].
    + destruct (IH (log (EvGetData b n cr) st))
        as (k & r & st' & E & T & L & R).
      exists (S k), r, st'. split; [exact E|]. simpl. split.
      * rewrite T. simpl. now rewrite <- app_assoc.
      * split; [lia|]. destruct R as [[-> ->] | ->]; [now left | now right].
Qed.

Lemma enum_loop_run w b cr (a : dict) st :
  exists k r st',
    (let* names := get_all_names w b in
     for_each names (fun n => get_data w b n cr) ;; ret a) st = (r, st')
    /\ trace st' =
         trace st ++ EvEnum b (enum_result w (trace st) b) ::
           map (fun n => EvGetData b n cr)
             (take k (enum_result w (trace st) b))
    /\ (k <= length (enum_result w (trace st) b))%nat
    /\ ((r = Ok a /\ k = length (enum_result w (trace st) b))
        \/ r = Raised AdapterError).
Proof.
  unfold bind at 1. unfold get_all_names, adapter_call.
  set (names := enum_result w (trace st) b).
  destruct (adapter_raises w (trace st) (EvEnum b names)).
  - exists 0%nat. do 2 eexists. split; [reflexivity|]. simpl.
    split; [reflexivity|]. split; [lia | now right].
  - destruct (for_each_get_data_run w b cr names (log (EvEnum b names) st))
      as (k & r & st' & E & T & L & R).
    unfold bind, ret. rewrite E. exists k.
    destruct R as [[-> ->] | ->].
    + do 2 eexists. split; [reflexivity|]. rewrite T. simpl.
      rewrite <- app_assoc. split; [reflexivity|]. split; [lia | now left].
    + do 2 eexists. split; [reflexivity|]. rewrite T. simpl.
      rewrite <- app_assoc. split; [reflexivity|]. split; [lia | now right].
Qed.

Lemma py_eq_true (x y : pyval) : py_eq x y = true <-> x = y.
Proof. unfold py_eq. apply bool_decide_eq_true. Qed.

Lemma py_eq_false (x y : pyval) : py_eq x y = false <-> x <> y.
Proof. unfold py_eq. apply bool_decide_eq_false. Qed.

(** *** The adapter phase *)

Lemma phase_prog_run w b (a : dict) cr sel st :
  a !! collection_key b = Some sel ->
  exists r st' calls,
    phase_prog w b a (collection_key b) cr st = (r, st')
    /\ trace st' = trace st ++ calls
    /\ adapter_phase w b a cr (trace st) r calls.
Proof.
  intros Hsel. unfold phase_prog, bind at 1, new_adapter, adapter_call.
  destruct (adapter_raises w (trace st) (EvNew b a)).
  { do 3 eexists. split; [reflexivity|]. split; [reflexivity|]. constructor. }
  unfold bind at 1, getitem at 1. rewrite Hsel. unfold ret at 1.
  destruct (py_eq sel (PyStr "all")) eqn:E.
  - apply py_eq_true in E. subst sel.
    destruct (enum_loop_run w b cr a (log (EvNew b a) st))
      as (k & r & st' & -> & T & L & R).
    do 3 eexists. split; [reflexivity|]. split.
    + rewrite T. simpl. rewrite <- app_assoc. reflexivity.
    + simpl. now apply AP_all.
  - apply py_eq_false in E.
    unfold bind, getitem. rewrite Hsel. unfold ret, get_data, adapter_call.
    simpl.
    destruct (adapter_raises w (trace st ++ [EvNew b a]) (EvGetData b sel cr)).
    + do 3 eexists. split; [reflexivity|]. simpl. rewrite <- app_assoc.
      split; [reflexivity|]. apply AP_one; auto.
    + do 3 eexists. split; [reflexivity|]. simpl. rewrite <- app_assoc.
      split; [reflexivity|]. apply AP_one; auto.
Qed.

(** Weaviate tests the class name first and builds the adapter in both
    branches, and reads [include_crossrefs] at every call: the same
    phase. *)
Lemma weaviate_phase w (a : dict) sel v st :
  a !! "class_name" = Some sel ->
  a !! "include_crossrefs" = Some v ->
  (let* class_name := getitem a "class_name" in
   if py_eq class_name (PyStr "all") then
     new_adapter w Weaviate a ;;
     let* class_names := get_all_names w Weaviate in
     for_each class_names (fun class_name =>
       let* include_crossrefs := getitem a "include_crossrefs" in
       get_data w Weaviate class_name (Some include_crossrefs)) ;;
     ret a
   else
     new_adapter w Weaviate a ;;
     let* class_name := getitem a "class_name" in
     let* include_crossrefs := getitem a "include_crossrefs" in
     get_data w Weaviate class_name (Some include_crossrefs) ;;
     ret a) st
  = phase_prog w Weaviate a "class_name" (Some v) st.
Proof.
  intros Hsel Hv. unfold phase_prog.
  rewrite (getitem_some _ _ _ Hsel), bind_ret.
  destruct (new_adapter w Weaviate a st) as [[[]|e] st1] eqn:N.
  2:{ rewrite (bind_raised _ _ _ _ _ N).
      destruct (py_eq sel (PyStr "all"));
        now rewrite (bind_raised _ _ _ _ _ N). }
  rewrite (bind_ok _ _ _ _ _ N), bind_ret.
  destruct (py_eq sel (PyStr "all")) eqn:E;
    rewrite (bind_ok _ _ _ _ _ N).
  - destruct (get_all_names w Weaviate st1) as [[names|e] st2] eqn:G.
    2:{ now rewrite !(bind_raised _ _ _ _ _ G). }
    rewrite !(bind_ok _ _ _ _ _ G).
    apply bind_ext_l, for_each_ext.
    intros x st0. now rewrite (getitem_some _ _ _ Hv), bind_ret.
  - now rewrite !bind_ret, (getitem_some _ _ _ Hv), bind_ret.
Qed.

(** *** The shape of a run of each driver *)

Lemma set_arg_from_password_step w (args : dict) (k p env : string) st :
  exists r st' evs,
    set_arg_from_password w args k p env st = (r, st')
    /\ trace st' = trace st ++ evs
    /\ ((r = Raised EOFError /\ evs = [EvGetpass p None]
         /\ getenv w env = None /\ missing args k = true)
        \/ exists a, r = Ok a /\ collected_password w args k p env a evs).
Proof.
  rewrite set_arg_from_password_run. unfold collected_password.
  destruct (getenv w env) as [s|].
  { exists (Ok (<[k := PyStr s]> args)), st, []. split; [reflexivity|].
    split; [now rewrite app_nil_r|]. right. eauto. }
  destruct (missing args k) eqn:E.
  - destruct (tty st) as [|l rest].
    + do 3 eexists. split; [reflexivity|]. split; [reflexivity|]. now left.
    + do 3 eexists. split; [reflexivity|]. split; [reflexivity|].
      right. eexists. split; [reflexivity|]. right. eauto.
  - exists (Ok args), st, []. split; [reflexivity|].
    split; [now rewrite app_nil_r|]. right. eexists. split; [reflexivity|].
    now left.
Qed.

Lemma collected_password_lookup_ne w args k p env a evs k' :
  collected_password w args k p env a evs -> k' <> k -> a !! k' = args !! k'.
Proof.
  unfold collected_password. intros H Hk.
  destruct (getenv w env).
  - destruct H as [-> _]. now apply lookup_insert_ne.
  - destruct H as [(_ & -> & _) | (_ & l & -> & _)]; [reflexivity|].
    now apply lookup_insert_ne.
Qed.

Lemma collected_entry (args0 args : dict) k p a evs (prompts : list event) :
  collected args k p a evs ->
  args !! k = args0 !! k ->
  (forall e, In e evs -> In e prompts) ->
  if missing args0 k
  then exists l, In (EvInput p (Some l)) prompts /\ a !! k = Some (PyStr l)
  else a !! k = args0 !! k.
Proof.
  intros C E Hin. apply collected_value in C.
  assert (missing args k = missing args0 k) as M
    by (unfold missing; now rewrite E).
  rewrite M in C. destruct (missing args0 k).
  - destruct C as (l & -> & Ha). exists l. split; [|exact Ha].
    apply Hin. now left.
  - destruct C as [-> _]. exact E.
Qed.

Lemma collected_asked w b (args0 args : dict) k p a evs :
  collected args k p a evs ->
  args !! k = args0 !! k ->
  In (k, p) (input_table b) ->
  Forall (asked w b args0) evs.
Proof.
  intros C E Hin. apply List.Forall_forall. intros e He.
  destruct (collected_events _ _ _ _ _ _ C He) as (l & -> & M).
  left. exists k, p, (Some l). split; [reflexivity|]. split; [exact Hin|].
  unfold missing in *. now rewrite <- E.
Qed.

Lemma eof_asked w b (args0 args : dict) k p :
  missing args k = true ->
  args !! k = args0 !! k ->
  In (k, p) (input_table b) ->
  Forall (asked w b args0) [EvInput p None].
Proof.
  intros M E Hin. constructor; [|constructor].
  left. exists k, p, None. split; [reflexivity|]. split; [exact Hin|].
  unfold missing in *. now rewrite <- E.
Qed.

Lemma missing_lookup (a : dict) (k : string) :
  missing a k = false -> exists v, a !! k = Some v.
Proof. intros H. apply missing_false in H as (v & H & _). eauto. Qed.

Ltac in_prompts :=
  intros ? ?; rewrite ?in_app_iff; auto 10.

Lemma export_pinecone_shape w (args : dict) st r st' :
  export_pinecone w args st = (r, st') ->
  exists prompts,
    Forall (asked w Pinecone args) prompts /\
    ((r = Raised EOFError /\ trace st' = trace st ++ prompts)
     \/ exists a calls,
          trace st' = trace st ++ prompts ++ preamble Pinecone a ++ calls
          /\ final_args w Pinecone args prompts a
          /\ adapter_phase w Pinecone a (crossrefs_arg Pinecone a)
               (trace st ++ prompts ++ preamble Pinecone a) r calls).
Proof.
  intros H. unfold export_pinecone in H.
  destruct (set_arg_from_input_step args "environment" environment_prompt st)
    as (r1 & st1 & e1 & E1 & T1 & [(-> & -> & M1) | (a1 & -> & C1)]).
  { rewrite (bind_raised _ _ _ _ _ E1) in H. injection H as <- <-.
    eexists. split; [|left; split; [reflexivity | exact T1]].
    eapply eof_asked; eauto. simpl; auto. }
  rewrite (bind_ok _ _ _ _ _ E1) in H.
  destruct (set_arg_from_input_step a1 "index" index_prompt st1)
    as (r2 & st2 & e2 & E2 & T2 & [(-> & -> & M2) | (a2 & -> & C2)]).
  { rewrite (bind_raised _ _ _ _ _ E2) in H. injection H as <- <-.
    exists (e1 ++ [EvInput index_prompt None]).
    split; [|left; split; [reflexivity | now rewrite T2, T1, <- app_assoc]].
    apply Forall_app. split.
    - eapply collected_asked; eauto. simpl; auto.
    - eapply eof_asked; eauto.
      + now apply (collected_lookup_ne _ _ _ _ _ _ C1).
      + simpl; auto. }
  rewrite (bind_ok _ _ _ _ _ E2) in H.
  destruct (set_arg_from_input_step a2 "model_name" model_name_prompt st2)
    as (r3 & st3 & e3 & E3 & T3 & [(-> & -> & M3) | (a3 & -> & C3)]).
  { rewrite (bind_raised _ _ _ _ _ E3) in H. injection H as <- <-.
    exists (e1 ++ e2 ++ [EvInput model_name_prompt None]).
    split; [|left; split; [reflexivity
                          | now rewrite T3, T2, T1, <- !app_assoc]].
    apply Forall_app. split; [|apply Forall_app; split].
    - eapply collected_asked; eauto. simpl; auto.
    - eapply collected_asked; eauto.
      + now apply (collected_lookup_ne _ _ _ _ _ _ C1).
      + simpl; auto.
    - eapply eof_asked; eauto.
      + rewrite (collected_lookup_ne _ _ _ _ _ _ C2) by discriminate.
        now apply (collected_lookup_ne _ _ _ _ _ _ C1).
      + simpl; auto. }
  rewrite (bind_ok _ _ _ _ _ E3) in H.
  assert (Forall (asked w Pinecone args) (e1 ++ e2 ++ e3)) as A123.
  { apply Forall_app. split; [|apply Forall_app; split].
    - eapply collected_asked; eauto. simpl; auto.
    - eapply collected_asked; eauto.
      + now apply (collected_lookup_ne _ _ _ _ _ _ C1).
      + simpl; auto.
    - eapply collected_asked; eauto.
      + rewrite (collected_lookup_ne _ _ _ _ _ _ C2) by discriminate.
        now apply (collected_lookup_ne _ _ _ _ _ _ C1).
      + simpl; auto. }
  assert (a3 !! "pinecone_api_key" = args !! "pinecone_api_key") as K3.
  { rewrite (collected_lookup_ne _ _ _ _ _ _ C3) by discriminate.
    rewrite (collected_lookup_ne _ _ _ _ _ _ C2) by discriminate.
    now apply (collected_lookup_ne _ _ _ _ _ _ C1). }
  destruct (set_arg_from_password_step w a3 "pinecone_api_key"
              api_key_prompt "PINECONE_API_KEY" st3)
    as (r4 & st4 & e4 & E4 & T4 & [(-> & -> & G4 & M4) | (a & -> & C4)]).
  { rewrite (bind_raised _ _ _ _ _ E4) in H. injection H as <- <-.
    exists ((e1 ++ e2 ++ e3) ++ [EvGetpass api_key_prompt None]).
    split; [|left; split; [reflexivity
                          | now rewrite T4, T3, T2, T1, <- !app_assoc]].
    apply Forall_app. split; [exact A123|].
    constructor; [|constructor]. right. exists None.
    repeat split; auto. unfold missing in *. now rewrite <- K3. }
  rewrite (bind_ok _ _ _ _ _ E4) in H.
  assert (print (PDict a) st4 = (Ok tt, log (EvPrint (PDict a)) st4)) as P
    by reflexivity.
  rewrite (bind_ok _ _ _ _ _ P) in H.
  assert (exists sel, a !! "index" = Some sel) as [sel Hsel].
  { apply missing_lookup.
    unfold missing. rewrite (collected_password_lookup_ne _ _ _ _ _ _ _ _ C4)
      by discriminate.
    rewrite (collected_lookup_ne _ _ _ _ _ _ C3) by discriminate.
    apply (collected_present _ _ _ _ _ C2). }
  destruct (phase_prog_run w Pinecone a None sel
              (log (EvPrint (PDict a)) st4) Hsel)
    as (r' & st'' & calls & E & T & AP).
  unfold phase_prog in E. simpl collection_key in E.
  rewrite E in H. injection H as <- <-.
  exists ((e1 ++ e2 ++ e3) ++ e4). split.
  { apply Forall_app. split; [exact A123|].
    apply List.Forall_forall. intros e He. unfold collected_password in C4.
    destruct (getenv w "PINECONE_API_KEY") eqn:G.
    - destruct C4 as [_ ->]. destruct He.
    - destruct C4 as [(_ & _ & ->) | (M & l & _ & ->)]; [destruct He|].
      destruct He as [<- | []]. right. exists (Some l).
      repeat split; auto. unfold missing in *. now rewrite <- K3. }
  right. exists a, calls.
  assert (trace st4 = trace st ++ (e1 ++ e2 ++ e3) ++ e4) as T'
    by now rewrite T4, T3, T2, T1, <- !app_assoc.
  split; [|split].
  - rewrite T. simpl. rewrite T', <- !app_assoc. reflexivity.
  - split.
    + intros k p [[= <- <-] | [[= <- <-] | [[= <- <-] | []]]] _.
      * rewrite (collected_password_lookup_ne _ _ _ _ _ _ _ _ C4)
          by discriminate.
        rewrite (collected_lookup_ne _ _ _ _ _ _ C3) by discriminate.
        rewrite (collected_lookup_ne _ _ _ _ _ _ C2) by discriminate.
        apply (collected_entry args args _ _ _ e1 _ C1); [reflexivity|].
        in_prompts.
      * rewrite (collected_password_lookup_ne _ _ _ _ _ _ _ _ C4)
          by discriminate.
        rewrite (collected_lookup_ne _ _ _ _ _ _ C3) by discriminate.
        apply (collected_entry args a1 _ _ _ e2 _ C2).
        -- now apply (collected_lookup_ne _ _ _ _ _ _ C1).
        -- in_prompts.
      * rewrite (collected_password_lookup_ne _ _ _ _ _ _ _ _ C4)
          by discriminate.
        apply (collected_entry args a2 _ _ _ e3 _ C3).
        -- rewrite (collected_lookup_ne _ _ _ _ _ _ C2) by discriminate.
           now apply (collected_lookup_ne _ _ _ _ _ _ C1).
        -- in_prompts.
    + unfold collected_password in C4.
      destruct (getenv w "PINECONE_API_KEY") as [s|] eqn:G.
      * destruct C4 as [-> _]. exists (PyStr s).
        split; [apply lookup_insert_eq | reflexivity].
      * assert (missing a3 "pinecone_api_key"
                = missing args "pinecone_api_key") as M
          by (unfold missing; now rewrite K3).
        rewrite <- M.
        destruct C4 as [(M4 & -> & ->) | (M4 & l & -> & ->)]; rewrite M4.
        -- destruct (missing_lookup _ _ M4) as [v Hv].
           exists v. split; [exact Hv|]. now rewrite <- K3.
        -- exists (PyStr l). split; [apply lookup_insert_eq|].
           exists l. split; [reflexivity|]. rewrite !in_app_iff. simpl. auto.
  - simpl in AP. rewrite T', <- app_assoc in AP. exact AP.
Qed.

Lemma export_qdrant_shape w (args : dict) st r st' :
  export_qdrant w args st = (r, st') ->
  exists prompts,
    Forall (asked w Qdrant args) prompts /\
    ((r = Raised EOFError /\ trace st' = trace st ++ prompts)
     \/ exists a calls,
          trace st' = trace st ++ prompts ++ preamble Qdrant a ++ calls
          /\ final_args w Qdrant args prompts a
          /\ adapter_phase w Qdrant a (crossrefs_arg Qdrant a)
               (trace st ++ prompts ++ preamble Qdrant a) r calls).
Proof.
  intros H. unfold export_qdrant in H.
  destruct (set_arg_from_input_step args "url" qdrant_url_prompt st)
    as (r1 & st1 & e1 & E1 & T1 & [(-> & -> & M1) | (a1 & -> & C1)]).
  { rewrite (bind_raised _ _ _ _ _ E1) in H. injection H as <- <-.
    eexists. split; [|left; split; [reflexivity | exact T1]].
    eapply eof_asked; eauto. simpl; auto. }
  rewrite (bind_ok _ _ _ _ _ E1) in H.
  destruct (set_arg_from_input_step a1 "collection" collection_prompt st1)
    as (r2 & st2 & e2 & E2 & T2 & [(-> & -> & M2) | (a & -> & C2)]).
  { rewrite (bind_raised _ _ _ _ _ E2) in H. injection H as <- <-.
    exists (e1 ++ [EvInput collection_prompt None]).
    split; [|left; split; [reflexivity | now rewrite T2, T1, <- app_assoc]].
    apply Forall_app. split.
    - eapply collected_asked; eauto. simpl; auto.
    - eapply eof_asked; eauto.
      + now apply (collected_lookup_ne _ _ _ _ _ _ C1).
      + simpl; auto. }
  rewrite (bind_ok _ _ _ _ _ E2) in H.
  destruct (missing_lookup _ _ (collected_present _ _ _ _ _ C2)) as [sel Hsel].
  destruct (phase_prog_run w Qdrant a None sel st2 Hsel)
    as (r' & st'' & calls & E & T & AP).
  unfold phase_prog in E. simpl collection_key in E.
  rewrite E in H. injection H as <- <-.
  assert (trace st2 = trace st ++ e1 ++ e2) as T'
    by now rewrite T2, T1, <- !app_assoc.
  exists (e1 ++ e2). split.
  { apply Forall_app. split.
    - eapply collected_asked; eauto. simpl; auto.
    - eapply collected_asked; eauto.
      + now apply (collected_lookup_ne _ _ _ _ _ _ C1).
      + simpl; auto. }
  right. exists a, calls. split; [|split].
  - rewrite T, T'. simpl. now rewrite <- !app_assoc.
  - split; [|exact I].
    intros k p [[= <- <-] | [[= <- <-] | []]] _.
    + rewrite (collected_lookup_ne _ _ _ _ _ _ C2) by discriminate.
      apply (collected_entry args args _ _ _ e1 _ C1); [reflexivity|].
      in_prompts.
    + apply (collected_entry args a1 _ _ _ e2 _ C2).
      * now apply (collected_lookup_ne _ _ _ _ _ _ C1).
      * in_prompts.
  - simpl. rewrite app_nil_r, <- T'. exact AP.
Qed.

Lemma export_weaviate_shape w (args : dict) st r st' :
  export_weaviate w args st = (r, st') ->
  exists prompts,
    Forall (asked w Weaviate args) prompts /\
    ((r = Raised EOFError /\ trace st' = trace st ++ prompts)
     \/ exists a calls,
          trace st' = trace st ++ prompts ++ preamble Weaviate a ++ calls
          /\ final_args w Weaviate args prompts a
          /\ adapter_phase w Weaviate a (crossrefs_arg Weaviate a)
               (trace st ++ prompts ++ preamble Weaviate a) r calls).
Proof.
  intros H. unfold export_weaviate in H.
  destruct (set_arg_from_input_step args "url" weaviate_url_prompt st)
    as (r1 & st1 & e1 & E1 & T1 & [(-> & -> & M1) | (a1 & -> & C1)]).
  { rewrite (bind_raised _ _ _ _ _ E1) in H. injection H as <- <-.
    eexists. split; [|left; split; [reflexivity | exact T1]].
    eapply eof_asked; eauto. simpl; auto. }
  rewrite (bind_ok _ _ _ _ _ E1) in H.
  destruct (set_arg_from_input_step a1 "class_name" class_name_prompt st1)
    as (r2 & st2 & e2 & E2 & T2 & [(-> & -> & M2) | (a2 & -> & C2)]).
  { rewrite (bind_raised _ _ _ _ _ E2) in H. injection H as <- <-.
    exists (e1 ++ [EvInput class_name_prompt None]).
    split; [|left; split; [reflexivity | now rewrite T2, T1, <- app_assoc]].
    apply Forall_app. split.
    - eapply collected_asked; eauto. simpl; auto.
    - eapply eof_asked; eauto.
      + now apply (collected_lookup_ne _ _ _ _ _ _ C1).
      + simpl; auto. }
  rewrite (bind_ok _ _ _ _ _ E2) in H.
  assert (a2 !! "include_crossrefs" = args !! "include_crossrefs") as K2.
  { rewrite (collected_lookup_ne _ _ _ _ _ _ C2) by discriminate.
    now apply (collected_lookup_ne _ _ _ _ _ _ C1). }
  destruct (set_arg_from_input_step a2 "include_crossrefs"
              crossrefs_prompt st2)
    as (r3 & st3 & e3 & E3 & T3 & [(-> & -> & M3) | (a3 & -> & C3)]).
  { rewrite (bind_raised _ _ _ _ _ E3) in H. injection H as <- <-.
    exists (e1 ++ e2 ++ [EvInput crossrefs_prompt None]).
    split; [|left; split; [reflexivity
                          | now rewrite T3, T2, T1, <- !app_assoc]].
    apply Forall_app. split; [|apply Forall_app; split].
    - eapply collected_asked; eauto. simpl; auto.
    - eapply collected_asked; eauto.
      + now apply (collected_lookup_ne _ _ _ _ _ _ C1).
      + simpl; auto.
    - eapply eof_asked; eauto. simpl; auto. }
  rewrite (bind_ok _ _ _ _ _ E3) in H.
  destruct (missing_lookup _ _ (collected_present _ _ _ _ _ C3)) as [v3 Hv3].
  rewrite (getitem_some _ _ _ Hv3), bind_ret in H.
  set (x := py_eq v3 (PyStr "Y")) in *.
  set (a := if x then <["include_crossrefs" := PyBool true]> a3
            else <["include_crossrefs" := PyBool false]> a3) in *.
  assert (a = <["include_crossrefs" := PyBool x]> a3) as Ha
    by (subst a; now destruct x).
  assert (a !! "include_crossrefs" = Some (PyBool x)) as Hx
    by (rewrite Ha; apply lookup_insert_eq).
  assert (forall k, k <> "include_crossrefs" -> a !! k = a3 !! k) as Hne
    by (intros k Hk; rewrite Ha; now apply lookup_insert_ne).
  assert (exists sel, a !! "class_name" = Some sel) as [sel Hsel].
  { apply missing_lookup. unfold missing. rewrite Hne by discriminate.
    rewrite (collected_lookup_ne _ _ _ _ _ _ C3) by discriminate.
    apply (collected_present _ _ _ _ _ C2). }
  rewrite (weaviate_phase w a sel (PyBool x) st3 Hsel Hx) in H.
  destruct (phase_prog_run w Weaviate a (Some (PyBool x)) sel st3 Hsel)
    as (r' & st'' & calls & E & T & AP).
  simpl collection_key in E. rewrite E in H. injection H as <- <-.
  assert (trace st3 = trace st ++ e1 ++ e2 ++ e3) as T'
    by now rewrite T3, T2, T1, <- !app_assoc.
  exists (e1 ++ e2 ++ e3). split.
  { apply Forall_app. split; [|apply Forall_app; split].
    - eapply collected_asked; eauto. simpl; auto.
    - eapply collected_asked; eauto.
      + now apply (collected_lookup_ne _ _ _ _ _ _ C1).
      + simpl; auto.
    - eapply collected_asked; eauto. simpl; auto. }
  right. exists a, calls. split; [|split].
  - rewrite T, T'. simpl. now rewrite <- !app_assoc.
  - split.
    + intros k p [[= <- <-] | [[= <- <-] | [[= <- <-] | []]]] Hk;
        [| |now destruct Hk].
      * rewrite Hne by discriminate.
        rewrite (collected_lookup_ne _ _ _ _ _ _ C3) by discriminate.
        rewrite (collected_lookup_ne _ _ _ _ _ _ C2) by discriminate.
        apply (collected_entry args args _ _ _ e1 _ C1); [reflexivity|].
        in_prompts.
      * rewrite Hne by discriminate.
        rewrite (collected_lookup_ne _ _ _ _ _ _ C3) by discriminate.
        apply (collected_entry args a1 _ _ _ e2 _ C2).
        -- now apply (collected_lookup_ne _ _ _ _ _ _ C1).
        -- in_prompts.
    + exists x. split; [exact Hx|].
      assert (forall l, In (EvInput crossrefs_prompt l) (e1 ++ e2) -> False)
        as Hno.
      { intros l Hin. apply in_app_iff in Hin as [Hin | Hin].
        - apply (collected_events _ _ _ _ _ _ C1) in Hin as (? & [=] & _).
        - apply (collected_events _ _ _ _ _ _ C2) in Hin as (? & [=] & _). }
      pose proof (collected_value _ _ _ _ _ C3) as V.
      assert (missing a2 "include_crossrefs"
              = missing args "include_crossrefs") as M
        by (unfold missing; now rewrite K2).
      rewrite M in V. subst x.
      destruct (missing args "include_crossrefs") eqn:Mi.
      * destruct V as (l & -> & Hl). rewrite Hv3 in Hl.
        injection Hl as ->. rewrite py_eq_true. split.
        -- intros [= ->]. right. rewrite !in_app_iff. simpl. auto.
        -- intros [Hy | Hin].
           ++ apply missing_true in Mi as [Mi | Mi]; congruence.
           ++ rewrite app_assoc in Hin.
              apply in_app_iff in Hin as [Hin | [[= ->] | []]];
                [now apply Hno in Hin | reflexivity].
      * destruct V as [-> ->]. rewrite K2 in Hv3. rewrite py_eq_true.
        split.
        -- intros ->. now left.
        -- intros [Hy | Hin]; [congruence|].
           rewrite app_nil_r in Hin. now apply Hno in Hin.
  - simpl. rewrite app_nil_r, <- T', Hx. exact AP.
Qed.

Lemma export_shape w b (args : dict) st r st' :
  export w b args st = (r, st') ->
  exists prompts,
    Forall (asked w b args) prompts /\
    ((r = Raised EOFError /\ trace st' = trace st ++ prompts)
     \/ exists a calls,
          trace st' = trace st ++ prompts ++ preamble b a ++ calls
          /\ final_args w b args prompts a
          /\ adapter_phase w b a (crossrefs_arg b a)
               (trace st ++ prompts ++ preamble b a) r calls).
Proof.
  destruct b; simpl export.
  - apply export_pinecone_shape.
  - apply export_weaviate_shape.
  - apply export_qdrant_shape.
Qed.

(** ** Which collections are exported *)

Lemma asked_not_adapter_call w b args e :
  asked w b args e -> is_adapter_call e = false.
Proof.
  intros [(k & p & l & -> & _) | (l & _ & -> & _)]; reflexivity.
Qed.

Lemma adapter_calls_prompts w b args prompts :
  Forall (asked w b args) prompts -> adapter_calls prompts = [].
Proof.
  induction 1 as [|e evs He _ IH]; [reflexivity|].
  unfold adapter_calls in *. simpl.
  now rewrite (asked_not_adapter_call _ _ _ _ He).
Qed.

Lemma adapter_calls_preamble b a : adapter_calls (preamble b a) = [].
Proof. now destruct b. Qed.

Lemma adapter_calls_get_data b cr (names : list pyval) :
  adapter_calls (map (fun n => EvGetData b n cr) names)
  = map (fun n => EvGetData b n cr) names.
Proof.
  unfold adapter_calls.
  induction names as [|n names IH]; simpl; [reflexivity | now rewrite IH].
Qed.

Lemma adapter_phase_calls w b a cr tr r calls :
  adapter_phase w b a cr tr r calls -> adapter_calls calls = calls.
Proof.
  intros [| |names k r' _ _ _ _]; try reflexivity.
  unfold adapter_calls. simpl. f_equal. f_equal.
  apply adapter_calls_get_data.
Qed.

Lemma adapter_calls_run w b args prompts a tr r calls :
  Forall (asked w b args) prompts ->
  adapter_phase w b a (crossrefs_arg b a) tr r calls ->
  adapter_calls (prompts ++ preamble b a ++ calls) = calls.
Proof.
  intros Hp Hc. unfold adapter_calls. rewrite !List.filter_app.
  fold (adapter_calls prompts) (adapter_calls (preamble b a))
       (adapter_calls calls).
  rewrite (adapter_calls_prompts _ _ _ _ Hp), adapter_calls_preamble.
  simpl. exact (adapter_phase_calls _ _ _ _ _ _ _ Hc).
Qed.

Lemma prefix_map_take {A B} (f : A -> B) (k : nat) (l : list A) :
  map f (take k l) `prefix_of` map f l.
Proof. exists (map f (drop k l)). now rewrite <- map_app, take_drop. Qed.

(** The dict a driver hands to the adapter is the one it returns. *)
Lemma adapter_phase_ok w b a cr tr a' calls :
  adapter_phase w b a cr tr (Ok a') calls -> a' = a.
Proof.
  inversion 1; subst.
  - match goal with H : _ \/ _ |- _ => destruct H as [[= ->] | [=]] end.
    reflexivity.
  - match goal with H : _ \/ _ |- _ => destruct H as [[[= ->] _] | [=]] end.
    reflexivity.
Qed.

Lemma adapter_phase_outcome w b a cr tr r calls :
  adapter_phase w b a cr tr r calls ->
  r = Ok a \/ r = Raised AdapterError.
Proof.
  intros [|sel r' _ _ Hr|names k r' _ _ _ Hr]; [now right | exact Hr |].
  destruct Hr as [[-> _] | ->]; auto.
Qed.

(** *** The line typed at a prompt *)









Lemma collection_in_table b :
  In (collection_key b, collection_prompt_of b) (input_table b)
  /\ collection_key b <> "include_crossrefs".
Proof. destruct b; simpl; split; auto; discriminate. Qed.

Lemma asked_input_key w b args k p l :
  asked w b args (EvInput p l) ->
  In (k, p) (input_table b) ->
  missing args k = true.
Proof.
  intros [(k' & p' & l' & [= <- <-] & Hin' & M) | (l' & _ & [=] & _)] Hin.
  destruct b; simpl in Hin, Hin';
    repeat (destruct Hin as [Hin | Hin]; [|]);
    repeat (destruct Hin' as [Hin' | Hin']; [|]);
    try contradiction.
  all: cbv in Hin, Hin'; inversion Hin; subst; inversion Hin'; subst;
    exact M.
Qed.

Lemma adapter_phase_is_adapter_call w b a cr tr r calls e :
  adapter_phase w b a cr tr r calls -> In e calls -> is_adapter_call e = true.
Proof.
  intros AP He. apply adapter_phase_calls in AP. rewrite <- AP in He.
  unfold adapter_calls in He. now apply List.filter_In in He.
Qed.








(** ** The API key on standard output *)

Lemma asked_is_prompt w b args e : asked w b args e -> is_prompt e = true.
Proof.
  intros [(k & p & l & -> & _) | (l & _ & -> & _)]; reflexivity.
Qed.

Lemma adapter_phase_starts_with_new w b a cr tr r calls :
  adapter_phase w b a cr tr r calls -> exists rest, calls = EvNew b a :: rest.
Proof. intros []; eauto. Qed.

Lemma printed_lines_app evs1 evs2 :
  printed_lines (evs1 ++ evs2) = printed_lines evs1 ++ printed_lines evs2.
Proof. unfold printed_lines. apply omap_app. Qed.

Lemma printed_lines_prompts prompts :
  Forall (fun e => is_prompt e = true) prompts -> printed_lines prompts = [].
Proof.
  induction 1 as [|e evs He _ IH]; [reflexivity|].
  destruct e; try discriminate; exact IH.
Qed.

(** C10.  Whenever [export_pinecone] gets past the collection of its
    arguments (no prompt hit the end of the input), the first thing it
    does after the prompts is to print the whole [args] dict, the same
    dict it then hands to [ExportPinecone], and that dict holds the API
    key in the clear under ["pinecone_api_key"]: the value of
    [PINECONE_API_KEY] when it is set, otherwise the line typed at the
    [getpass] prompt or the value [args] already had.  So the key flows
    to the output: a second run from the same state with the same
    arguments, in a world whose [PINECONE_API_KEY] differs, prints
    something else. *)
Theorem export_pinecone_prints_api_key
    (w : world) (args : dict) (st : state) (r : outcome dict) (st' : state) :
  export_pinecone w args st = (r, st') ->
  r <> Raised EOFError ->
  (exists prompts a v rest,
     trace st' =
       trace st ++ prompts ++ EvPrint (PDict a) :: EvNew Pinecone a :: rest
     /\ Forall (fun e => is_prompt e = true) prompts
     /\ a !! "pinecone_api_key" = Some v
     /\ match getenv w "PINECONE_API_KEY" with
        | Some s => v = PyStr s
        | None =>
            if missing args "pinecone_api_key"
            then exists l, v = PyStr l /\
                   In (EvGetpass api_key_prompt (Some l)) prompts
            else args !! "pinecone_api_key" = Some v
        end)
  /\ (forall (w2 : world) (r2 : outcome dict) (st2 : state) (s1 s2 : string),
        getenv w "PINECONE_API_KEY" = Some s1 ->
        getenv w2 "PINECONE_API_KEY" = Some s2 ->
        s1 <> s2 ->
        export_pinecone w2 args st = (r2, st2) ->
        r2 <> Raised EOFError ->
        printed_lines (trace st') <> printed_lines (trace st2)).
Proof.
  assert (forall w r st',
            export_pinecone w args st = (r, st') ->
            r <> Raised EOFError ->
            exists prompts a v rest,
              trace st' =
                trace st ++ prompts ++
                  EvPrint (PDict a) :: EvNew Pinecone a :: rest
              /\ Forall (fun e => is_prompt e = true) prompts
              /\ a !! "pinecone_api_key" = Some v
              /\ match getenv w "PINECONE_API_KEY" with
                 | Some s => v = PyStr s
                 | None =>
                     if missing args "pinecone_api_key"
                     then exists l, v = PyStr l /\
                            In (EvGetpass api_key_prompt (Some l)) prompts
                     else args !! "pinecone_api_key" = Some v
                 end) as Hshape.
  { clear. intros w r st' H Hr.
    destruct (export_pinecone_shape _ _ _ _ _ H)
      as (prompts & Hp & [[-> _] | (a & calls & T & [_ (v & Hv & Hs)] & AP)]);
      [now destruct Hr|].
    destruct (adapter_phase_starts_with_new _ _ _ _ _ _ _ AP) as [rest ->].
    exists prompts, a, v, rest. split; [exact T|]. split; [|now split].
    eapply Forall_impl; [exact Hp|]. intros e. apply asked_is_prompt. }
  intros H1 R1. split; [now apply (Hshape w r st')|].
  intros w2 r2 st2 s1 s2 G1 G2 Hs H2 R2.
  destruct (Hshape _ _ _ H1 R1) as (p1 & a1 & v1 & rest1 & T1 & P1 & K1 & S1).
  destruct (Hshape _ _ _ H2 R2) as (p2 & a2 & v2 & rest2 & T2 & P2 & K2 & S2).
  rewrite G1 in S1. rewrite G2 in S2. subst v1 v2.
  rewrite T1, T2, !printed_lines_app.
  rewrite (printed_lines_prompts _ P1), (printed_lines_prompts _ P2).
  simpl. intros E. apply app_inv_head in E. injection E as E _.
  rewrite E in K1. congruence.
Qed.

Lemma export_pinecone_prints_api_key_witness :
  exists prompts a v rest,
    [ EvInput environment_prompt (Some "us-west1-gcp");
      EvGetpass api_key_prompt (Some "sk-typed");
      EvPrint (PDict
        {[ "environment" := PyStr "us-west1-gcp"; "index" := PyStr "docs";
           "model_name" := PyStr "text-embedding-ada-002";
           "pinecone_api_key" := PyStr "sk-typed" ]});
      EvNew Pinecone
        {[ "environment" := PyStr "us-west1-gcp"; "index" := PyStr "docs";
           "model_name" := PyStr "text-embedding-ada-002";
           "pinecone_api_key" := PyStr "sk-typed" ]};
      EvGetData Pinecone (PyStr "docs") None ]
    = [] ++ prompts ++ EvPrint (PDict a) :: EvNew Pinecone a :: rest
    /\ Forall (fun e => is_prompt e = true) prompts
    /\ a !! "pinecone_api_key" = Some v
    /\ exists l, v = PyStr l /\
         In (EvGetpass api_key_prompt (Some l)) prompts.
Proof.
  assert (export_pinecone example_world
            {[ "index" := PyStr "docs";
               "model_name" := PyStr "text-embedding-ada-002" ]}
            (State ["export.py"] ["us-west1-gcp"] ["sk-typed"] [])
          = (Ok {[ "environment" := PyStr "us-west1-gcp";
                   "index" := PyStr "docs";
                   "model_name" := PyStr "text-embedding-ada-002";
                   "pinecone_api_key" := PyStr "sk-typed" ]},
             State ["export.py"] [] []
               [ EvInput environment_prompt (Some "us-west1-gcp");
                 EvGetpass api_key_prompt (Some "sk-typed");
                 EvPrint (PDict
                   {[ "environment" := PyStr "us-west1-gcp";
                      "index" := PyStr "docs";
                      "model_name" := PyStr "text-embedding-ada-002";
                      "pinecone_api_key" := PyStr "sk-typed" ]});
                 EvNew Pinecone
                   {[ "environment" := PyStr "us-west1-gcp";
                      "index" := PyStr "docs";
                      "model_name" := PyStr "text-embedding-ada-002";
                      "pinecone_api_key" := PyStr "sk-typed" ]};
                 EvGetData Pinecone (PyStr "docs") None ])) as H
    by (vm_compute; reflexivity).
  assert (Ok {[ "environment" := PyStr "us-west1-gcp";
                "index" := PyStr "docs";
                "model_name" := PyStr "text-embedding-ada-002";
                "pinecone_api_key" := PyStr "sk-typed" ]}
          <> (Raised EOFError : outcome dict)) as Hr by discriminate.
  exact (proj1 (export_pinecone_prints_api_key _ _ _ _ _ H Hr)).
Defined.

(** ** Cross-references *)

Lemma asked_crossrefs_prompt w args l :
  asked w Weaviate args (EvInput crossrefs_prompt l) ->
  missing args "include_crossrefs" = true.
Proof.
  intros [(k & p & l' & [= <- <-] & Hin & M) | (l' & [=] & _)].
  destruct Hin as [[=] | [[=] | [[= <-] | []]]]. exact M.
Qed.

(** The whole run of the docstring's example: [-i Y] on the command line,
    and [get_data] is called with [False]. *)
Lemma main_docstring_weaviate_example :
  main example_world 1
    (State ("export.py" :: docstring_weaviate_argv) [] [] [])
  = (Ok tt,
     State ("export.py" :: docstring_weaviate_argv) [] []
       [ EvNew Weaviate
           (<["include_crossrefs" := PyBool false]> docstring_weaviate_args);
         EvGetData Weaviate (PyStr "my_class") (Some (PyBool false));
         EvPrint (PText "Export completed.") ]).
Proof. vm_compute. reflexivity. Qed.

(** The other way to ask, the prompt, does what C2 says: when
    [include_crossrefs] is missing, every [get_data] call is made with
    [True] exactly when the line typed at the prompt is ["Y"]. *)
Lemma weaviate_prompt_decides_crossrefs
    (w : world) (args : dict) (st : state) (r : outcome dict) (st' : state) :
  missing args "include_crossrefs" = true ->
  export_weaviate w args st = (r, st') ->
  exists evs,
    trace st' = trace st ++ evs
    /\ forall n cr, In (EvGetData Weaviate n cr) evs ->
         exists x, cr = Some (PyBool x) /\
           (x = true <-> In (EvInput crossrefs_prompt (Some "Y")) evs).
Proof.
  intros Hm H.
  destruct (export_weaviate_shape _ _ _ _ _ H)
    as (prompts & Hp & [[-> T] | (a & calls & T & [_ (x & Hx & Hiff)] & AP)]).
  { exists prompts. split; [exact T|]. intros n cr Hin.
    rewrite List.Forall_forall in Hp. apply Hp, asked_is_prompt in Hin.
    discriminate. }
  simpl crossrefs_arg in AP. rewrite Hx in AP. simpl preamble in T.
  exists (prompts ++ calls). split; [exact T|]. intros n cr Hin.
  assert (forall e, In e calls -> is_adapter_call e = true) as Hcalls.
  { intros e He. apply adapter_phase_calls in AP. rewrite <- AP in He.
    unfold adapter_calls in He. now apply List.filter_In in He. }
  assert (cr = Some (PyBool x)) as ->.
  { apply in_app_iff in Hin as [Hin | Hin].
    - rewrite List.Forall_forall in Hp. apply Hp, asked_is_prompt in Hin.
      discriminate.
    - clear -AP Hin. inversion AP; subst; simpl in Hin.
      + destruct Hin as [[=] | []].
      + destruct Hin as [[=] | [[= _ <-] | []]]. reflexivity.
      + destruct Hin as [[=] | [[=] | Hin]].
        apply List.in_map_iff in Hin as (n' & [= _ <-] & _). reflexivity. }
  exists x. split; [reflexivity|]. rewrite Hiff, in_app_iff. split.
  - intros [Hy | Hin']; [|now left].
    apply missing_true in Hm as [Hm | Hm]; congruence.
  - intros [Hin' | Hin']; [now right|].
    apply Hcalls in Hin'. discriminate.
Qed.

(** ** The dispatcher *)

Lemma bind_ok_inv {A B} (m : M A) (k : A -> M B) st b st' :
  bind m k st = (Ok b, st') ->
  exists a st1, m st = (Ok a, st1) /\ k a st1 = (Ok b, st').
Proof.
  unfold bind. destruct (m st) as [[a|e] st1]; [eauto | discriminate].
Qed.

Lemma parse_sys_argv_parsed st args :
  parse_args parser (tail (argv st)) = Parsed args ->
  parse_sys_argv st = (Ok args, st).
Proof. intros H. unfold parse_sys_argv. now rewrite H. Qed.

(** C5.  In each of the three backend branches, when the driver returns
    without raising, [main] returns and the last thing on the trace is
    the line ["Export completed."], printed right after the driver's last
    event.  And however [main] comes to return, the re-prompted branch
    included, that line is the last event of the run. *)
Theorem main_prints_export_completed
    (w : world) (depth : nat) (st : state) :
  (forall (args : dict) (b : backend) (a : dict) (st1 : state),
     parse_args parser (tail (argv st)) = Parsed args ->
     args !! "vector_database" = Some (PyStr (subcommand b)) ->
     export w b args st = (Ok a, st1) ->
     main w (S depth) st
       = (Ok tt, log (EvPrint (PText "Export completed.")) st1))
  /\ (forall st',
        main w depth st = (Ok tt, st') ->
        exists tr,
          trace st' = tr ++ [EvPrint (PText "Export completed.")]).
Proof.
  split.
  - intros args b a st1 Hp Hb He. simpl main.
    rewrite (bind_ok _ _ _ _ _ (parse_sys_argv_parsed _ _ Hp)).
    rewrite (bind_ok _ _ st tt st1); [reflexivity|].
    rewrite !(getitem_some _ _ _ Hb).
    destruct b; simpl in He |- *; repeat (rewrite bind_ret; simpl);
      unfold bind, ret; rewrite He; reflexivity.
  - intros st' H. destruct depth as [|depth]; [discriminate|].
    simpl main in H.
    apply bind_ok_inv in H as (args & st1 & _ & H).
    apply bind_ok_inv in H as (u & st3 & _ & H).
    injection H as <-. exists (trace st3). reflexivity.
Qed.

Lemma main_prints_export_completed_witness :
  main example_world 1
    (State ["export.py"; "qdrant"; "-u"; "http://localhost:6333";
            "-c"; "my_collection"] [] [] [])
  = (Ok tt,
     State ["export.py"; "qdrant"; "-u"; "http://localhost:6333";
            "-c"; "my_collection"] [] []
       [ EvNew Qdrant
           {[ "model_name" := PyStr "text-embedding-ada-002";
              "vector_database" := PyStr "qdrant";
              "url" := PyStr "http://localhost:6333";
              "collection" := PyStr "my_collection" ]};
         EvGetData Qdrant (PyStr "my_collection") None;
         EvPrint (PText "Export completed.") ]).
Proof.
  apply (proj1 (main_prints_export_completed example_world 0
                  (State ["export.py"; "qdrant"; "-u";
                          "http://localhost:6333"; "-c"; "my_collection"]
                     [] [] []))
           {[ "model_name" := PyStr "text-embedding-ada-002";
              "vector_database" := PyStr "qdrant";
              "url" := PyStr "http://localhost:6333";
              "collection" := PyStr "my_collection" ]}
           Qdrant
           {[ "model_name" := PyStr "text-embedding-ada-002";
              "vector_database" := PyStr "qdrant";
              "url" := PyStr "http://localhost:6333";
              "collection" := PyStr "my_collection" ]}
           (State ["export.py"; "qdrant"; "-u"; "http://localhost:6333";
                   "-c"; "my_collection"] [] []
              [ EvNew Qdrant
                  {[ "model_name" := PyStr "text-embedding-ada-002";
                     "vector_database" := PyStr "qdrant";
                     "url" := PyStr "http://localhost:6333";
                     "collection" := PyStr "my_collection" ]};
                EvGetData Qdrant (PyStr "my_collection") None ]));
    vm_compute; reflexivity.
Defined.

(** ** The retry of [main] *)

Lemma blocked_tail vd t toks :
  blocked vd (t :: toks) -> ~ blocking t -> blocked vd toks.
Proof. inversion 1; subst; [contradiction | auto]. Qed.

Lemma blocked_in vd toks :
  blocked vd toks -> In vd (map token_string toks).
Proof.
  induction 1 as [t post _ Hin | t toks _ IH]; [exact Hin | now right].
Qed.

Lemma map_token_string_TokA (l : list string) :
  map token_string (map TokA l) = l.
Proof. induction l as [|s l IH]; simpl; [reflexivity | now rewrite IH]. Qed.

Lemma classify_blocked osa vd (arg_strings : list string) toks :
  parse_optional osa vd = inr (Some (None, vd, None)) ->
  In vd arg_strings ->
  classify osa arg_strings = inr toks ->
  blocked vd toks.
Proof.
  intros Hvd. revert toks.
  induction arg_strings as [|s rest IH]; intros toks Hin H; [destruct Hin|].
  simpl in H. destruct (String.eqb s "--") eqn:Edd.
  - injection H as <-. apply blocked_here; [exact I|].
    simpl. rewrite map_token_string_TokA.
    apply String.eqb_eq in Edd. subst s. exact Hin.
  - destruct (parse_optional osa s) as [e|cls] eqn:Ep; [discriminate|].
    destruct (classify osa rest) as [e|toks'] eqn:Ec; [discriminate|].
    injection H as <-.
    destruct (String.eqb_spec s vd) as [-> | Hne].
    + rewrite Hvd in Ep. injection Ep as <-.
      apply blocked_here; [exact I | now left].
    + apply blocked_later, IH; [|reflexivity].
      destruct Hin as [-> | Hin]; [contradiction | exact Hin].
Qed.

Lemma scan_blocked vd osa positional :
  (forall call, positional = Some call ->
     forall (ns : dict) values, In vd values ->
     forall ns', call ns values <> Parsed (ns', [])) ->
  forall n toks, (length toks <= n)%nat ->
  forall (ns : dict) extras,
    extras <> [] \/ blocked vd toks ->
    forall ns', scan osa positional toks ns extras <> Parsed (ns', []).
Proof.
  intros Hcall. induction n as [|n IH]; intros toks Hn ns extras Hb ns'.
  { destruct toks; [|simpl in Hn; lia]. simpl.
    destruct Hb as [Hb | Hb]; [congruence | inversion Hb]. }
  assert (forall call ns0, positional = Some call ->
            match call ns0 (map token_string toks) with
            | Parsed (ns1, extras') => Parsed (ns1, extras ++ extras')
            | other => other
            end <> Parsed (ns', [])) as Hpos.
  { intros call ns0 ->.
    destruct (call ns0 (map token_string toks)) as [[ns1 ex1]| |] eqn:Ec;
      try discriminate.
    intros [= -> Eapp]. apply app_eq_nil in Eapp as [-> ->].
    destruct Hb as [Hb | Hb]; [congruence|].
    apply (Hcall call eq_refl ns0 _ (blocked_in _ _ Hb) ns'). exact Ec. }
  destruct toks as [|t rest]; simpl scan.
  { destruct Hb as [Hb | Hb]; [congruence | inversion Hb]. }
  simpl in Hn.
  assert (forall s ns0, scan osa positional rest ns0 (extras ++ [s])
                        <> Parsed (ns', [])) as Hextra.
  { intros s ns0. apply IH; [lia|]. left. now destruct extras. }
  destruct t as [s | s [[[a|] option_string] explicit_arg] | ].
  - (* an argument *)
    destruct positional as [call|]; [|apply Hextra].
    exact (Hpos call ns eq_refl).
  - (* a known option *)
    assert (blocked vd rest \/ extras <> []) as Hr.
    { destruct Hb as [Hb | Hb]; [now right|]. left.
      apply (blocked_tail _ _ _ Hb). simpl. auto. }
    destruct (consume_option_string osa a option_string explicit_arg)
      as [e | dest type v [|] | a' ah]; try discriminate.
    + apply IH; [lia | tauto].
    + destruct (act a') as [|dest type]; [discriminate|].
      destruct rest as [|[v| |] rest']; try discriminate.
      destruct ah; [discriminate|].
      apply IH; [simpl in Hn; lia|].
      destruct Hr as [Hr | Hr]; [|now left]. right.
      apply (blocked_tail _ _ _ Hr). simpl. auto.
  - (* an unknown option *)
    apply Hextra.
  - (* the separator *)
    destruct positional as [call|]; [|apply Hextra].
    destruct rest as [|t' rest']; [apply Hextra|].
    exact (Hpos call ns eq_refl).
Qed.

Lemma parse_known_args_sub_blocked (p : option_parser) arg_strings ns :
  parse_optional (option_string_actions p) vector_database_flag
    = inr (Some (None, vector_database_flag, None)) ->
  In vector_database_flag arg_strings ->
  parse_known_args_sub p arg_strings <> Parsed (ns, []).
Proof.
  intros Hvd Hin. unfold parse_known_args_sub.
  destruct (classify (option_string_actions p) arg_strings)
    as [e|toks] eqn:Ec; [discriminate|].
  apply (scan_blocked vector_database_flag _ None) with (n := length toks);
    [discriminate | lia |].
  right. exact (classify_blocked _ _ _ _ Hvd Hin Ec).
Qed.

Lemma subparsers_call_blocked (ns : dict) values ns' :
  In vector_database_flag values ->
  subparsers_call parser ns values <> Parsed (ns', []).
Proof.
  intros Hin. unfold subparsers_call.
  destruct values as [|parser_name arg_strings]; [destruct Hin|].
  destruct (assoc parser_name (name_parser_map parser)) as [sub|] eqn:Ea;
    [|discriminate].
  assert (parse_optional (option_string_actions sub) vector_database_flag
            = inr (Some (None, vector_database_flag, None))
          /\ parser_name <> vector_database_flag) as [Hsub Hne].
  { simpl in Ea.
    repeat match type of Ea with
           | (if String.eqb ?x ?y then _ else _) = _ =>
               destruct (String.eqb_spec x y) as [-> | _]
           end;
      try discriminate; injection Ea as <-;
      (split; [vm_compute; reflexivity | discriminate]). }
  destruct Hin as [Hin | Hin]; [contradiction|].
  pose proof (parse_known_args_sub_blocked sub arg_strings) as Hb.
  destruct (parse_known_args_sub sub arg_strings) as [[sn ex]| |];
    try discriminate.
  intros [= _ ->]. now apply (Hb sn).
Qed.

(** However the command line continues before it, a command line that
    holds the string [--vector_database] is never accepted: no parser
    built in [main] declares such an option. *)
Lemma parse_args_rejects_vector_database_flag (arg_strings : list string) :
  In vector_database_flag arg_strings ->
  forall ns, parse_args parser arg_strings <> Parsed ns.
Proof.
  intros Hin ns. unfold parse_args, parse_known_args.
  set (osa := option_string_actions (optionals parser)).
  set (ns0 := <[subparsers_dest parser := PyNone]> _).
  destruct (classify osa arg_strings) as [e|toks] eqn:Ec; [discriminate|].
  assert (parse_optional osa vector_database_flag
          = inr (Some (None, vector_database_flag, None))) as Hvd
    by (vm_compute; reflexivity).
  pose proof (classify_blocked _ _ _ _ Hvd Hin Ec) as Hb.
  assert (forall call, Some (subparsers_call parser) = Some call ->
          forall (ns : dict) values, In vector_database_flag values ->
          forall ns', call ns values <> Parsed (ns', [])) as Hcall.
  { intros call [= <-] ns1 values Hv ns'.
    now apply subparsers_call_blocked. }
  pose proof (scan_blocked vector_database_flag osa _ Hcall (length toks)
                toks (Nat.le_refl _) ns0 [] (or_intror Hb)) as Hs.
  destruct (scan osa (Some (subparsers_call parser)) toks ns0 [])
    as [[ns1 [|x ex]]| |]; try discriminate.
  now destruct (Hs ns1).
Qed.

(** The branch taken when the command line names no backend. *)
Lemma main_no_backend w depth st (args : dict) :
  parse_sys_argv st = (Ok args, st) ->
  args !! "vector_database" = Some PyNone ->
  main w (S depth) st
  = bind (print (PText "Invalid vector database") ;;
          let* line :=
            input "Enter the name of vector database to export: " in
          sys_argv_extend ["--vector_database"; line] ;;
          main w depth)
      (fun _ => print (PText "Export completed.")) st.
Proof.
  intros P Hvd. simpl main.
  rewrite (bind_ok _ _ _ _ _ P). apply bind_ext_l.
  now rewrite !(getitem_some _ _ _ Hvd), bind_ret.
Qed.

(** C3, where the code departs from it.  When the command line names no
    backend, [main] prints ["Invalid vector database"], prompts, appends
    [--vector_database NAME] to [sys.argv] and calls itself; the second
    [parse_args] rejects the appended option, whatever name was typed.
    The run ends in an exception, [SystemExit] when a line could be read
    and a frame was left, without any call into an adapter and without
    ["Export completed."]. *)
Theorem main_retry_never_exports
    (w : world) (depth : nat) (st : state) (prog : string)
    (rest : list string) (args : dict) :
  argv st = prog :: rest ->
  parse_args parser rest = Parsed args ->
  args !! "vector_database" = Some PyNone ->
  exists e st' evs,
    main w depth st = (Raised e, st')
    /\ trace st' = trace st ++ evs
    /\ adapter_calls evs = []
    /\ ~ In (EvPrint (PText "Export completed.")) evs
    /\ (forall d line lines,
          depth = S (S d) -> stdin st = line :: lines ->
          exists code last,
            e = SystemExit code
            /\ evs = [ EvPrint (PText "Invalid vector database");
                       EvInput "Enter the name of vector database to export: "
                         (Some line);
                       last ]
            /\ ((code = 2%Z /\ exists err, last = EvError err)
                \/ (code = 0%Z /\ last = EvHelp))).
Proof.
  intros Hargv Hp Hvd.
  destruct depth as [|depth].
  { exists RecursionError, st, []. simpl. rewrite app_nil_r.
    repeat split; auto; discriminate. }
  assert (parse_sys_argv st = (Ok args, st)) as P
    by (apply parse_sys_argv_parsed; now rewrite Hargv).
  rewrite (main_no_backend _ _ _ _ P Hvd).
  set (st1 := log (EvPrint (PText "Invalid vector database")) st).
  assert (print (PText "Invalid vector database") st = (Ok tt, st1)) as E1
    by reflexivity.
  destruct (stdin st) as [|line lines] eqn:Hin.
  { assert (input "Enter the name of vector database to export: " st1
            = (Raised EOFError,
               log (EvInput "Enter the name of vector database to export: "
                      None) st1)) as E2
      by (unfold input; simpl; now rewrite Hin).
    rewrite (bind_raised _ _ _ EOFError
               (log (EvInput "Enter the name of vector database to export: "
                       None) st1)).
    2:{ now rewrite (bind_ok _ _ _ _ _ E1), (bind_raised _ _ _ _ _ E2). }
    do 3 eexists. split; [reflexivity|]. simpl.
    rewrite <- app_assoc. split; [reflexivity|]. split; [reflexivity|].
    split; [|discriminate]. intros [[=] | [[=] | []]]. }
  set (st2 := log (EvInput "Enter the name of vector database to export: "
                     (Some line))
                (State (argv st1) lines (tty st1) (trace st1))).
  assert (input "Enter the name of vector database to export: " st1
          = (Ok line, st2)) as E2
    by (unfold input; simpl; now rewrite Hin).
  set (st3 := State (argv st2 ++ ["--vector_database"; line]) (stdin st2)
                (tty st2) (trace st2)).
  assert (sys_argv_extend ["--vector_database"; line] st2 = (Ok tt, st3))
    as E3 by reflexivity.
  assert (trace st3 = trace st ++
            [ EvPrint (PText "Invalid vector database");
              EvInput "Enter the name of vector database to export: "
                (Some line) ]) as T3
    by (simpl; now rewrite <- app_assoc).
  assert (forall e st', main w depth st3 = (Raised e, st') ->
          bind (print (PText "Invalid vector database") ;;
                let* line :=
                  input "Enter the name of vector database to export: " in
                sys_argv_extend ["--vector_database"; line] ;;
                main w depth)
            (fun _ => print (PText "Export completed.")) st
          = (Raised e, st')) as Hrun.
  { intros e st' Hm. apply bind_raised.
    now rewrite (bind_ok _ _ _ _ _ E1), (bind_ok _ _ _ _ _ E2),
      (bind_ok _ _ _ _ _ E3). }
  destruct depth as [|depth].
  { exists RecursionError, st3. eexists. split; [now apply Hrun|].
    split; [exact T3|]. split; [reflexivity|].
    split; [|discriminate]. intros [[=] | [[=] | []]]. }
  assert (tail (argv st3) = rest ++ ["--vector_database"; line]) as Ha
    by (simpl; now rewrite Hargv).
  pose proof (parse_args_rejects_vector_database_flag
                (rest ++ ["--vector_database"; line])) as Hrej.
  assert (forall e st', parse_sys_argv st3 = (Raised e, st') ->
          main w (S depth) st3 = (Raised e, st')) as Hm
    by (intros e st' Hps; simpl main; now apply bind_raised).
  unfold parse_sys_argv in Hm. rewrite Ha in Hm.
  destruct (parse_args parser (rest ++ ["--vector_database"; line]))
    as [ns | err | ].
  - exfalso. apply (Hrej (ltac:(rewrite in_app_iff; right; now left)) ns).
    reflexivity.
  - exists (SystemExit 2), (log (EvError err) st3), 
      [ EvPrint (PText "Invalid vector database");
        EvInput "Enter the name of vector database to export: " (Some line);
        EvError err ].
    split; [apply Hrun, Hm; reflexivity|].
    split; [simpl trace in *; rewrite T3, <- app_assoc; reflexivity|].
    split; [reflexivity|].
    split; [intros [[=] | [[=] | [[=] | []]]]|].
    intros d line' lines' _ [= <- _]. exists 2%Z, (EvError err).
    split; [reflexivity|]. split; [reflexivity|]. left. eauto.
  - exists (SystemExit 0), (log EvHelp st3), 
      [ EvPrint (PText "Invalid vector database");
        EvInput "Enter the name of vector database to export: " (Some line);
        EvHelp ].
    split; [apply Hrun, Hm; reflexivity|].
    split; [simpl trace in *; rewrite T3, <- app_assoc; reflexivity|].
    split; [reflexivity|].
    split; [intros [[=] | [[=] | [[=] | []]]]|].
    intros d line' lines' _ [= <- _]. exists 0%Z, EvHelp.
    split; [reflexivity|]. split; [reflexivity|]. right. eauto.
Qed.

Lemma main_retry_never_exports_witness :
  exists e st' evs,
    main example_world 1000 (State ["export.py"] ["pinecone"] ["sk"] [])
      = (Raised e, st')
    /\ trace st' = [] ++ evs
    /\ adapter_calls evs = []
    /\ ~ In (EvPrint (PText "Export completed.")) evs
    /\ (forall d line lines,
          1000%nat = S (S d) -> ["pinecone"] = line :: lines ->
          exists code last,
            e = SystemExit code
            /\ evs = [ EvPrint (PText "Invalid vector database");
                       EvInput "Enter the name of vector database to export: "
                         (Some line);
                       last ]
            /\ ((code = 2%Z /\ exists err, last = EvError err)
                \/ (code = 0%Z /\ last = EvHelp))).
Proof.
  apply (main_retry_never_exports example_world 1000
           (State ["export.py"] ["pinecone"] ["sk"] []) "export.py" []
           {[ "model_name" := PyStr "text-embedding-ada-002";
              "vector_database" := PyNone ]}).
  - reflexivity.
  - vm_compute. reflexivity.
  - vm_compute. reflexivity.
Defined.

(** The same run, evaluated: the name typed at the prompt is a valid one,
    and the program exits with status 2 on
    [unrecognized arguments: --vector_database]. *)
Lemma main_retry_example :
  main example_world 1000 (State ["export.py"] ["pinecone"] ["sk"] [])
  = (Raised (SystemExit 2),
     State ["export.py"; "--vector_database"; "pinecone"] [] ["sk"]
       [ EvPrint (PText "Invalid vector database");
         EvInput "Enter the name of vector database to export: "
           (Some "pinecone");
         EvError (UnrecognizedArguments ["--vector_database"]) ]).
Proof. vm_compute. reflexivity. Qed.

(** A backend name that is not one of the three never reaches the
    re-prompt: [parse_args] rejects it as an invalid choice. *)
Lemma main_invalid_name_example :
  main example_world 1000 (State ["export.py"; "milvus"] ["pinecone"] [] [])
  = (Raised (SystemExit 2),
     State ["export.py"; "milvus"] ["pinecone"] []
       [ EvError (InvalidChoice "milvus") ]).
Proof. vm_compute. reflexivity. Qed.

(** ** What the parser puts in the namespace *)

Lemma consume_explicit_after_help osa a option_string explicit_arg :
  match consume_explicit osa a option_string explicit_arg true with
  | XStore _ _ _ ah | XNext _ ah => ah = true
  | XError _ => True
  end.
Proof.
  revert a option_string.
  induction explicit_arg as [|c e IH]; intros a option_string; simpl.
  - destruct (act a); [|reflexivity]. now destruct (second_is_dash _).
  - destruct (act a); [|reflexivity].
    destruct (second_is_dash _); [exact I|].
    destruct (assoc _ osa) as [a'|]; [|exact I].
    destruct e as [|c' e']; [reflexivity | apply IH].
Qed.

(** An option string stores a value only for the action it names. *)
Lemma consume_option_string_store osa a option_string explicit_arg
    dest type v :
  consume_option_string osa a option_string explicit_arg
    = XStore dest type v false ->
  act a = Store dest type.
Proof.
  unfold consume_option_string. destruct explicit_arg as [e|]; [|discriminate].
  destruct e as [|c e]; simpl.
  - destruct (act a); [|now intros [= -> ->]].
    now destruct (second_is_dash _).
  - destruct (act a); [|now intros [= -> ->]].
    destruct (second_is_dash _); [discriminate|].
    destruct (assoc _ osa) as [a'|]; [|discriminate].
    destruct e as [|c' e']; [discriminate|].
    pose proof (consume_explicit_after_help osa a'
                  (String "-"%char (String c EmptyString)) (String c' e')) as H.
    intros E. rewrite E in H. discriminate.
Qed.

Lemma consume_option_string_next osa a option_string explicit_arg a' :
  consume_option_string osa a option_string explicit_arg = XNext a' false ->
  a' = a.
Proof.
  unfold consume_option_string. destruct explicit_arg as [e|];
    [|now intros [= ->]].
  destruct e as [|c e]; simpl.
  - destruct (act a); [|discriminate]. now destruct (second_is_dash _).
  - destruct (act a); [|discriminate].
    destruct (second_is_dash _); [discriminate|].
    destruct (assoc _ osa) as [a''|]; [|discriminate].
    destruct e as [|c' e']; [discriminate|].
    pose proof (consume_explicit_after_help osa a''
                  (String "-"%char (String c EmptyString)) (String c' e')) as H.
    intros E. rewrite E in H. discriminate.
Qed.

(** An invariant of the namespace along the scan.  With a sub-command
    action, either the scan ended without calling it, or it was called on
    a suffix of the argument strings with a namespace that satisfies the
    invariant. *)
Lemma scan_inv (P : dict -> Prop) osa positional :
  forall n toks, (length toks <= n)%nat ->
  Forall (tok_preserves P) toks ->
  forall (ns : dict) extras ns' extras',
    P ns ->
    scan osa positional toks ns extras = Parsed (ns', extras') ->
    match positional with
    | None => P ns'
    | Some call =>
        P ns' \/
        exists ns1 values ex,
          P ns1 /\ values `suffix_of` map token_string toks /\ values <> []
          /\ call ns1 values = Parsed (ns', ex)
          /\ ex `suffix_of` extras'
    end.
Proof.
  induction n as [|n IH]; intros toks Hn Hall ns extras ns' extras' HP H.
  { destruct toks; [|simpl in Hn; lia]. simpl in H. injection H as <- _.
    destruct positional; auto. }
  assert (forall call, positional = Some call ->
          toks <> [] ->
          match call ns (map token_string toks) with
          | Parsed (ns1, extras1) => Parsed (ns1, extras ++ extras1)
          | other => other
          end = Parsed (ns', extras') ->
          exists ns1 values ex,
            P ns1 /\ values `suffix_of` map token_string toks /\ values <> []
            /\ call ns1 values = Parsed (ns', ex)
            /\ ex `suffix_of` extras') as Hpos.
  { intros call _ Hne Hc.
    destruct (call ns (map token_string toks)) as [[ns1 ex1]| |] eqn:Ec;
      try discriminate.
    injection Hc as <- <-. exists ns, (map token_string toks), ex1.
    split; [exact HP|]. split; [reflexivity|].
    split; [|split; [exact Ec | now exists extras]].
    destruct toks; [contradiction | discriminate]. }
  assert (forall rest ns0 extras0,
            (length rest <= n)%nat -> Forall (tok_preserves P) rest ->
            rest `suffix_of` toks -> P ns0 ->
            scan osa positional rest ns0 extras0 = Parsed (ns', extras') ->
            match positional with
            | None => P ns'
            | Some call =>
                P ns' \/
                exists ns1 values ex,
                  P ns1 /\ values `suffix_of` map token_string toks
                  /\ values <> [] /\ call ns1 values = Parsed (ns', ex)
                  /\ ex `suffix_of` extras'
            end) as Hrec.
  { intros rest ns0 extras0 Hl Hf [pre ->] HP0 Hs.
    specialize (IH rest Hl Hf ns0 extras0 ns' extras' HP0 Hs).
    destruct positional as [call|]; [|exact IH].
    destruct IH
      as [IH | (ns1 & values & ex & H1 & [pre' H2] & H3 & H4 & H5)];
      [now left|].
    right. exists ns1, values, ex. split; [exact H1|].
    split; [|now repeat split]. exists (map token_string pre ++ pre').
    now rewrite map_app, H2, app_assoc. }
  destruct toks as [|t rest]; simpl scan in H.
  { injection H as <- _. destruct positional; auto. }
  simpl in Hn. apply Forall_cons in Hall as [Ht Hall].
  assert (rest `suffix_of` t :: rest) as Hsuf by now exists [t].
  destruct t as [s | s [[[a|] option_string] explicit_arg] | ].
  - destruct positional as [call|].
    + right. now apply (Hpos call eq_refl).
    + apply (Hrec rest ns (extras ++ [s])); auto; lia.
  - destruct (consume_option_string osa a option_string explicit_arg)
      as [e | dest type v [|] | a' [|]] eqn:Ecs; try discriminate.
    + apply consume_option_string_store in Ecs.
      simpl in Ht. rewrite Ecs in Ht.
      refine (Hrec rest _ extras _ Hall Hsuf _ H); [lia | auto].
    + destruct (act a'); [discriminate|].
      now destruct rest as [|[| |] rest'].
    + apply consume_option_string_next in Ecs. subst a'.
      simpl in Ht. destruct (act a) as [|dest type]; [discriminate|].
      destruct rest as [|[v| |] rest']; try discriminate.
      apply Forall_cons in Hall as [_ Hall].
      refine (Hrec rest' _ extras _ Hall _ _ H);
        [simpl in Hn; lia | | auto].
      now exists [TokO s (Some a, option_string, explicit_arg); TokA v].
  - apply (Hrec rest ns (extras ++ [s])); auto; lia.
  - destruct positional as [call|].
    + destruct rest as [|t' rest'].
      * apply (Hrec [] ns (extras ++ ["--"])); auto; simpl; lia.
      * right. now apply (Hpos call eq_refl).
    + apply (Hrec rest ns (extras ++ ["--"])); auto; lia.
Qed.

(** *** Which option an argument string resolves to *)

Lemma prefix_cons_iff a p b s :
  String.prefix (String a p) (String b s) = true
  <-> a = b /\ String.prefix p s = true.
Proof.
  simpl. destruct (ascii_dec a b) as [-> | Hne]; [tauto|].
  split; [discriminate | now intros [? _]].
Qed.

Lemma prefix_refl s : String.prefix s s = true.
Proof.
  induction s as [|c s IH]; [reflexivity|]. now apply prefix_cons_iff.
Qed.

Lemma prefix_trans p q s :
  String.prefix p q = true -> String.prefix q s = true ->
  String.prefix p s = true.
Proof.
  revert q s. induction p as [|a p IH]; intros q s Hpq Hqs;
    [now destruct s|].
  destruct q as [|b q]; [discriminate|].
  destruct s as [|c s]; [discriminate|].
  apply prefix_cons_iff in Hpq as [-> Hpq].
  apply prefix_cons_iff in Hqs as [-> Hqs].
  apply prefix_cons_iff. split; [reflexivity | now apply (IH q)].
Qed.

Lemma split_eq_prefix s l r :
  split_eq s = Some (l, r) -> String.prefix l s = true.
Proof.
  revert l r. induction s as [|c s IH]; intros l r H; [discriminate|].
  simpl in H. destruct (Ascii.eqb c "="%char); [now injection H as <- _|].
  destruct (split_eq s) as [[l' r']|]; [|discriminate].
  injection H as <- _. apply prefix_cons_iff. split; [reflexivity|].
  now apply (IH l' r').
Qed.

Lemma assoc_in {A} k (l : list (string * A)) v :
  assoc k l = Some v -> In (k, v) l.
Proof.
  induction l as [|[k' v'] l IH]; [discriminate|]. simpl.
  destruct (String.eqb_spec k k') as [-> | _].
  - intros [= ->]. now left.
  - intros H. right. now apply IH.
Qed.

Lemma omap_singleton_unique {A B} (f : A -> option B) (l : list A) y x z :
  omap f l = [y] -> In x l -> f x = Some z -> z = y.
Proof.
  intros H Hin Hf.
  assert (z ∈ omap f l) as Hz.
  { apply list_elem_of_omap. exists x. split; [|exact Hf].
    now apply list_elem_of_In. }
  rewrite H in Hz. now apply list_elem_of_singleton in Hz.
Qed.

Lemma starts_with_dash_inv s :
  starts_with_dash s = true -> exists s', s = String "-"%char s'.
Proof.
  destruct s as [|c s']; [discriminate|].
  destruct c as [[] [] [] [] [] [] [] []]; try discriminate. eauto.
Qed.

Lemma second_is_dash_inv s :
  second_is_dash s = true -> exists c s', s = String c (String "-"%char s').
Proof.
  destruct s as [|c [|c' s']]; try discriminate.
  destruct c' as [[] [] [] [] [] [] [] []]; try discriminate. eauto.
Qed.

Lemma long_tuples_known
    (osa : list (string * argument)) (p : string) (e : option string)
    s a os ex :
  String.prefix "--" p = true ->
  String.prefix p s = true ->
  omap (fun '(o, a) =>
          if String.prefix p o then Some (Some a, o, e) else None) osa
    = [(Some a, os, ex)] ->
  In (os, a) osa /\ resolves osa s os.
Proof.
  intros Hdd Hps Eg.
  assert ((Some a, os, ex) ∈
            omap (fun '(o, a) =>
                    if String.prefix p o then Some (Some a, o, e) else None)
              osa) as Hin by (rewrite Eg; now left).
  apply list_elem_of_omap in Hin as ([o0 a1] & Hin & Hf).
  destruct (String.prefix p o0) eqn:Hp; [|discriminate].
  injection Hf as <- <- <-. apply list_elem_of_In in Hin.
  split; [exact Hin|]. right. right. left. exists p.
  repeat split; auto.
  intros os' a' Hin' Hp'.
  assert ((Some a', os', e) = (Some a1, o0, e)) as [= _ ->]; [|reflexivity].
  apply (omap_singleton_unique _ _ _ (os', a') _ Eg Hin').
  now rewrite Hp'.
Qed.

Lemma short_tuples_known (osa : list (string * argument)) s a os ex :
  second_is_dash s = false ->
  (2 <= String.length s)%nat ->
  omap (fun '(o, a) =>
          if String.eqb o (String.substring 0 2 s)
          then Some (Some a, o,
                 Some (String.substring 2 (String.length s - 2) s))
          else if String.prefix s o
          then Some (Some a, o, None) else None) osa
    = [(Some a, os, ex)] ->
  In (os, a) osa /\ resolves osa s os.
Proof.
  intros H2 Hlen Eg.
  match type of Eg with omap ?f _ = _ =>
    assert ((Some a, os, ex) ∈ omap f osa) as Hin by (rewrite Eg; now left)
  end.
  apply list_elem_of_omap in Hin as ([o0 a1] & Hin & Hf).
  apply list_elem_of_In in Hin.
  destruct (String.eqb_spec o0 (String.substring 0 2 s)) as [He | _].
  - injection Hf as <- <- _. split; [exact Hin|].
    right. right. right. now left.
  - destruct (String.prefix s o0) eqn:Hp; [|discriminate].
    injection Hf as <- <- _. split; [exact Hin|].
    right. right. right. right. auto.
Qed.

Lemma get_option_tuples_known osa s a os ex :
  starts_with_dash s = true ->
  (2 <= String.length s)%nat ->
  get_option_tuples osa s = [(Some a, os, ex)] ->
  In (os, a) osa /\ resolves osa s os.
Proof.
  intros Hd Hlen. unfold get_option_tuples.
  destruct (second_is_dash s) eqn:H2;
    [|now apply short_tuples_known].
  destruct (starts_with_dash_inv _ Hd) as [s1 ->].
  destruct (second_is_dash_inv _ H2) as (c & s2 & [= <- ->]).
  destruct (split_eq (String "-" (String "-" s2))) as [[l r]|] eqn:Es.
  - apply long_tuples_known; [|now apply (split_eq_prefix _ _ r)].
    simpl in Es. destruct (split_eq s2) as [[l' r']|]; [|discriminate].
    injection Es as <- _. now destruct l'.
  - apply long_tuples_known; [now destruct s2 | apply prefix_refl].
Qed.

Lemma parse_optional_known osa s a os ex :
  parse_optional osa s = inr (Some (Some a, os, ex)) ->
  In (os, a) osa /\ resolves osa s os.
Proof.
  unfold parse_optional.
  destruct (starts_with_dash s) eqn:Hd; [|discriminate]. simpl negb. cbv iota.
  destruct (assoc s osa) as [a0|] eqn:Ea.
  { intros [= -> <- _]. split; [now apply assoc_in | now left]. }
  destruct (String.length s =? 1)%nat eqn:Hlen; [discriminate|].
  apply Nat.eqb_neq in Hlen.
  assert (2 <= String.length s)%nat as Hlen2.
  { destruct (starts_with_dash_inv _ Hd) as [s1 ->]. simpl in *. lia. }
  destruct (match split_eq s with
            | Some (o, e) =>
                match assoc o osa with
                | Some a0 => Some (Some a0, o, Some e)
                | None => None
                end
            | None => None
            end) as [t|] eqn:Et.
  { intros [= ->]. destruct (split_eq s) as [[o e]|] eqn:Es; [|discriminate].
    destruct (assoc o osa) as [a0|] eqn:Eo; [|discriminate].
    injection Et as -> -> _. split; [now apply assoc_in|].
    right. left. now apply (split_eq_prefix _ _ e). }
  destruct (get_option_tuples osa s) as [|t [|t' ts]] eqn:Eg.
  - destruct (negative_number s); [discriminate|].
    now destruct (contains_space s).
  - intros [= ->]. now apply (get_option_tuples_known _ _ _ _ ex).
  - discriminate.
Qed.

(** *** What [classify] produces *)

Lemma classify_tokens osa (arg_strings : list string) toks :
  classify osa arg_strings = inr toks ->
  map token_string toks = arg_strings /\ Forall (tok_ok osa) toks.
Proof.
  revert toks. induction arg_strings as [|s rest IH]; intros toks H.
  { injection H as <-. split; [reflexivity | constructor]. }
  simpl in H. destruct (String.eqb_spec s "--") as [-> | Hne].
  - injection H as <-. simpl. rewrite map_token_string_TokA.
    split; [reflexivity|]. constructor; [exact I|].
    apply Forall_map, Forall_true. now intros x.
  - destruct (parse_optional osa s) as [e|cls] eqn:Ep; [discriminate|].
    destruct (classify osa rest) as [e|toks'] eqn:Ec; [discriminate|].
    injection H as <-. destruct (IH toks' eq_refl) as [Hs Hok].
    split.
    + simpl. rewrite Hs. now destruct cls.
    + constructor; [|exact Hok]. destruct cls as [[[[a|] os] ex]|]; simpl; auto.
Qed.

Lemma tok_ok_preserves P p toks :
  parser_preserves P p ->
  Forall (tok_ok (option_string_actions p)) toks ->
  Forall (tok_preserves P) toks.
Proof.
  intros Hp Hok. eapply Forall_impl; [exact Hok|]. intros t Ht.
  destruct t as [s | s [[[a|] os] ex] | ]; simpl; auto.
  simpl in Ht. apply parse_optional_known in Ht as [Hin _].
  destruct (act a) as [|dest type] eqn:Ea; [exact I|].
  now apply (Hp os a).
Qed.

Lemma parse_known_args_sub_inv (P : dict -> Prop) p arg_strings ns extras :
  parser_preserves P p ->
  P (defaults p ∅) ->
  parse_known_args_sub p arg_strings = Parsed (ns, extras) ->
  P ns.
Proof.
  intros Hp H0. unfold parse_known_args_sub.
  destruct (classify (option_string_actions p) arg_strings)
    as [e|toks] eqn:Ec; [discriminate|].
  intros H. apply classify_tokens in Ec as [_ Hok].
  exact (scan_inv P _ None (length toks) toks (Nat.le_refl _)
           (tok_ok_preserves _ _ _ Hp Hok) _ _ _ _ H0 H).
Qed.

Ltac in_osa H :=
  simpl in H;
  repeat (destruct H as [H | H]; [injection H as <- <- | ]);
  try contradiction.

Lemma sub_parsers name sub :
  assoc name (name_parser_map parser) = Some sub ->
  (name = "pinecone" /\ sub = parser_pinecone)
  \/ (name = "weaviate" /\ sub = parser_weaviate)
  \/ (name = "qdrant" /\ sub = parser_qdrant).
Proof.
  simpl. intros H.
  repeat match type of H with
         | (if String.eqb ?x ?y then _ else _) = _ =>
             destruct (String.eqb_spec x y) as [-> | _]
         end;
    try discriminate; injection H as <-; auto.
Qed.

(** A command line that is accepted and selects a backend: the
    sub-command [name] stands somewhere on it and everything after it was
    parsed, without leftovers, by the sub-parser of that name; the
    sub-parser's namespace is laid over the main parser's. *)
Lemma parse_args_subcommand (arg_strings : list string) (args : dict) name :
  parse_args parser arg_strings = Parsed args ->
  args !! "vector_database" = Some (PyStr name) ->
  exists sub rest (subns ns1 : dict),
    assoc name (name_parser_map parser) = Some sub
    /\ (name :: rest) `suffix_of` arg_strings
    /\ parse_known_args_sub sub rest = Parsed (subns, [])
    /\ args = subns ∪ <["vector_database" := PyStr name]> ns1.
Proof.
  intros H Hvd. unfold parse_args in H.
  destruct (parse_known_args parser arg_strings) as [[ns [|x extras]]| |] eqn:Ek;
    try discriminate.
  injection H as ->. unfold parse_known_args in Ek.
  destruct (classify (option_string_actions (optionals parser)) arg_strings)
    as [e|toks] eqn:Ec; [discriminate|].
  apply classify_tokens in Ec as [Hs Hok].
  assert (parser_preserves
            (fun ns => ns !! "vector_database" = Some PyNone)
            (optionals parser)) as Hpp.
  { intros os a dest type Hin Ha ns v Hn. in_osa Hin; try discriminate.
    all: injection Ha as <- <-; now rewrite lookup_insert_ne. }
  pose proof (scan_inv (fun ns => ns !! "vector_database" = Some PyNone)
                (option_string_actions (optionals parser))
                (Some (subparsers_call parser)) (length toks) toks
                (Nat.le_refl _) (tok_ok_preserves _ _ _ Hpp Hok)
                _ [] args [] (lookup_insert_eq _ _ _) Ek) as Hinv.
  simpl in Hinv. rewrite Hs in Hinv.
  destruct Hinv
    as [Hno | (ns1 & values & ex & _ & Hsuf & Hne & Hcall & Hex)];
    [congruence|].
  apply suffix_nil_inv in Hex. subst ex.
  destruct values as [|name' rest]; [contradiction|].
  unfold subparsers_call in Hcall.
  destruct (assoc name' (name_parser_map parser)) as [sub|] eqn:Ea;
    [|discriminate].
  destruct (parse_known_args_sub sub rest) as [[subns ex]| |] eqn:Esub;
    try discriminate.
  injection Hcall as <- ->.
  assert (subns !! "vector_database" = None) as Hnone.
  { apply (parse_known_args_sub_inv
             (fun ns => ns !! "vector_database" = None) sub rest subns []);
      [| |exact Esub];
      destruct (sub_parsers _ _ Ea) as [[_ ->] | [[_ ->] | [_ ->]]];
      try reflexivity;
      intros os a dest type Hin Ha ns v Hn; in_osa Hin; try discriminate;
      injection Ha as <- <-; now rewrite lookup_insert_ne. }
  rewrite lookup_union_r, lookup_insert_eq in Hvd by exact Hnone.
  injection Hvd as ->.
  exists sub, rest, subns, ns1. repeat split; auto.
Qed.

(** ** The index option of the pinecone sub-command *)

Lemma prefix_dd_inv p :
  String.prefix "--" p = true ->
  exists p', p = String "-"%char (String "-"%char p').
Proof.
  destruct p as [|c1 p]; [discriminate|]. intros H.
  apply prefix_cons_iff in H as [<- H].
  destruct p as [|c2 p]; [discriminate|].
  apply prefix_cons_iff in H as [<- _]. eauto.
Qed.

Lemma prefix_empty_r s : String.prefix s "" = true -> s = "".
Proof. now destruct s. Qed.

(** An argument string that the pinecone sub-parser resolves to
    [-i/--index] starts with [-i] or with [--i]. *)
Lemma pinecone_index_token s a os ex type :
  parse_optional (option_string_actions parser_pinecone) s
    = inr (Some (Some a, os, ex)) ->
  act a = Store "index" type ->
  String.prefix "-i" s = true \/ String.prefix "--i" s = true.
Proof.
  intros H Ha. apply parse_optional_known in H as [Hin Hres].
  in_osa Hin; try discriminate.
  - (* -i *)
    destruct Hres as [<- | [Hp | [(p & Hdd & _ & Hp & _) | [Hs | (Hp & H2 & Hl)]]]].
    + now left.
    + now left.
    + apply prefix_dd_inv in Hdd as [p' ->].
      apply prefix_cons_iff in Hp as [_ Hp].
      apply prefix_cons_iff in Hp as [[=] _].
    + left. destruct s as [|c1 [|c2 tl]]; try discriminate.
      simpl in Hs. injection Hs as <- <-. now destruct tl.
    + left. destruct s as [|c1 [|c2 tl]]; simpl in Hl; try lia.
      apply prefix_cons_iff in Hp as [-> Hp].
      apply prefix_cons_iff in Hp as [-> Hp].
      now rewrite (prefix_empty_r _ Hp).
  - (* --index *)
    destruct Hres
      as [<- | [Hp | [(p & Hdd & Hps & Hp & Hu) | [Hs | (Hp & H2 & Hl)]]]].
    + now right.
    + right. now apply (prefix_trans _ "--index").
    + right. apply prefix_dd_inv in Hdd as [p' ->].
      destruct p' as [|c p''].
      * specialize (Hu "--help" help_argument).
        assert ("--help" = "--index") as [=]. apply Hu; [|reflexivity].
        simpl. auto.
      * apply prefix_cons_iff in Hp as [_ Hp].
        apply prefix_cons_iff in Hp as [_ Hp].
        apply prefix_cons_iff in Hp as [-> _].
        apply (prefix_trans _ (String "-" (String "-" (String "i" p'')))).
        -- now destruct p''.
        -- exact Hps.
    + destruct s as [|c1 [|c2 [|c3 tl]]]; simpl in Hs; discriminate Hs.
    + destruct s as [|c1 [|c2 tl]]; simpl in Hl; try lia.
      apply prefix_cons_iff in Hp as [_ Hp].
      apply prefix_cons_iff in Hp as [-> _]. discriminate.
Qed.


Lemma get_values_str v : str_or_empty_list (get_values TStr v).
Proof.
  unfold get_values. destruct (String.eqb v "--"); [now left|].
  right. now eexists.
Qed.

Lemma get_values_bool t v x :
  get_values t v = PyBool x -> t = TBool.
Proof.
  unfold get_values. destruct (String.eqb v "--"); [discriminate|].
  now destruct t.
Qed.


(** The syntactic test is enough: every spelling of the option starts
    with [-i] or [--i]. *)
Lemma omits_index_not_given (arg_strings : list string) :
  omits_index arg_strings -> index_given arg_strings = false.
Proof.
  assert (forall l, omits_index l -> existsb names_index l = false) as Hex.
  { intros l Hl. destruct (existsb names_index l) eqn:E; [|reflexivity].
    apply existsb_exists in E as (s & Hin & Hs).
    unfold omits_index in Hl. rewrite List.Forall_forall in Hl.
    destruct (Hl s Hin) as [Hi Hii]. unfold names_index in Hs.
    destruct (parse_optional (option_string_actions parser_pinecone) s)
      as [e|[[[[a|] os] ex]|]] eqn:Ep; try discriminate.
    destruct (act a) as [|dest type] eqn:Ha; [discriminate|].
    apply String.eqb_eq in Hs. subst dest.
    destruct (pinecone_index_token _ _ _ _ _ Ep Ha); congruence. }
  induction arg_strings as [|s rest IH]; [reflexivity|]. intros H.
  simpl. apply Forall_cons in H as [_ H].
  rewrite (Hex rest H), andb_false_r. now apply IH.
Qed.



Lemma main_backend w depth st (args : dict) b :
  parse_args parser (tail (argv st)) = Parsed args ->
  args !! "vector_database" = Some (PyStr (subcommand b)) ->
  main w (S depth) st =
    match export w b args st with
    | (Ok _, st1) =>
        (Ok tt, log (EvPrint (PText "Export completed.")) st1)
    | (Raised e, st1) => (Raised e, st1)
    end.
Proof.
  intros Hp Hb. simpl main.
  rewrite (bind_ok _ _ _ _ _ (parse_sys_argv_parsed _ _ Hp)).
  rewrite !(getitem_some _ _ _ Hb).
  destruct b; simpl; unfold bind at 1; repeat (rewrite bind_ret; simpl);
    unfold bind, ret; now destruct (_ w args st) as [[a|e] st1].
Qed.



(** The run of that command line: no prompt for the index, and every
    index the enumeration returns is exported. *)
Lemma main_pinecone_default_example :
  index_given ["pinecone"; "-e"; "us-west1-gcp"] = false
  /\ exists a,
       main example_world 1
         (State ["export.py"; "pinecone"; "-e"; "us-west1-gcp"] [] ["sk"] [])
       = (Ok tt,
          State ["export.py"; "pinecone"; "-e"; "us-west1-gcp"] [] []
            [ EvGetpass api_key_prompt (Some "sk");
              EvPrint (PDict a);
              EvNew Pinecone a;
              EvEnum Pinecone [PyStr "a"; PyStr "b"];
              EvGetData Pinecone (PyStr "a") None;
              EvGetData Pinecone (PyStr "b") None;
              EvPrint (PText "Export completed.") ])
       /\ a !! "index" = Some (PyStr "all").
Proof.
  split.
  - vm_compute. reflexivity.
  - eexists. split; vm_compute; reflexivity.
Qed.

(** ** [include_crossrefs] from the command line, and the frames of [main] *)

(** On a command line that selects weaviate, [include_crossrefs] is
    [None] when [-i] was not given and a [bool] or the empty list when it
    was: never a [str]. *)
Lemma weaviate_crossrefs_parsed (arg_strings : list string) (args : dict) :
  parse_args parser arg_strings = Parsed args ->
  args !! "vector_database" = Some (PyStr "weaviate") ->
  args !! "include_crossrefs" = Some PyNone
  \/ exists v, args !! "include_crossrefs" = Some v
               /\ (v = PyEmptyList \/ exists flag, v = PyBool flag).
Proof.
  intros H Hvd.
  destruct (parse_args_subcommand _ _ _ H Hvd)
    as (sub & rest & subns & ns1 & Ea & _ & Hsub & ->).
  injection Ea as <-.
  assert (subns !! "include_crossrefs" = Some PyNone
          \/ exists v, subns !! "include_crossrefs" = Some v
                       /\ (v = PyEmptyList \/ exists flag, v = PyBool flag))
    as Hs.
  { apply (parse_known_args_sub_inv
             (fun ns => ns !! "include_crossrefs" = Some PyNone
                        \/ exists v,
                             ns !! "include_crossrefs" = Some v
                             /\ (v = PyEmptyList
                                 \/ exists flag, v = PyBool flag))
             parser_weaviate rest subns []); [| |exact Hsub].
    - intros os a dest type Hin Ha ns v Hn. in_osa Hin; try discriminate.
      all: injection Ha as <- <-.
      all: try (rewrite lookup_insert_ne by discriminate; exact Hn).
      all: right; eexists; split; [apply lookup_insert_eq|];
        unfold get_values; destruct (String.eqb v "--"); simpl; eauto.
    - now left. }
  destruct Hs as [Hs | (v & Hs & Hv)]; [left | right; exists v; split; auto];
    now apply lookup_union_Some_l.
Qed.

(** C2, where the code departs from it.  When [include_crossrefs] comes
    from the command line it is a [bool], because the option is declared
    with [type=bool] (or the empty list, for the argument [--]); no
    prompt is shown, the test against ["Y"] fails,
    and every [get_data] call is made with [False].  This holds for the
    driver whenever [args] holds a [bool], and so for [main] on every
    command line that selects weaviate and gives [-i], in whatever
    spelling and with whatever value. *)
Theorem weaviate_flag_never_includes_crossrefs (w : world) :
  (forall (args : dict) (st : state) (r : outcome dict) (st' : state)
          (flag : bool),
     args !! "include_crossrefs" = Some (PyBool flag) ->
     export_weaviate w args st = (r, st') ->
     exists evs,
       trace st' = trace st ++ evs
       /\ Forall (fun e => forall l, e <> EvInput crossrefs_prompt l) evs
       /\ Forall (fun e => forall n cr,
                    e = EvGetData Weaviate n cr -> cr = Some (PyBool false))
            evs)
  /\ (forall (depth : nat) (st : state) (args : dict) (r : outcome unit)
             (st' : state),
        parse_args parser (tail (argv st)) = Parsed args ->
        args !! "vector_database" = Some (PyStr "weaviate") ->
        args !! "include_crossrefs" <> Some PyNone ->
        main w depth st = (r, st') ->
        exists evs,
          trace st' = trace st ++ evs
          /\ Forall (fun e => forall n cr,
                       e = EvGetData Weaviate n cr -> cr = Some (PyBool false))
               evs).
Proof.
  assert (forall (args : dict) (st : state) (r : outcome dict) (st' : state)
                 (v : pyval),
            args !! "include_crossrefs" = Some v ->
            v <> PyNone -> v <> PyStr "Y" ->
            export_weaviate w args st = (r, st') ->
            exists evs,
              trace st' = trace st ++ evs
              /\ Forall (fun e => forall l, e <> EvInput crossrefs_prompt l)
                   evs
              /\ Forall (fun e => forall n cr,
                           e = EvGetData Weaviate n cr ->
                           cr = Some (PyBool false)) evs) as Hdriver.
  { intros args st r st' v.
  intros Hflag Hnone Hy' H.
  assert (missing args "include_crossrefs" = false) as Hm
    by (unfold missing; rewrite Hflag; now destruct v).
  assert (forall prompts, Forall (asked w Weaviate args) prompts ->
          Forall (fun e => (forall l, e <> EvInput crossrefs_prompt l)
                           /\ forall n cr, e = EvGetData Weaviate n cr ->
                                cr = Some (PyBool false)) prompts) as Hpr.
  { intros prompts Hp. eapply Forall_impl; [exact Hp|].
    intros e He. split.
    - intros l ->. apply asked_crossrefs_prompt in He. congruence.
    - intros n cr ->. apply asked_is_prompt in He. discriminate. }
  destruct (export_weaviate_shape _ _ _ _ _ H)
    as (prompts & Hp & [[-> T] | (a & calls & T & [_ (x & Hx & Hiff)] & AP)]).
  { exists prompts. split; [exact T|]. apply Hpr in Hp.
    split; (eapply Forall_impl; [exact Hp|]; now intros e [? ?]). }
  assert (x = false) as ->.
  { destruct x; [|reflexivity]. destruct Hiff as [Hiff _].
    destruct (Hiff eq_refl) as [Hy | Hin]; [congruence|].
    rewrite List.Forall_forall in Hp. apply Hp in Hin.
    apply asked_crossrefs_prompt in Hin. congruence. }
  simpl crossrefs_arg in AP. rewrite Hx in AP.
  exists (prompts ++ preamble Weaviate a ++ calls). split; [exact T|].
  apply Hpr in Hp. simpl preamble.
  assert (Forall (fun e => (forall l, e <> EvInput crossrefs_prompt l)
                           /\ forall n cr, e = EvGetData Weaviate n cr ->
                                cr = Some (PyBool false)) calls) as Hc.
  { inversion AP; subst; repeat constructor; try discriminate;
      try (intros ? ? [= _ <-]; reflexivity).
    apply Forall_map, Forall_true. intros n. split; [discriminate|].
    now intros ? ? [= _ <-]. }
  split.
  - apply Forall_app. split; (eapply Forall_impl; [eassumption|]);
      now intros e [? ?].
  - apply Forall_app. split; (eapply Forall_impl; [eassumption|]);
      now intros e [? ?]. }
  split.
  { intros args st r st' flag Hflag.
    now apply (Hdriver args st r st' (PyBool flag)). }
  intros depth st args r st' Hp Hvd Hgiven H.
  destruct (weaviate_crossrefs_parsed _ _ Hp Hvd)
    as [Hn | (v & Hflag & Hv)]; [contradiction|].
  assert (v <> PyStr "Y") as Hy'
    by (destruct Hv as [-> | [flag ->]]; discriminate).
  assert (v <> PyNone) as Hgiven'
    by (destruct Hv as [-> | [flag ->]]; discriminate).
  destruct depth as [|depth].
  { injection H as <- <-. exists []. now rewrite app_nil_r. }
  rewrite (main_backend w depth st args Weaviate Hp Hvd) in H.
  simpl export in H.
  destruct (export_weaviate w args st) as [r0 st0] eqn:He.
  destruct (Hdriver args st r0 st0 v Hflag Hgiven' Hy' He)
    as (evs & T & _ & Hc).
  destruct r0 as [a|e]; injection H as <- <-.
  - exists (evs ++ [EvPrint (PText "Export completed.")]).
    split; [simpl; now rewrite T, <- app_assoc|].
    apply Forall_app. split; [exact Hc|]. now repeat constructor.
  - exists evs. now split.
Qed.

Lemma weaviate_flag_never_includes_crossrefs_witness :
  parse_args parser docstring_weaviate_argv = Parsed docstring_weaviate_args
  /\ exists evs,
       [ EvNew Weaviate
           (<["include_crossrefs" := PyBool false]> docstring_weaviate_args);
         EvGetData Weaviate (PyStr "my_class") (Some (PyBool false)) ]
       = [] ++ evs
       /\ Forall (fun e => forall l, e <> EvInput crossrefs_prompt l) evs
       /\ Forall (fun e => forall n cr,
                    e = EvGetData Weaviate n cr -> cr = Some (PyBool false))
            evs.
Proof.
  split; [vm_compute; reflexivity|].
  apply (proj1 (weaviate_flag_never_includes_crossrefs example_world)
           docstring_weaviate_args idle
           (Ok (<["include_crossrefs" := PyBool false]>
                  docstring_weaviate_args))
           (State ["export.py"] [] []
              [ EvNew Weaviate
                  (<["include_crossrefs" := PyBool false]>
                     docstring_weaviate_args);
                EvGetData Weaviate (PyStr "my_class") (Some (PyBool false)) ])
           true).
  - vm_compute. reflexivity.
  - vm_compute. reflexivity.
Defined.

Lemma bind_ext {A B} (m : M A) (k k' : A -> M B) st :
  (forall a st1, m st = (Ok a, st1) -> k a st1 = k' a st1) ->
  bind m k st = bind m k' st.
Proof.
  intros H. unfold bind. destruct (m st) as [[a|e] st1]; [|reflexivity].
  now apply H.
Qed.

(** [main] calls itself at most once: with a program name in [sys.argv],
    two frames are as good as any larger number. *)
Lemma main_two_frames_suffice (w : world) (depth : nat) (st : state) :
  argv st <> [] -> main w (S (S depth)) st = main w 2 st.
Proof.
  intros Hargv. simpl main.
  apply bind_ext. intros args st1 Hparse.
  assert (st1 = st) as ->.
  { unfold parse_sys_argv in Hparse.
    destruct (parse_args parser (tail (argv st))); try discriminate.
    now injection Hparse. }
  apply bind_ext_l.
  assert (forall (X : M unit) (k k' : pyval -> M unit) s,
            (forall v, getitem args "vector_database" s = (Ok v, s) ->
                       k v s = k' v s) ->
            bind (getitem args "vector_database") k s
            = bind (getitem args "vector_database") k' s) as Hget.
  { intros _ k k' s Hk. apply bind_ext. intros v s1 Hv.
    assert (s1 = s) as ->
      by (unfold getitem in Hv; destruct (args !! "vector_database");
          [now injection Hv | discriminate]).
    now apply Hk. }
  apply (Hget (ret tt)). intros vd _.
  destruct (py_eq vd (PyStr "pinecone")); [reflexivity|].
  apply (Hget (ret tt)). intros vd' _.
  destruct (py_eq vd' (PyStr "weaviate")); [reflexivity|].
  apply (Hget (ret tt)). intros vd'' _.
  destruct (py_eq vd'' (PyStr "qdrant")); [reflexivity|].
  apply bind_ext. intros [] st1 [= <-].
  apply bind_ext. intros line st2 Hinput.
  apply bind_ext. intros [] st3 [= <-].
  assert (argv st2 = argv st) as Ha.
  { unfold input in Hinput. simpl in Hinput.
    destruct (stdin st); [discriminate|]. now injection Hinput as _ <-. }
  assert (exists e st4,
            parse_sys_argv
              (State (argv st2 ++ ["--vector_database"; line]) (stdin st2)
                 (tty st2) (trace st2)) = (Raised e, st4))
    as (e & st4 & Hps).
  { unfold parse_sys_argv. simpl argv. rewrite Ha.
    destruct (argv st) as [|prog rest]; [contradiction|]. simpl tail.
    pose proof (parse_args_rejects_vector_database_flag
                  (rest ++ ["--vector_database"; line])
                  ltac:(rewrite in_app_iff; right; now left)) as Hrej.
    destruct (parse_args parser (rest ++ ["--vector_database"; line]));
      [now destruct (Hrej a) | |]; do 2 eexists; reflexivity. }
  simpl main. now rewrite !(bind_raised _ _ _ _ _ Hps).
Qed.

(** * Further properties *)

(** ** The drivers on any dict *)

Lemma export_result_cases w b (args : dict) st r st' :
  export w b args st = (r, st') ->
  (exists a, r = Ok a) \/ r = Raised EOFError \/ r = Raised AdapterError.
Proof.
  intros H.
  destruct (export_shape _ _ _ _ _ _ H)
    as (prompts & _ & [[-> _] | (a & calls & _ & _ & AP)]); [auto|].
  destruct (adapter_phase_outcome _ _ _ _ _ _ _ AP) as [-> | ->]; eauto.
Qed.

(** X1.  Whatever dict a driver is given, the empty one included, it
    never fails on a missing key: it returns, or raises [EOFError] from a
    prompt, or raises what the adapter raised.  When it returns, every
    argument it collects is in the dict with a value other than [None]. *)
Theorem export_never_misses_a_key
    (w : world) (b : backend) (args : dict) (st : state)
    (r : outcome dict) (st' : state) :
  export w b args st = (r, st') ->
  ((exists a, r = Ok a) \/ r = Raised EOFError \/ r = Raised AdapterError)
  /\ (forall a k p,
        r = Ok a -> In (k, p) (input_table b) -> missing a k = false).
Proof.
  intros H. split; [exact (export_result_cases _ _ _ _ _ _ H)|].
  intros a k p -> Hin.
  destruct (export_shape _ _ _ _ _ _ H)
    as (prompts & _ & [[[=] _] | (a0 & calls & _ & [Hf Hb] & AP)]).
  apply adapter_phase_ok in AP. subst a0.
  destruct (String.eqb_spec k "include_crossrefs") as [-> | Hk].
  - destruct b; simpl in Hin;
      repeat (destruct Hin as [Hin | Hin]; try discriminate Hin);
      try contradiction.
    destruct Hb as (x & Hx & _). unfold missing. now rewrite Hx.
  - specialize (Hf k p Hin Hk). destruct (missing args k) eqn:Hm.
    + destruct Hf as (l & _ & Hl). unfold missing. now rewrite Hl.
    + unfold missing in *. now rewrite Hf.
Qed.

Lemma export_never_misses_a_key_witness :
  ((exists a, fst (export example_world Qdrant ∅ (answering ["u"; "docs"]))
              = Ok a)
   \/ fst (export example_world Qdrant ∅ (answering ["u"; "docs"]))
      = Raised EOFError
   \/ fst (export example_world Qdrant ∅ (answering ["u"; "docs"]))
      = Raised AdapterError)
  /\ (forall a k p,
        fst (export example_world Qdrant ∅ (answering ["u"; "docs"])) = Ok a ->
        In (k, p) (input_table Qdrant) -> missing a k = false).
Proof.
  apply (export_never_misses_a_key example_world Qdrant ∅
           (answering ["u"; "docs"]) _
           (snd (export example_world Qdrant ∅ (answering ["u"; "docs"])))).
  vm_compute. reflexivity.
Defined.

(** X2.  A driver asks everything it has to ask before it touches the
    backend: in every run the prompts (and, for pinecone, the print) come
    first and the adapter calls after them, with nothing of the one kind
    among the other.  A run that ends in [EOFError] has made no adapter
    call, not even the constructor; any other run has made at least
    one. *)
Theorem export_prompts_before_adapter
    (w : world) (b : backend) (args : dict) (st : state)
    (r : outcome dict) (st' : state) :
  export w b args st = (r, st') ->
  exists pre calls,
    trace st' = trace st ++ pre ++ calls
    /\ Forall (fun e => is_adapter_call e = false) pre
    /\ Forall (fun e => is_adapter_call e = true) calls
    /\ (r = Raised EOFError <-> calls = []).
Proof.
  intros H.
  destruct (export_shape _ _ _ _ _ _ H)
    as (prompts & Hp & [[-> T] | (a & calls & T & _ & AP)]).
  - exists prompts, []. rewrite app_nil_r. split; [exact T|].
    split; [|split; [constructor | tauto]].
    eapply Forall_impl; [exact Hp|]. apply asked_not_adapter_call.
  - exists (prompts ++ preamble b a), calls.
    split; [now rewrite <- app_assoc|]. split; [|split].
    + apply Forall_app. split.
      * eapply Forall_impl; [exact Hp|]. apply asked_not_adapter_call.
      * destruct b; repeat constructor.
    + apply List.Forall_forall. intros e He.
      apply adapter_phase_calls in AP. rewrite <- AP in He.
      unfold adapter_calls in He. now apply List.filter_In in He.
    + destruct (adapter_phase_outcome _ _ _ _ _ _ _ AP) as [-> | ->];
        destruct (adapter_phase_starts_with_new _ _ _ _ _ _ _ AP) as [? ->];
        split; discriminate.
Qed.

Lemma export_prompts_before_adapter_witness :
  exists pre calls,
    trace (snd (export example_world Qdrant ∅ (answering ["u"])))
    = trace (answering ["u"]) ++ pre ++ calls
    /\ Forall (fun e => is_adapter_call e = false) pre
    /\ Forall (fun e => is_adapter_call e = true) calls
    /\ (fst (export example_world Qdrant ∅ (answering ["u"]))
        = Raised EOFError <-> calls = []).
Proof.
  apply (export_prompts_before_adapter example_world Qdrant ∅
           (answering ["u"])).
  vm_compute. reflexivity.
Defined.

(** X3.  A driver builds one adapter, of its own backend, and every
    later call goes to that backend; it never builds a second one and
    enumerates at most once. *)
Theorem export_builds_one_adapter
    (w : world) (b : backend) (args : dict) (st : state)
    (r : outcome dict) (st' : state) :
  export w b args st = (r, st') ->
  exists evs,
    trace st' = trace st ++ evs
    /\ (adapter_calls evs = []
        \/ exists a rest,
             adapter_calls evs = EvNew b a :: rest
             /\ Forall (fun e => is_new e = false /\ backend_of e = Some b)
                  rest
             /\ (length (List.filter is_enum rest) <= 1)%nat).
Proof.
  intros H.
  destruct (export_shape _ _ _ _ _ _ H)
    as (prompts & Hp & [[-> T] | (a & calls & T & _ & AP)]).
  - exists prompts. split; [exact T|]. left.
    exact (adapter_calls_prompts _ _ _ _ Hp).
  - exists (prompts ++ preamble b a ++ calls). split; [exact T|]. right.
    rewrite (adapter_calls_run _ _ _ _ _ _ _ _ Hp AP).
    inversion AP as [|sel r' _ _ _|names k r' _ _ _ _]; subst.
    + exists a, []. repeat split; [constructor | simpl; lia].
    + exists a, [EvGetData b sel (crossrefs_arg b a)].
      repeat split; [repeat constructor | simpl; lia].
    + eexists a, _. split; [reflexivity|]. split.
      * constructor; [now split|].
        apply Forall_map, Forall_true. now intros n.
      * simpl. apply le_n_S. generalize (take k names).
        intros l. clear. induction l as [|n l IH]; simpl; [lia | exact IH].
Qed.

Lemma export_builds_one_adapter_witness :
  exists evs,
    trace (snd (export example_world Qdrant qdrant_all idle))
    = trace idle ++ evs
    /\ (adapter_calls evs = []
        \/ exists a rest,
             adapter_calls evs = EvNew Qdrant a :: rest
             /\ Forall (fun e => is_new e = false
                                 /\ backend_of e = Some Qdrant) rest
             /\ (length (List.filter is_enum rest) <= 1)%nat).
Proof.
  apply (export_builds_one_adapter example_world Qdrant qdrant_all idle
           (fst (export example_world Qdrant qdrant_all idle))).
  vm_compute. reflexivity.
Defined.

(** ** Cross-references, for any dict *)

(** X4.  [export_weaviate] replaces [include_crossrefs] by a [bool]
    before it builds the adapter, whatever the dict held: the dict given
    to [ExportWeaviate] and the second argument of every [get_data] hold
    the same [bool], which is [True] exactly when the dict came with the
    string ["Y"] or the line typed at the prompt was ["Y"].  Any other
    value, [True] included, ends up as [False]. *)
Theorem export_weaviate_normalises_crossrefs
    (w : world) (args : dict) (st : state) (r : outcome dict) (st' : state) :
  export_weaviate w args st = (r, st') ->
  exists evs,
    trace st' = trace st ++ evs
    /\ forall e v,
         In e evs -> crossrefs_seen e = Some v ->
         exists x,
           v = Some (PyBool x)
           /\ (x = true <->
                 args !! "include_crossrefs" = Some (PyStr "Y")
                 \/ In (EvInput crossrefs_prompt (Some "Y")) evs).
Proof.
  intros H.
  destruct (export_weaviate_shape _ _ _ _ _ H)
    as (prompts & Hp & [[-> T] | (a & calls & T & [_ (x & Hx & Hiff)] & AP)]).
  { exists prompts. split; [exact T|]. intros e v Hin Hs.
    rewrite List.Forall_forall in Hp. apply Hp in Hin.
    now destruct Hin as [(k & p & l & -> & _) | (l & _ & -> & _)]. }
  simpl crossrefs_arg in AP. rewrite Hx in AP. simpl preamble in T.
  exists (prompts ++ calls). split; [exact T|]. intros e v Hin Hs.
  exists x. split.
  - apply in_app_iff in Hin as [Hin | Hin].
    + rewrite List.Forall_forall in Hp. apply Hp in Hin.
      now destruct Hin as [(k & p & l & -> & _) | (l & _ & -> & _)].
    + clear -AP Hin Hs Hx. inversion AP; subst; simpl in Hin.
      * destruct Hin as [<- | []]. simpl in Hs. congruence.
      * destruct Hin as [<- | [<- | []]]; simpl in Hs; congruence.
      * destruct Hin as [<- | [<- | Hin]]; simpl in Hs; try congruence.
        apply List.in_map_iff in Hin as (n & <- & _). simpl in Hs.
        congruence.
  - rewrite Hiff, in_app_iff. split; [tauto|].
    intros [Hy | [Hin' | Hin']]; auto.
    apply (adapter_phase_is_adapter_call _ _ _ _ _ _ _ _ AP) in Hin'.
    discriminate.
Qed.

Lemma export_weaviate_normalises_crossrefs_witness :
  exists evs,
    trace (snd (export_weaviate example_world
                  (<["include_crossrefs" := PyBool true]> weaviate_all) idle))
    = trace idle ++ evs
    /\ forall e v,
         In e evs -> crossrefs_seen e = Some v ->
         exists x,
           v = Some (PyBool x)
           /\ (x = true <->
                 (<["include_crossrefs" := PyBool true]> weaviate_all)
                   !! "include_crossrefs" = Some (PyStr "Y")
                 \/ In (EvInput crossrefs_prompt (Some "Y")) evs).
Proof.
  apply (export_weaviate_normalises_crossrefs example_world
           (<["include_crossrefs" := PyBool true]> weaviate_all) idle
           (fst (export_weaviate example_world
                   (<["include_crossrefs" := PyBool true]> weaviate_all)
                   idle))).
  vm_compute. reflexivity.
Defined.

(** ** Runs that need no answer *)

(** A run that ends in [EOFError] ends on a prompt that got no answer. *)
Lemma export_eof_last w b (args : dict) st st' :
  export w b args st = (Raised EOFError, st') ->
  exists pre e, trace st' = trace st ++ pre ++ [e] /\ is_prompt e = true.
Proof.
  assert (forall (a : dict) cr sel st0 st1,
            a !! collection_key b = Some sel ->
            phase_prog w b a (collection_key b) cr st0
            <> (Raised EOFError, st1)) as Hphase.
  { intros a cr sel st0 st1 Hsel E.
    destruct (phase_prog_run w b a cr sel st0 Hsel)
      as (r' & st'' & calls & E' & _ & AP).
    rewrite E in E'. injection E' as <- _.
    destruct (adapter_phase_outcome _ _ _ _ _ _ _ AP); discriminate. }
  intros H. destruct b; simpl export in H.
  - unfold export_pinecone in H.
    destruct (set_arg_from_input_step args "environment" environment_prompt st)
      as (r1 & st1 & e1 & E1 & T1 & [(-> & -> & M1) | (a1 & -> & C1)]).
    { rewrite (bind_raised _ _ _ _ _ E1) in H. injection H as <-.
      now exists [], (EvInput environment_prompt None). }
    rewrite (bind_ok _ _ _ _ _ E1) in H.
    destruct (set_arg_from_input_step a1 "index" index_prompt st1)
      as (r2 & st2 & e2 & E2 & T2 & [(-> & -> & M2) | (a2 & -> & C2)]).
    { rewrite (bind_raised _ _ _ _ _ E2) in H. injection H as <-.
      exists e1, (EvInput index_prompt None).
      now rewrite T2, T1, <- app_assoc. }
    rewrite (bind_ok _ _ _ _ _ E2) in H.
    destruct (set_arg_from_input_step a2 "model_name" model_name_prompt st2)
      as (r3 & st3 & e3 & E3 & T3 & [(-> & -> & M3) | (a3 & -> & C3)]).
    { rewrite (bind_raised _ _ _ _ _ E3) in H. injection H as <-.
      exists (e1 ++ e2), (EvInput model_name_prompt None).
      now rewrite T3, T2, T1, <- !app_assoc. }
    rewrite (bind_ok _ _ _ _ _ E3) in H.
    destruct (set_arg_from_password_step w a3 "pinecone_api_key"
                api_key_prompt "PINECONE_API_KEY" st3)
      as (r4 & st4 & e4 & E4 & T4 & [(-> & -> & G4 & M4) | (a & -> & C4)]).
    { rewrite (bind_raised _ _ _ _ _ E4) in H. injection H as <-.
      exists (e1 ++ e2 ++ e3), (EvGetpass api_key_prompt None).
      now rewrite T4, T3, T2, T1, <- !app_assoc. }
    rewrite (bind_ok _ _ _ _ _ E4) in H.
    assert (print (PDict a) st4 = (Ok tt, log (EvPrint (PDict a)) st4)) as P
      by reflexivity.
    rewrite (bind_ok _ _ _ _ _ P) in H.
    assert (exists sel, a !! "index" = Some sel) as [sel Hsel].
    { apply missing_lookup. unfold missing.
      rewrite (collected_password_lookup_ne _ _ _ _ _ _ _ _ C4)
        by discriminate.
      rewrite (collected_lookup_ne _ _ _ _ _ _ C3) by discriminate.
      apply (collected_present _ _ _ _ _ C2). }
    destruct (Hphase a None sel _ st' Hsel H).
  - unfold export_weaviate in H.
    destruct (set_arg_from_input_step args "url" weaviate_url_prompt st)
      as (r1 & st1 & e1 & E1 & T1 & [(-> & -> & M1) | (a1 & -> & C1)]).
    { rewrite (bind_raised _ _ _ _ _ E1) in H. injection H as <-.
      now exists [], (EvInput weaviate_url_prompt None). }
    rewrite (bind_ok _ _ _ _ _ E1) in H.
    destruct (set_arg_from_input_step a1 "class_name" class_name_prompt st1)
      as (r2 & st2 & e2 & E2 & T2 & [(-> & -> & M2) | (a2 & -> & C2)]).
    { rewrite (bind_raised _ _ _ _ _ E2) in H. injection H as <-.
      exists e1, (EvInput class_name_prompt None).
      now rewrite T2, T1, <- app_assoc. }
    rewrite (bind_ok _ _ _ _ _ E2) in H.
    destruct (set_arg_from_input_step a2 "include_crossrefs"
                crossrefs_prompt st2)
      as (r3 & st3 & e3 & E3 & T3 & [(-> & -> & M3) | (a3 & -> & C3)]).
    { rewrite (bind_raised _ _ _ _ _ E3) in H. injection H as <-.
      exists (e1 ++ e2), (EvInput crossrefs_prompt None).
      now rewrite T3, T2, T1, <- !app_assoc. }
    rewrite (bind_ok _ _ _ _ _ E3) in H.
    destruct (missing_lookup _ _ (collected_present _ _ _ _ _ C3))
      as [v3 Hv3].
    rewrite (getitem_some _ _ _ Hv3), bind_ret in H.
    set (x := py_eq v3 (PyStr "Y")) in *.
    set (a := if x then <["include_crossrefs" := PyBool true]> a3
              else <["include_crossrefs" := PyBool false]> a3) in *.
    assert (a = <["include_crossrefs" := PyBool x]> a3) as Ha
      by (subst a; now destruct x).
    assert (a !! "include_crossrefs" = Some (PyBool x)) as Hx
      by (rewrite Ha; apply lookup_insert_eq).
    assert (exists sel, a !! "class_name" = Some sel) as [sel Hsel].
    { apply missing_lookup. unfold missing.
      rewrite Ha, lookup_insert_ne by discriminate.
      rewrite (collected_lookup_ne _ _ _ _ _ _ C3) by discriminate.
      apply (collected_present _ _ _ _ _ C2). }
    rewrite (weaviate_phase w a sel (PyBool x) st3 Hsel Hx) in H.
    destruct (Hphase a (Some (PyBool x)) sel _ st' Hsel H).
  - unfold export_qdrant in H.
    destruct (set_arg_from_input_step args "url" qdrant_url_prompt st)
      as (r1 & st1 & e1 & E1 & T1 & [(-> & -> & M1) | (a1 & -> & C1)]).
    { rewrite (bind_raised _ _ _ _ _ E1) in H. injection H as <-.
      now exists [], (EvInput qdrant_url_prompt None). }
    rewrite (bind_ok _ _ _ _ _ E1) in H.
    destruct (set_arg_from_input_step a1 "collection" collection_prompt st1)
      as (r2 & st2 & e2 & E2 & T2 & [(-> & -> & M2) | (a & -> & C2)]).
    { rewrite (bind_raised _ _ _ _ _ E2) in H. injection H as <-.
      exists e1, (EvInput collection_prompt None).
      now rewrite T2, T1, <- app_assoc. }
    rewrite (bind_ok _ _ _ _ _ E2) in H.
    destruct (missing_lookup _ _ (collected_present _ _ _ _ _ C2))
      as [sel Hsel].
    destruct (Hphase a None sel _ st' Hsel H).
Qed.

(** X5.  A driver that is given every argument it collects (and, for
    pinecone, an API key in the environment or in the dict) runs without
    a word to the user: it shows no prompt, reads nothing, and so cannot
    end in [EOFError], even with nothing on the standard input. *)
Theorem export_with_every_argument_asks_nothing
    (w : world) (b : backend) (args : dict) (st : state)
    (r : outcome dict) (st' : state) :
  (forall k p, In (k, p) (input_table b) -> missing args k = false) ->
  (b = Pinecone ->
   getenv w "PINECONE_API_KEY" <> None
   \/ missing args "pinecone_api_key" = false) ->
  export w b args st = (r, st') ->
  r <> Raised EOFError
  /\ exists evs,
       trace st' = trace st ++ evs
       /\ Forall (fun e => is_prompt e = false) evs.
Proof.
  intros Hall Hkey H.
  assert (forall e, ~ asked w b args e) as Hno.
  { intros e [(k & p & l & _ & Hin & M) | (l & Hb & _ & G & M)].
    - rewrite (Hall k p Hin) in M. discriminate.
    - destruct (Hkey Hb) as [G' | M']; congruence. }
  destruct (export_shape _ _ _ _ _ _ H) as (prompts & Hp & Hrun).
  assert (prompts = []) as ->.
  { destruct Hp as [|e evs He _]; [reflexivity | now destruct (Hno e)]. }
  destruct Hrun as [[-> T] | (a & calls & T & _ & AP)].
  { destruct (export_eof_last _ _ _ _ _ H) as (pre & e & T' & _).
    rewrite T' in T. apply app_inv_head in T. now destruct pre. }
  split.
  { destruct (adapter_phase_outcome _ _ _ _ _ _ _ AP) as [-> | ->];
      discriminate. }
  exists (preamble b a ++ calls). split; [exact T|].
  apply Forall_app. split; [destruct b; repeat constructor|].
  apply List.Forall_forall. intros e He.
  apply (adapter_phase_is_adapter_call _ _ _ _ _ _ _ _ AP) in He.
  now destruct e.
Qed.

Lemma export_with_every_argument_asks_nothing_witness :
  fst (export example_world Qdrant qdrant_docs idle) <> Raised EOFError
  /\ exists evs,
       trace (snd (export example_world Qdrant qdrant_docs idle))
       = trace idle ++ evs
       /\ Forall (fun e => is_prompt e = false) evs.
Proof.
  apply (export_with_every_argument_asks_nothing example_world Qdrant
           qdrant_docs idle).
  - intros k p [[= <- <-] | [[= <- <-] | []]]; vm_compute; reflexivity.
  - discriminate.
  - vm_compute. reflexivity.
Defined.

(** ** The name typed at the prompt *)

(** X6.  When the dict names no collection, the driver asks for one and
    the line typed is the name the adapter gets, as typed: it is stored
    under the collection key of the dict given to the constructor, and
    unless it is ["all"] the one [get_data] call is made with it.
    Nothing is checked or trimmed, so an empty line is exported as the
    name [""]. *)
Theorem export_typed_name_reaches_adapter
    (w : world) (b : backend) (args : dict) (st : state)
    (r : outcome dict) (st' : state) :
  missing args (collection_key b) = true ->
  export w b args st = (r, st') ->
  r <> Raised EOFError ->
  exists evs l a rest,
    trace st' = trace st ++ evs
    /\ In (EvInput (collection_prompt_of b) (Some l)) evs
    /\ adapter_calls evs = EvNew b a :: rest
    /\ a !! collection_key b = Some (PyStr l)
    /\ (l <> "all" ->
        rest `prefix_of` [EvGetData b (PyStr l) (crossrefs_arg b a)]
        /\ (r = Ok a ->
            rest = [EvGetData b (PyStr l) (crossrefs_arg b a)])).
Proof.
  intros Hm H Hr.
  destruct (export_shape _ _ _ _ _ _ H)
    as (prompts & Hp & [[-> _] | (a & calls & T & [Hf _] & AP)]);
    [now destruct Hr|].
  destruct (collection_in_table b) as [Hin Hk].
  specialize (Hf _ _ Hin Hk). rewrite Hm in Hf. destruct Hf as (l & Hl & Ha).
  exists (prompts ++ preamble b a ++ calls), l, a.
  rewrite (adapter_calls_run _ _ _ _ _ _ _ _ Hp AP).
  inversion AP as [|sel r' Hsel Hne Hr'|names k r' Hall _ _ _]; subst.
  - exists []. split; [exact T|]. split; [apply in_app_iff; now left|].
    split; [reflexivity|]. split; [exact Ha|]. intros _.
    split; [apply prefix_nil | discriminate].
  - rewrite Ha in Hsel. injection Hsel as <-.
    exists [EvGetData b (PyStr l) (crossrefs_arg b a)].
    split; [exact T|]. split; [apply in_app_iff; now left|].
    split; [reflexivity|]. split; [exact Ha|]. intros _.
    split; reflexivity.
  - eexists. split; [exact T|]. split; [apply in_app_iff; now left|].
    split; [reflexivity|]. split; [exact Ha|]. intros Hne.
    rewrite Ha in Hall. injection Hall as ->. now destruct Hne.
Qed.

Lemma export_typed_name_reaches_adapter_witness :
  exists evs l a rest,
    trace (snd (export example_world Qdrant
                  {["url" := PyStr "http://localhost:6333"]}
                  (answering [""])))
    = trace (answering [""]) ++ evs
    /\ In (EvInput (collection_prompt_of Qdrant) (Some l)) evs
    /\ adapter_calls evs = EvNew Qdrant a :: rest
    /\ a !! collection_key Qdrant = Some (PyStr l)
    /\ (l <> "all" ->
        rest `prefix_of` [EvGetData Qdrant (PyStr l) (crossrefs_arg Qdrant a)]
        /\ (fst (export example_world Qdrant
                   {["url" := PyStr "http://localhost:6333"]}
                   (answering [""])) = Ok a ->
            rest = [EvGetData Qdrant (PyStr l) (crossrefs_arg Qdrant a)])).
Proof.
  apply (export_typed_name_reaches_adapter example_world Qdrant
           {["url" := PyStr "http://localhost:6333"]} (answering [""])).
  - vm_compute. reflexivity.
  - vm_compute. reflexivity.
  - vm_compute. discriminate.
Defined.

(** ** Asking twice *)

(** X7.  Collecting an argument a second time changes nothing and asks
    nothing: [set_arg_from_input] followed by [set_arg_from_input] for
    the same argument, whatever the second prompt, is the first call
    alone, and the same holds for [set_arg_from_password].  A line that
    was typed, the empty line included, is never asked for again. *)
Theorem set_arg_twice_is_once
    (w : world) (args : dict) (arg_name prompt prompt' env_var_name : string)
    (st : state) :
  (let* a := set_arg_from_input args arg_name prompt in
   set_arg_from_input a arg_name prompt') st
  = set_arg_from_input args arg_name prompt st
  /\ (let* a := set_arg_from_password w args arg_name prompt env_var_name in
      set_arg_from_password w a arg_name prompt' env_var_name) st
     = set_arg_from_password w args arg_name prompt env_var_name st.
Proof.
  split.
  - unfold bind. rewrite (set_arg_from_input_run args).
    destruct (missing args arg_name) eqn:M.
    + destruct (stdin st) as [|line rest]; [reflexivity|].
      now rewrite set_arg_from_input_run, missing_insert_str.
    + now rewrite set_arg_from_input_run, M.
  - unfold bind. rewrite (set_arg_from_password_run w args).
    destruct (getenv w env_var_name) as [v|] eqn:G.
    + now rewrite set_arg_from_password_run, G, insert_insert_eq.
    + destruct (missing args arg_name) eqn:M.
      * destruct (tty st) as [|line rest]; [reflexivity|].
        now rewrite set_arg_from_password_run, G, missing_insert_str.
      * now rewrite set_arg_from_password_run, G, M.
Qed.

(** ** The namespace of an accepted command line *)

(** An accepted command line either names no sub-command, and then the
    namespace is the main parser's, or names one: then everything after
    the name was parsed by that sub-parser, whose namespace is laid over
    the main parser's. *)
Lemma parse_args_cases (P : dict -> Prop) (arg_strings : list string)
    (args : dict) :
  parser_preserves P (optionals parser) ->
  P (<["vector_database" := PyNone]> (defaults (optionals parser) ∅)) ->
  parse_args parser arg_strings = Parsed args ->
  (P args /\ args !! "vector_database" = Some PyNone)
  \/ exists name sub rest (subns ns1 : dict),
       assoc name (name_parser_map parser) = Some sub
       /\ (name :: rest) `suffix_of` arg_strings
       /\ parse_known_args_sub sub rest = Parsed (subns, [])
       /\ P ns1
       /\ subns !! "vector_database" = None
       /\ args = subns ∪ <["vector_database" := PyStr name]> ns1.
Proof.
  intros HP H0 H. unfold parse_args in H.
  destruct (parse_known_args parser arg_strings) as [[ns [|x extras]]| |] eqn:Ek;
    try discriminate.
  injection H as ->. unfold parse_known_args in Ek.
  destruct (classify (option_string_actions (optionals parser)) arg_strings)
    as [e|toks] eqn:Ec; [discriminate|].
  apply classify_tokens in Ec as [Hs Hok].
  assert (parser_preserves
            (fun ns => P ns /\ ns !! "vector_database" = Some PyNone)
            (optionals parser)) as Hpp.
  { intros os a dest type Hin Ha ns v [Hn Hvd].
    split; [now apply (HP os a dest type Hin Ha)|].
    in_osa Hin; try discriminate.
    all: injection Ha as <- <-; now rewrite lookup_insert_ne. }
  pose proof (scan_inv
                (fun ns => P ns /\ ns !! "vector_database" = Some PyNone)
                (option_string_actions (optionals parser))
                (Some (subparsers_call parser)) (length toks) toks
                (Nat.le_refl _) (tok_ok_preserves _ _ _ Hpp Hok)
                _ [] args []
                (conj H0 (lookup_insert_eq _ _ _)) Ek) as Hinv.
  simpl in Hinv. rewrite Hs in Hinv.
  destruct Hinv
    as [Hno | (ns1 & values & ex & [HP1 _] & Hsuf & Hne & Hcall & Hex)];
    [now left|].
  right. apply suffix_nil_inv in Hex. subst ex.
  destruct values as [|name rest]; [contradiction|].
  unfold subparsers_call in Hcall.
  destruct (assoc name (name_parser_map parser)) as [sub|] eqn:Ea;
    [|discriminate].
  destruct (parse_known_args_sub sub rest) as [[subns ex]| |] eqn:Esub;
    try discriminate.
  injection Hcall as <- ->.
  assert (subns !! "vector_database" = None) as Hnone.
  { apply (parse_known_args_sub_inv
             (fun ns => ns !! "vector_database" = None) sub rest subns []);
      [| |exact Esub];
      destruct (sub_parsers _ _ Ea) as [[_ ->] | [[_ ->] | [_ ->]]];
      try reflexivity;
      intros os a dest type Hin Ha ns v Hn; in_osa Hin; try discriminate;
      injection Ha as <- <-; now rewrite lookup_insert_ne. }
  exists name, sub, rest, subns, ns1. repeat split; auto.
Qed.

Lemma sub_parsers_backend name sub :
  assoc name (name_parser_map parser) = Some sub ->
  exists b, name = subcommand b
            /\ sub = match b with
                     | Pinecone => parser_pinecone
                     | Weaviate => parser_weaviate
                     | Qdrant => parser_qdrant
                     end.
Proof.
  intros H. destruct (sub_parsers _ _ H) as [[-> ->] | [[-> ->] | [-> ->]]];
    [exists Pinecone | exists Weaviate | exists Qdrant]; now split.
Qed.

(** The value [main] dispatches on is [None] or one of the three names,
    and a name is on the command line. *)
Lemma parse_args_vector_database (arg_strings : list string) (args : dict) :
  parse_args parser arg_strings = Parsed args ->
  args !! "vector_database" = Some PyNone
  \/ exists b, args !! "vector_database" = Some (PyStr (subcommand b))
               /\ In (subcommand b) arg_strings.
Proof.
  intros H.
  destruct (parse_args_cases (fun _ => True) _ _ ltac:(now intros) I H)
    as [[_ Hvd] | (name & sub & rest & subns & ns1 & Ea & [pre ->] & _ & _
                   & Hnone & ->)];
    [now left | right].
  destruct (sub_parsers_backend _ _ Ea) as (b & -> & _). exists b. split.
  - now rewrite lookup_union_r, lookup_insert_eq.
  - apply in_app_iff. right. now left.
Qed.

(** [model_name] always holds a string or the empty list, and nothing
    on the command line sets [pinecone_api_key]. *)
Lemma parse_args_model_name_and_key (arg_strings : list string) (args : dict) :
  parse_args parser arg_strings = Parsed args ->
  (exists v, args !! "model_name" = Some v /\ str_or_empty_list v)
  /\ args !! "pinecone_api_key" = None.
Proof.
  intros H.
  set (P := fun ns : dict =>
              (exists v, ns !! "model_name" = Some v /\ str_or_empty_list v)
              /\ ns !! "pinecone_api_key" = None).
  assert (parser_preserves P (optionals parser)) as HP.
  { intros os a dest type Hin Ha ns v [[m Hm] Hk].
    in_osa Hin; try discriminate.
    all: injection Ha as <- <-; split;
      [eexists; split; [apply lookup_insert_eq | apply get_values_str]
      | now rewrite lookup_insert_ne]. }
  assert (P (<["vector_database" := PyNone]> (defaults (optionals parser) ∅)))
    as H0 by (split; [eexists; split; [|right; eexists]|]; reflexivity).
  destruct (parse_args_cases P _ _ HP H0 H)
    as [[HPa _] | (name & sub & rest & subns & ns1 & Ea & _ & Hsub
                   & [(m & Hm & Hsm) Hk] & _ & ->)];
    [exact HPa|].
  assert (subns !! "model_name" = None /\ subns !! "pinecone_api_key" = None)
    as [Hs1 Hs2].
  { apply (parse_known_args_sub_inv
             (fun ns => ns !! "model_name" = None
                        /\ ns !! "pinecone_api_key" = None)
             sub rest subns []); [| |exact Hsub];
      destruct (sub_parsers _ _ Ea) as [[_ ->] | [[_ ->] | [_ ->]]];
      try (split; reflexivity);
      intros os a dest type Hin Ha ns v [Hn1 Hn2]; in_osa Hin;
      try discriminate; injection Ha as <- <-;
      now rewrite !lookup_insert_ne. }
  split.
  - exists m. split; [|exact Hsm].
    now rewrite lookup_union_r, lookup_insert_ne.
  - now rewrite lookup_union_r, lookup_insert_ne.
Qed.

Lemma sub_key_cases b k :
  sub_key b k <->
  match b with
  | Pinecone => k = "environment" \/ k = "index"
  | Weaviate => k = "url" \/ k = "class_name" \/ k = "include_crossrefs"
  | Qdrant => k = "url" \/ k = "collection"
  end.
Proof.
  unfold sub_key. destruct b; simpl; split.
  all: try (intros [[p Hin] Hne];
            repeat (destruct Hin as [[= <- <-] | Hin]); try contradiction;
            auto; congruence).
  all: intros H; repeat (destruct H as [-> | H]); try subst k;
    (split; [eexists; eauto 10 | discriminate]).
Qed.

Lemma sub_defaults b :
  defaults (sub_parser b) ∅
  = match b with
    | Pinecone => <["index" := PyStr "all"]> (<["environment" := PyNone]> ∅)
    | Weaviate =>
        <["include_crossrefs" := PyNone]>
          (<["class_name" := PyNone]> (<["url" := PyNone]> ∅))
    | Qdrant => <["collection" := PyNone]> (<["url" := PyNone]> ∅)
    end.
Proof. now destruct b. Qed.

Lemma sub_namespace b rest (subns : dict) :
  parse_known_args_sub (sub_parser b) rest = Parsed (subns, []) ->
  (forall k, is_Some (subns !! k) <-> sub_key b k)
  /\ (forall k x, subns !! k = Some (PyBool x) -> k = "include_crossrefs").
Proof.
  intros H.
  apply (parse_known_args_sub_inv
           (fun ns : dict =>
              (forall k, is_Some (ns !! k) <-> sub_key b k)
              /\ (forall k x, ns !! k = Some (PyBool x) ->
                              k = "include_crossrefs"))
           (sub_parser b) rest subns []); [| |exact H].
  - intros os a dest type Hin Ha ns v [Hk Hb].
    assert (sub_key b dest
            /\ (forall x, get_values type v = PyBool x ->
                          dest = "include_crossrefs")) as [Hd Ht].
    { rewrite sub_key_cases.
      destruct b; in_osa Hin; try discriminate; injection Ha as <- <-;
        (split; [auto|]); intros x Hx; apply get_values_bool in Hx;
        try discriminate; reflexivity. }
    split.
    + intros k. rewrite lookup_insert_is_Some'. split.
      * intros [<- | Hs]; [exact Hd | now apply Hk].
      * intros Hs. right. now apply Hk.
    + intros k x. destruct (decide (dest = k)) as [<- | Hne].
      * rewrite lookup_insert_eq. intros [= Hv]. now apply (Ht x).
      * rewrite lookup_insert_ne by exact Hne. apply Hb.
  - rewrite sub_defaults. split.
    + intros k. rewrite sub_key_cases.
      destruct b;
        repeat (rewrite lookup_insert_is_Some' || rewrite lookup_empty);
        rewrite is_Some_alt; intuition congruence.
    + intros k x Hl.
      destruct b;
        repeat (apply lookup_insert_Some in Hl as [[_ Hl] | [_ Hl]];
                [discriminate Hl|]);
        now rewrite lookup_empty in Hl.
Qed.

(** X8.  The dict [main] gets from an accepted command line:
    [model_name] is a string, or the empty list when the option was
    given the argument [--]; [vector_database] is [None] or one of the
    three names, and then that name is on the command line; the keys are
    [model_name], [vector_database] and those of the table of the
    selected driver, and no others, so [pinecone_api_key] is never among
    them; and only [include_crossrefs] can hold a [bool]. *)
Theorem parse_args_namespace (arg_strings : list string) (args : dict) :
  parse_args parser arg_strings = Parsed args ->
  (exists v, args !! "model_name" = Some v /\ str_or_empty_list v)
  /\ (forall k x, args !! k = Some (PyBool x) -> k = "include_crossrefs")
  /\ ((args !! "vector_database" = Some PyNone
       /\ forall k, is_Some (args !! k) <->
            k = "model_name" \/ k = "vector_database")
      \/ exists b,
           args !! "vector_database" = Some (PyStr (subcommand b))
           /\ In (subcommand b) arg_strings
           /\ forall k, is_Some (args !! k) <->
                k = "model_name" \/ k = "vector_database"
                \/ exists p, In (k, p) (input_table b)).
Proof.
  intros H.
  set (P := fun ns : dict =>
              (exists v, ns !! "model_name" = Some v /\ str_or_empty_list v)
              /\ (forall k, is_Some (ns !! k) <->
                    k = "model_name" \/ k = "vector_database")
              /\ (forall k x, ns !! k <> Some (PyBool x))).
  assert (parser_preserves P (optionals parser)) as HP.
  { intros os a dest type Hin Ha ns v ([m Hm] & Hk & Hb).
    in_osa Hin; try discriminate.
    all: injection Ha as <- <-; split; [|split].
    all: try (eexists; split; [apply lookup_insert_eq | apply get_values_str]).
    all: try (intros k; rewrite lookup_insert_is_Some', Hk; intuition).
    all: intros k x; destruct (decide ("model_name" = k)) as [<- | Hne];
      [rewrite lookup_insert_eq; intros [= Hx];
       now apply get_values_bool in Hx
      | rewrite lookup_insert_ne by exact Hne; apply Hb]. }
  assert (P (<["vector_database" := PyNone]> (defaults (optionals parser) ∅)))
    as H0.
  { assert (defaults (optionals parser) ∅
            = <["model_name" := PyStr "text-embedding-ada-002"]> ∅) as ->
      by reflexivity.
    split; [eexists; split; [reflexivity | right; now eexists]|]. split.
    - intros k.
      rewrite !lookup_insert_is_Some', lookup_empty, is_Some_alt.
      intuition congruence.
    - intros k x Hl.
      repeat (apply lookup_insert_Some in Hl as [[_ Hl] | [_ Hl]];
              [discriminate Hl|]).
      now rewrite lookup_empty in Hl. }
  destruct (parse_args_cases P _ _ HP H0 H)
    as [[([m Hm] & Hk & Hb) Hvd]
       | (name & sub & rest & subns & ns1 & Ea & [pre ->] & Hsub
          & ((m & Hm & Hms) & Hk & Hb) & Hnone & ->)].
  { split; [eauto|]. split; [intros k x Hl; now destruct (Hb k x)|].
    left. now split. }
  destruct (sub_parsers_backend _ _ Ea) as (b & -> & ->).
  fold (sub_parser b) in Hsub.
  destruct (sub_namespace _ _ _ Hsub) as [Hsk Hsb].
  assert (subns !! "model_name" = None) as Hsm.
  { apply eq_None_not_Some. rewrite Hsk. now intros [_ []]. }
  split; [|split].
  - exists m. split; [|exact Hms].
    now rewrite lookup_union_r, lookup_insert_ne.
  - intros k x Hl. apply lookup_union_Some_raw in Hl as [Hl | [_ Hl]].
    + now apply (Hsb k x).
    + apply lookup_insert_Some in Hl as [[_ Hl] | [_ Hl]];
        [discriminate Hl | now destruct (Hb k x)].
  - right. exists b. split; [|split].
    + now rewrite lookup_union_r, lookup_insert_eq.
    + apply in_app_iff. right. now left.
    + intros k.
      rewrite lookup_union_is_Some, lookup_insert_is_Some', Hsk, Hk.
      unfold sub_key. split.
      * intros [[Hp _] | [<- | [-> | ->]]]; auto.
      * intros [-> | [-> | Hp]]; auto.
        destruct (decide (k = "model_name")) as [-> | Hne]; auto.
Qed.

Lemma parse_args_namespace_witness :
  (exists v, docstring_weaviate_args !! "model_name" = Some v
             /\ str_or_empty_list v)
  /\ (forall k x, docstring_weaviate_args !! k = Some (PyBool x) ->
                  k = "include_crossrefs")
  /\ ((docstring_weaviate_args !! "vector_database" = Some PyNone
       /\ forall k, is_Some (docstring_weaviate_args !! k) <->
            k = "model_name" \/ k = "vector_database")
      \/ exists b,
           docstring_weaviate_args !! "vector_database"
           = Some (PyStr (subcommand b))
           /\ In (subcommand b) docstring_weaviate_argv
           /\ forall k, is_Some (docstring_weaviate_args !! k) <->
                k = "model_name" \/ k = "vector_database"
                \/ exists p, In (k, p) (input_table b)).
Proof.
  apply (parse_args_namespace docstring_weaviate_argv).
  vm_compute. reflexivity.
Defined.

(** ** The runs of [main] *)

Lemma adapter_phase_backend w b a cr tr r calls e :
  adapter_phase w b a cr tr r calls -> In e calls ->
  is_adapter_call e = true /\ backend_of e = Some b.
Proof.
  intros AP Hin. inversion AP; subst; simpl in Hin.
  - destruct Hin as [<- | []]. now split.
  - destruct Hin as [<- | [<- | []]]; now split.
  - destruct Hin as [<- | [<- | Hin]]; try now split.
    apply List.in_map_iff in Hin as (n & <- & _). now split.
Qed.

Lemma export_events w b (args : dict) st r st' :
  export w b args st = (r, st') ->
  exists evs, trace st' = trace st ++ evs
              /\ evs <> []
              /\ Forall (driver_event b) evs.
Proof.
  intros H.
  destruct (export_shape _ _ _ _ _ _ H)
    as (prompts & Hp & [[-> T] | (a & calls & T & _ & AP)]).
  - exists prompts. split; [exact T|]. split.
    + destruct (export_eof_last _ _ _ _ _ H) as (pre & e & T' & _).
      rewrite T' in T. apply app_inv_head in T. subst prompts.
      now destruct pre.
    + eapply Forall_impl; [exact Hp|]. intros e He. left.
      now apply (asked_is_prompt w b args).
  - exists (prompts ++ preamble b a ++ calls). split; [exact T|]. split.
    + destruct (adapter_phase_starts_with_new _ _ _ _ _ _ _ AP) as [rest ->].
      intros E. apply app_eq_nil in E as [_ E].
      apply app_eq_nil in E as [_ E]. discriminate.
    + apply Forall_app. split; [|apply Forall_app; split].
      * eapply Forall_impl; [exact Hp|]. intros e He. left.
        now apply (asked_is_prompt w b args).
      * destruct b; simpl;
          [constructor; [right; left; eauto | constructor]
          | constructor | constructor].
      * apply List.Forall_forall. intros e He. right. right.
        now apply (adapter_phase_backend _ _ _ _ _ _ _ _ AP).
Qed.

(** Every way a run of [main] can go, with a program name in
    [sys.argv] and two frames or more. *)
Lemma main_run w depth st r st' :
  argv st <> [] ->
  main w (S (S depth)) st = (r, st') ->
  (exists err,
     parse_args parser (tail (argv st)) = ParseError err
     /\ r = Raised (SystemExit 2) /\ st' = log (EvError err) st)
  \/ (parse_args parser (tail (argv st)) = HelpExit
      /\ r = Raised (SystemExit 0) /\ st' = log EvHelp st)
  \/ (exists args b r0 st0,
        parse_args parser (tail (argv st)) = Parsed args
        /\ args !! "vector_database" = Some (PyStr (subcommand b))
        /\ In (subcommand b) (tail (argv st))
        /\ export w b args st = (r0, st0)
        /\ ((exists a, r0 = Ok a /\ r = Ok tt
                       /\ st' = log (EvPrint (PText "Export completed.")) st0)
            \/ (exists e, r0 = Raised e /\ r = Raised e /\ st' = st0)))
  \/ (exists args,
        parse_args parser (tail (argv st)) = Parsed args
        /\ args !! "vector_database" = Some PyNone
        /\ ((r = Raised EOFError
             /\ trace st' = trace st ++
                  [ EvPrint (PText "Invalid vector database");
                    EvInput vector_database_prompt None ])
            \/ exists line code last,
                 r = Raised (SystemExit code)
                 /\ trace st' = trace st ++
                      [ EvPrint (PText "Invalid vector database");
                        EvInput vector_database_prompt (Some line);
                        last ]
                 /\ ((code = 2%Z /\ exists err, last = EvError err)
                     \/ (code = 0%Z /\ last = EvHelp)))).
Proof.
  intros Hargv H. rewrite (main_two_frames_suffice w depth st Hargv) in H.
  destruct (parse_args parser (tail (argv st))) as [args|err|] eqn:Ep.
  - destruct (parse_args_vector_database _ _ Ep) as [Hvd | (b & Hvd & Hin)].
    + right. right. right. exists args. split; [reflexivity|].
      split; [exact Hvd|].
      rewrite (main_no_backend w 1 st args (parse_sys_argv_parsed _ _ Ep) Hvd)
        in H.
      set (st1 := log (EvPrint (PText "Invalid vector database")) st) in *.
      assert (print (PText "Invalid vector database") st = (Ok tt, st1)) as E1
        by reflexivity.
      destruct (stdin st) as [|line lines] eqn:Hstdin.
      { assert (input vector_database_prompt st1
                = (Raised EOFError,
                   log (EvInput vector_database_prompt None) st1)) as E2
          by (unfold input; simpl; now rewrite Hstdin).
        rewrite (bind_raised _ _ _ EOFError
                   (log (EvInput vector_database_prompt None) st1)) in H.
        2:{ now rewrite (bind_ok _ _ _ _ _ E1), (bind_raised _ _ _ _ _ E2). }
        injection H as <- <-. left. split; [reflexivity|].
        simpl. now rewrite <- app_assoc. }
      right. exists line.
      set (st2 := log (EvInput vector_database_prompt (Some line))
                    (State (argv st1) lines (tty st1) (trace st1))).
      assert (input vector_database_prompt st1 = (Ok line, st2)) as E2
        by (unfold input; simpl; now rewrite Hstdin).
      set (st3 := State (argv st2 ++ ["--vector_database"; line]) (stdin st2)
                    (tty st2) (trace st2)).
      assert (sys_argv_extend ["--vector_database"; line] st2 = (Ok tt, st3))
        as E3 by reflexivity.
      assert (trace st3 = trace st ++
                [ EvPrint (PText "Invalid vector database");
                  EvInput vector_database_prompt (Some line) ]) as T3
        by (simpl; now rewrite <- app_assoc).
      assert (forall e s, parse_sys_argv st3 = (Raised e, s) ->
              r = Raised e /\ st' = s) as Hrun.
      { intros e s Hps.
        rewrite (bind_raised _ _ _ e s) in H; [now injection H as <- <-|].
        rewrite (bind_ok _ _ _ _ _ E1), (bind_ok _ _ _ _ _ E2),
          (bind_ok _ _ _ _ _ E3).
        simpl main. now apply bind_raised. }
      unfold parse_sys_argv in Hrun.
      destruct (argv st) as [|prog rest] eqn:Ha; [contradiction|].
      assert (tail (argv st3) = rest ++ ["--vector_database"; line]) as Ht
        by (simpl; now rewrite Ha).
      rewrite Ht in Hrun.
      pose proof (parse_args_rejects_vector_database_flag
                    (rest ++ ["--vector_database"; line])
                    ltac:(rewrite in_app_iff; right; now left)) as Hrej.
      destruct (parse_args parser (rest ++ ["--vector_database"; line]))
        as [ns | err | ].
      * now destruct (Hrej ns).
      * destruct (Hrun _ _ eq_refl) as [-> ->].
        exists 2%Z, (EvError err). split; [reflexivity|]. split.
        -- simpl trace in *. now rewrite T3, <- app_assoc.
        -- left. eauto.
      * destruct (Hrun _ _ eq_refl) as [-> ->].
        exists 0%Z, EvHelp. split; [reflexivity|]. split.
        -- simpl trace in *. now rewrite T3, <- app_assoc.
        -- right. eauto.
    + right. right. left. rewrite (main_backend w 1 st args b Ep Hvd) in H.
      destruct (export w b args st) as [r0 st0] eqn:He.
      exists args, b, r0, st0. repeat (split; [assumption || reflexivity|]).
      destruct r0 as [a|e]; injection H as <- <-; [left | right]; eauto.
  - left. exists err. split; [reflexivity|].
    assert (parse_sys_argv st
            = (Raised (SystemExit 2), log (EvError err) st)) as Hps
      by (unfold parse_sys_argv; now rewrite Ep).
    simpl main in H. rewrite (bind_raised _ _ _ _ _ Hps) in H.
    now injection H as <- <-.
  - right. left. split; [reflexivity|].
    assert (parse_sys_argv st = (Raised (SystemExit 0), log EvHelp st)) as Hps
      by (unfold parse_sys_argv; now rewrite Ep).
    simpl main in H. rewrite (bind_raised _ _ _ _ _ Hps) in H.
    now injection H as <- <-.
Qed.

Lemma driver_event_not_text b s : ~ driver_event b (EvPrint (PText s)).
Proof. intros [[=] | [[a [=]] | [[=] _]]]. Qed.

Lemma adapter_calls_app evs1 evs2 :
  adapter_calls (evs1 ++ evs2) = adapter_calls evs1 ++ adapter_calls evs2.
Proof. apply List.filter_app. Qed.

Lemma driver_event_calls b evs :
  Forall (driver_event b) evs ->
  Forall (fun e => backend_of e = Some b) (adapter_calls evs).
Proof.
  induction 1 as [|e evs He _ IH]; [constructor|].
  unfold adapter_calls in *. simpl.
  destruct (is_adapter_call e) eqn:Hc; [|exact IH].
  constructor; [|exact IH].
  destruct He as [Hp | [[a ->] | [_ Hb]]]; [now destruct e | discriminate
                                           | exact Hb].
Qed.

(** X9.  With a program name in [sys.argv] and room for two frames,
    [main] returns or ends in one of four ways: [EOFError] from a prompt,
    the exception of an adapter, [SystemExit(2)] after a usage error or
    [SystemExit(0)] after the help.  It never fails on a missing key and
    it calls itself at most once.  ["Export completed."] is printed
    exactly when [main] returns, never on a run that fails. *)
Theorem main_outcomes
    (w : world) (depth : nat) (st : state) (r : outcome unit) (st' : state) :
  argv st <> [] ->
  main w (S (S depth)) st = (r, st') ->
  exists evs,
    trace st' = trace st ++ evs
    /\ (r = Ok tt \/ r = Raised EOFError \/ r = Raised AdapterError
        \/ r = Raised (SystemExit 0) \/ r = Raised (SystemExit 2))
    /\ (r = Ok tt <-> In (EvPrint (PText "Export completed.")) evs)
    /\ (forall code, r = Raised (SystemExit code) ->
        exists tr,
          (code = 2%Z /\ exists err, evs = tr ++ [EvError err])
          \/ (code = 0%Z /\ evs = tr ++ [EvHelp])).
Proof.
  intros Hargv H.
  destruct (main_run _ _ _ _ _ Hargv H)
    as [(err & _ & -> & ->)
       | [(_ & -> & ->)
         | [(args & b & r0 & st0 & _ & _ & _ & He & Hr)
           | (args & _ & _ & [[-> T] | (line & code & last & -> & T & Hc)])]]].
  - exists [EvError err]. split; [reflexivity|]. split; [auto 10|]. split.
    + split; [discriminate | now intros [[=] | []]].
    + intros code [= <-]. exists []. left. eauto.
  - exists [EvHelp]. split; [reflexivity|]. split; [auto 10|]. split.
    + split; [discriminate | now intros [[=] | []]].
    + intros code [= <-]. exists []. now right.
  - destruct (export_events _ _ _ _ _ _ He) as (evs & T & _ & Hev).
    destruct Hr as [(a & -> & -> & ->) | (e & -> & -> & ->)].
    + exists (evs ++ [EvPrint (PText "Export completed.")]).
      split; [simpl; now rewrite T, <- app_assoc|]. split; [auto|]. split.
      * split; [intros _; apply in_app_iff; right; now left | reflexivity].
      * discriminate.
    + exists evs. split; [exact T|].
      assert (~ In (EvPrint (PText "Export completed.")) evs) as Hno.
      { intros Hin. rewrite List.Forall_forall in Hev. apply Hev in Hin.
        now apply driver_event_not_text in Hin. }
      destruct (export_result_cases _ _ _ _ _ _ He) as [[a [=]] | [[= ->] | [= ->]]].
      * split; [auto|]. split; [split; [discriminate | tauto]|]. discriminate.
      * split; [auto|]. split; [split; [discriminate | tauto]|]. discriminate.
  - eexists. split; [exact T|]. split; [auto|]. split.
    + split; [discriminate | now intros [[=] | [[=] | []]]].
    + discriminate.
  - eexists. split; [exact T|]. split.
    { destruct Hc as [[-> _] | [-> _]]; auto 10. }
    split.
    + split; [discriminate|]. intros [[=] | [[=] | [Hl | []]]].
      subst last. destruct Hc as [[_ [err [=]]] | [_ [=]]].
    + intros code' [= <-].
      exists [ EvPrint (PText "Invalid vector database");
               EvInput vector_database_prompt (Some line) ].
      destruct Hc as [[-> [err ->]] | [-> ->]]; [left | right]; eauto.
Qed.

Lemma main_outcomes_witness :
  exists evs,
    trace (snd (main example_world 2
                  (State ["export.py"; "qdrant"] ["u"] [] [])))
    = [] ++ evs
    /\ (fst (main example_world 2
               (State ["export.py"; "qdrant"] ["u"] [] [])) = Ok tt
        \/ fst (main example_world 2
                  (State ["export.py"; "qdrant"] ["u"] [] []))
           = Raised EOFError
        \/ fst (main example_world 2
                  (State ["export.py"; "qdrant"] ["u"] [] []))
           = Raised AdapterError
        \/ fst (main example_world 2
                  (State ["export.py"; "qdrant"] ["u"] [] []))
           = Raised (SystemExit 0)
        \/ fst (main example_world 2
                  (State ["export.py"; "qdrant"] ["u"] [] []))
           = Raised (SystemExit 2))
    /\ (fst (main example_world 2
               (State ["export.py"; "qdrant"] ["u"] [] [])) = Ok tt
        <-> In (EvPrint (PText "Export completed.")) evs)
    /\ (forall code,
          fst (main example_world 2
                 (State ["export.py"; "qdrant"] ["u"] [] []))
          = Raised (SystemExit code) ->
          exists tr,
            (code = 2%Z /\ exists err, evs = tr ++ [EvError err])
            \/ (code = 0%Z /\ evs = tr ++ [EvHelp])).
Proof.
  apply (main_outcomes example_world 0
           (State ["export.py"; "qdrant"] ["u"] [] [])).
  - discriminate.
  - vm_compute. reflexivity.
Defined.

(** X10.  Every call into an adapter that a run of [main] makes goes to
    the backend whose name is on the command line.  A run whose command
    line is rejected, asks for help or names no backend makes no such
    call at all. *)
Theorem main_calls_selected_backend_only
    (w : world) (depth : nat) (st : state) (r : outcome unit) (st' : state) :
  argv st <> [] ->
  main w (S (S depth)) st = (r, st') ->
  exists evs,
    trace st' = trace st ++ evs
    /\ (adapter_calls evs = []
        \/ exists args b,
             parse_args parser (tail (argv st)) = Parsed args
             /\ args !! "vector_database" = Some (PyStr (subcommand b))
             /\ In (subcommand b) (tail (argv st))
             /\ Forall (fun e => backend_of e = Some b) (adapter_calls evs)).
Proof.
  intros Hargv H.
  destruct (main_run _ _ _ _ _ Hargv H)
    as [(err & _ & -> & ->)
       | [(_ & -> & ->)
         | [(args & b & r0 & st0 & Hp & Hvd & Hin & He & Hr)
           | (args & _ & _ & [[-> T] | (line & code & last & -> & T & Hc)])]]].
  - exists [EvError err]. split; [reflexivity | now left].
  - exists [EvHelp]. split; [reflexivity | now left].
  - destruct (export_events _ _ _ _ _ _ He) as (evs & T & _ & Hev).
    apply driver_event_calls in Hev.
    destruct Hr as [(a & -> & -> & ->) | (e & -> & -> & ->)].
    + exists (evs ++ [EvPrint (PText "Export completed.")]).
      split; [simpl; now rewrite T, <- app_assoc|]. right.
      exists args, b. rewrite adapter_calls_app. simpl. rewrite app_nil_r.
      auto.
    + exists evs. split; [exact T|]. right. exists args, b. auto.
  - eexists. split; [exact T | now left].
  - eexists. split; [exact T|]. left.
    destruct Hc as [[_ [err ->]] | [_ ->]]; reflexivity.
Qed.

Lemma main_calls_selected_backend_only_witness :
  exists evs,
    trace (snd (main example_world 2
                  (State ("export.py" :: docstring_weaviate_argv) [] [] [])))
    = [] ++ evs
    /\ (adapter_calls evs = []
        \/ exists args b,
             parse_args parser docstring_weaviate_argv = Parsed args
             /\ args !! "vector_database" = Some (PyStr (subcommand b))
             /\ In (subcommand b) docstring_weaviate_argv
             /\ Forall (fun e => backend_of e = Some b) (adapter_calls evs)).
Proof.
  apply (main_calls_selected_backend_only example_world 0
           (State ("export.py" :: docstring_weaviate_argv) [] [] [])
           (fst (main example_world 2
                   (State ("export.py" :: docstring_weaviate_argv) [] [] [])))).
  - discriminate.
  - vm_compute. reflexivity.
Defined.

(** X11.  Under [main], the pinecone driver never asks for the model
    name, which the parser always sets, and hands it on as parsed.  No
    option sets [pinecone_api_key], so the key the adapter gets is the
    value of [PINECONE_API_KEY] when that is set and the line typed at
    the [getpass] prompt otherwise: it cannot be given on the command
    line. *)
Theorem main_pinecone_model_name_and_key
    (w : world) (depth : nat) (st : state) (args : dict)
    (r : outcome unit) (st' : state) :
  parse_args parser (tail (argv st)) = Parsed args ->
  args !! "vector_database" = Some (PyStr "pinecone") ->
  main w (S depth) st = (r, st') ->
  exists evs,
    trace st' = trace st ++ evs
    /\ (forall l, ~ In (EvInput model_name_prompt l) evs)
    /\ (forall a rest,
          adapter_calls evs = EvNew Pinecone a :: rest ->
          a !! "model_name" = args !! "model_name"
          /\ match getenv w "PINECONE_API_KEY" with
             | Some s => a !! "pinecone_api_key" = Some (PyStr s)
             | None =>
                 exists l, In (EvGetpass api_key_prompt (Some l)) evs
                           /\ a !! "pinecone_api_key" = Some (PyStr l)
             end).
Proof.
  intros Hp Hvd H.
  destruct (parse_args_model_name_and_key _ _ Hp) as [(m & Hm & Hms) Hk].
  assert (missing args "model_name" = false) as Mm
    by (unfold missing; rewrite Hm; now destruct Hms as [-> | [s ->]]).
  assert (missing args "pinecone_api_key" = true) as Mk
    by (unfold missing; now rewrite Hk).
  rewrite (main_backend w depth st args Pinecone Hp Hvd) in H.
  destruct (export w Pinecone args st) as [r0 st0] eqn:He.
  assert (exists evs,
            trace st0 = trace st ++ evs
            /\ (forall l, ~ In (EvInput model_name_prompt l) evs)
            /\ (forall a rest,
                  adapter_calls evs = EvNew Pinecone a :: rest ->
                  a !! "model_name" = args !! "model_name"
                  /\ match getenv w "PINECONE_API_KEY" with
                     | Some s => a !! "pinecone_api_key" = Some (PyStr s)
                     | None =>
                         exists l,
                           In (EvGetpass api_key_prompt (Some l)) evs
                           /\ a !! "pinecone_api_key" = Some (PyStr l)
                     end)) as (evs & T & Hno & Hnew).
  { assert (forall prompts l, Forall (asked w Pinecone args) prompts ->
              ~ In (EvInput model_name_prompt l) prompts) as Hpr.
    { intros prompts l Ha Hin. rewrite List.Forall_forall in Ha.
      apply Ha in Hin.
      apply (asked_input_key _ _ _ "model_name") in Hin;
        [congruence | simpl; auto]. }
    destruct (export_shape _ _ _ _ _ _ He)
      as (prompts & Ha & [[-> T] | (a & calls & T & [Hf (v & Hv & Hs)] & AP)]).
    - exists prompts. split; [exact T|]. split; [intros l; now apply Hpr|].
      intros a rest Hc. rewrite (adapter_calls_prompts _ _ _ _ Ha) in Hc.
      discriminate.
    - exists (prompts ++ preamble Pinecone a ++ calls). split; [exact T|].
      split.
      + intros l Hl. rewrite !in_app_iff in Hl.
        destruct Hl as [Hl | [Hl | Hl]].
        * now apply (Hpr prompts l).
        * now destruct Hl as [[=] | []].
        * apply (adapter_phase_is_adapter_call _ _ _ _ _ _ _ _ AP) in Hl.
          discriminate.
      + intros a' rest Hc.
        rewrite (adapter_calls_run _ _ _ _ _ _ _ _ Ha AP) in Hc.
        assert (a' = a) as ->
          by (revert Hc; inversion AP; subst; intros Hc; now injection Hc).
        split.
        * specialize (Hf "model_name" model_name_prompt
                        ltac:(simpl; auto) ltac:(discriminate)).
          now rewrite Mm in Hf.
        * destruct (getenv w "PINECONE_API_KEY") as [s|];
            [now rewrite Hv, Hs|].
          rewrite Mk in Hs. destruct Hs as (l & -> & Hin).
          exists l. split; [|exact Hv]. apply in_app_iff. now left. }
  destruct r0 as [a|e]; injection H as <- <-.
  - exists (evs ++ [EvPrint (PText "Export completed.")]).
    split; [simpl; now rewrite T, <- app_assoc|]. split.
    + intros l Hl. apply in_app_iff in Hl as [Hl | [[=] | []]].
      now apply (Hno l).
    + intros a' rest Hc. rewrite adapter_calls_app in Hc. simpl in Hc.
      rewrite app_nil_r in Hc. destruct (Hnew a' rest Hc) as [H1 H2].
      split; [exact H1|].
      destruct (getenv w "PINECONE_API_KEY"); [exact H2|].
      destruct H2 as (l & Hin & Hl). exists l. split; [|exact Hl].
      apply in_app_iff. now left.
  - exists evs. now split.
Qed.

Lemma main_pinecone_model_name_and_key_witness :
  exists evs,
    trace (snd (main example_world 1
                  (State ["export.py"; "pinecone"; "-e"; "us-west1-gcp"]
                     [] ["sk"] [])))
    = [] ++ evs
    /\ (forall l, ~ In (EvInput model_name_prompt l) evs)
    /\ (forall a rest,
          adapter_calls evs = EvNew Pinecone a :: rest ->
          a !! "model_name"
          = ({[ "model_name" := PyStr "text-embedding-ada-002";
                "vector_database" := PyStr "pinecone";
                "environment" := PyStr "us-west1-gcp";
                "index" := PyStr "all" ]} : dict) !! "model_name"
          /\ exists l, In (EvGetpass api_key_prompt (Some l)) evs
                       /\ a !! "pinecone_api_key" = Some (PyStr l)).
Proof.
  apply (main_pinecone_model_name_and_key example_world 0
           (State ["export.py"; "pinecone"; "-e"; "us-west1-gcp"] [] ["sk"] [])
           {[ "model_name" := PyStr "text-embedding-ada-002";
              "vector_database" := PyStr "pinecone";
              "environment" := PyStr "us-west1-gcp";
              "index" := PyStr "all" ]}
           (fst (main example_world 1
                   (State ["export.py"; "pinecone"; "-e"; "us-west1-gcp"]
                      [] ["sk"] [])))).
  - vm_compute. reflexivity.
  - vm_compute. reflexivity.
  - vm_compute. reflexivity.
Defined.

(** ** The command lines of the docstring *)

Lemma classify_argument osa s rest :
  starts_with_dash s = false ->
  classify osa (s :: rest)
  = match classify osa rest with
    | inl e => inl e
    | inr toks => inr (TokA s :: toks)
    end.
Proof.
  intros H. simpl classify.
  destruct (String.eqb_spec s "--") as [-> | _]; [discriminate|].
  unfold parse_optional. now rewrite H.
Qed.

Lemma classify_option osa s t rest :
  String.eqb s "--" = false ->
  parse_optional osa s = inr (Some t) ->
  classify osa (s :: rest)
  = match classify osa rest with
    | inl e => inl e
    | inr toks => inr (TokO s t :: toks)
    end.
Proof. intros H1 H2. simpl classify. now rewrite H1, H2. Qed.

(** One option and its value, for a parser [p] that knows the option
    string [o] and for one that does not. *)
Lemma classify_pair osa o t s rest :
  String.eqb o "--" = false ->
  parse_optional osa o = inr (Some t) ->
  starts_with_dash s = false ->
  classify osa (o :: s :: rest)
  = match classify osa rest with
    | inl e => inl e
    | inr toks => inr (TokO o t :: TokA s :: toks)
    end.
Proof.
  intros H1 H2 H3.
  rewrite (classify_option _ _ _ _ H1 H2), (classify_argument _ _ _ H3).
  now destruct (classify osa rest).
Qed.

(** An argument that does not start with a dash is converted as it
    is. *)
Lemma get_values_argument t s :
  starts_with_dash s = false -> get_values t s = get_value t s.
Proof.
  intros H. unfold get_values.
  destruct (String.eqb_spec s "--") as [-> | _]; [discriminate | reflexivity].
Qed.

Lemma sub_parse_pair (p : option_parser) o1 a1 d1 t1 s1 o2 a2 d2 t2 s2 :
  parse_optional (option_string_actions p) o1 = inr (Some (Some a1, o1, None)) ->
  parse_optional (option_string_actions p) o2 = inr (Some (Some a2, o2, None)) ->
  String.eqb o1 "--" = false -> String.eqb o2 "--" = false ->
  act a1 = Store d1 t1 -> act a2 = Store d2 t2 ->
  starts_with_dash s1 = false -> starts_with_dash s2 = false ->
  parse_known_args_sub p [o1; s1; o2; s2]
  = Parsed (<[d2 := get_value t2 s2]>
              (<[d1 := get_value t1 s1]> (defaults p ∅)), []).
Proof.
  intros P1 P2 N1 N2 A1 A2 S1 S2. unfold parse_known_args_sub.
  rewrite (classify_pair _ _ _ _ _ N1 P1 S1),
    (classify_pair _ _ _ _ _ N2 P2 S2).
  rewrite <- (get_values_argument t1 s1 S1), <- (get_values_argument t2 s2 S2).
  simpl. now rewrite A1, A2.
Qed.

Lemma sub_parse_triple (p : option_parser)
    o1 a1 d1 t1 s1 o2 a2 d2 t2 s2 o3 a3 d3 t3 s3 :
  parse_optional (option_string_actions p) o1 = inr (Some (Some a1, o1, None)) ->
  parse_optional (option_string_actions p) o2 = inr (Some (Some a2, o2, None)) ->
  parse_optional (option_string_actions p) o3 = inr (Some (Some a3, o3, None)) ->
  String.eqb o1 "--" = false -> String.eqb o2 "--" = false ->
  String.eqb o3 "--" = false ->
  act a1 = Store d1 t1 -> act a2 = Store d2 t2 -> act a3 = Store d3 t3 ->
  starts_with_dash s1 = false -> starts_with_dash s2 = false ->
  starts_with_dash s3 = false ->
  parse_known_args_sub p [o1; s1; o2; s2; o3; s3]
  = Parsed (<[d3 := get_value t3 s3]>
              (<[d2 := get_value t2 s2]>
                 (<[d1 := get_value t1 s1]> (defaults p ∅))), []).
Proof.
  intros P1 P2 P3 N1 N2 N3 A1 A2 A3 S1 S2 S3. unfold parse_known_args_sub.
  rewrite (classify_pair _ _ _ _ _ N1 P1 S1),
    (classify_pair _ _ _ _ _ N2 P2 S2), (classify_pair _ _ _ _ _ N3 P3 S3).
  rewrite <- (get_values_argument t1 s1 S1), <- (get_values_argument t2 s2 S2),
    <- (get_values_argument t3 s3 S3).
  simpl. now rewrite A1, A2, A3.
Qed.

(** The main parser, on a command line that starts with the name of a
    sub-command, hands everything after the name to the sub-parser. *)
Lemma parse_args_sub_command (b : backend) rest (subns : dict) :
  match classify (option_string_actions (optionals parser)) rest with
  | inl _ => False
  | inr _ => True
  end ->
  parse_known_args_sub (sub_parser b) rest = Parsed (subns, []) ->
  parse_args parser (subcommand b :: rest)
  = Parsed (subns ∪
              <["vector_database" := PyStr (subcommand b)]>
                (<["vector_database" := PyNone]>
                   (defaults (optionals parser) ∅))).
Proof.
  intros Hc Hsub. unfold parse_args, parse_known_args.
  rewrite classify_argument by now destruct b.
  destruct (classify (option_string_actions (optionals parser)) rest)
    as [e|toks] eqn:Ec; [contradiction|].
  apply classify_tokens in Ec as [Hs _].
  cbn [scan]. cbn [map token_string]. rewrite Hs.
  unfold subparsers_call.
  assert (assoc (subcommand b) (name_parser_map parser)
          = Some (sub_parser b)) as -> by now destruct b.
  now rewrite Hsub.
Qed.

Ltac no_dash := first [assumption | reflexivity].

Lemma parse_pinecone_usage (e i : string) :
  starts_with_dash e = false -> starts_with_dash i = false ->
  parse_args parser ["pinecone"; "-e"; e; "-i"; i]
  = Parsed {[ "model_name" := PyStr "text-embedding-ada-002";
              "vector_database" := PyStr "pinecone";
              "environment" := PyStr e;
              "index" := PyStr i ]}.
Proof.
  intros He Hi.
  rewrite (parse_args_sub_command Pinecone _
             (<["index" := PyStr i]>
                (<["environment" := PyStr e]> (defaults parser_pinecone ∅)))).
  - vm_compute. reflexivity.
  - rewrite (classify_pair _ "-e" (None, "-e", None)),
      (classify_pair _ "-i" (None, "-i", None)); try no_dash; try exact I.
  - eapply (sub_parse_pair parser_pinecone "-e" _ "environment" TStr e
              "-i" _ "index" TStr i); no_dash.
Qed.

Lemma parse_weaviate_usage (u c v : string) :
  starts_with_dash u = false -> starts_with_dash c = false ->
  starts_with_dash v = false ->
  parse_args parser ["weaviate"; "-u"; u; "-c"; c; "-i"; v]
  = Parsed {[ "model_name" := PyStr "text-embedding-ada-002";
              "vector_database" := PyStr "weaviate";
              "url" := PyStr u;
              "class_name" := PyStr c;
              "include_crossrefs" := PyBool (negb (String.eqb v "")) ]}.
Proof.
  intros Hu Hc Hv.
  rewrite (parse_args_sub_command Weaviate _
             (<["include_crossrefs" := PyBool (negb (String.eqb v ""))]>
                (<["class_name" := PyStr c]>
                   (<["url" := PyStr u]> (defaults parser_weaviate ∅))))).
  - vm_compute. reflexivity.
  - rewrite (classify_pair _ "-u" (None, "-u", None)),
      (classify_pair _ "-c" (None, "-c", None)),
      (classify_pair _ "-i" (None, "-i", None)); try no_dash; try exact I.
  - eapply (sub_parse_triple parser_weaviate "-u" _ "url" TStr u
              "-c" _ "class_name" TStr c
              "-i" _ "include_crossrefs" TBool v); no_dash.
Qed.

Lemma parse_qdrant_usage (u c : string) :
  starts_with_dash u = false -> starts_with_dash c = false ->
  parse_args parser ["qdrant"; "-u"; u; "-c"; c]
  = Parsed {[ "model_name" := PyStr "text-embedding-ada-002";
              "vector_database" := PyStr "qdrant";
              "url" := PyStr u;
              "collection" := PyStr c ]}.
Proof.
  intros Hu Hc.
  rewrite (parse_args_sub_command Qdrant _
             (<["collection" := PyStr c]>
                (<["url" := PyStr u]> (defaults parser_qdrant ∅)))).
  - vm_compute. reflexivity.
  - rewrite (classify_pair _ "-u" (None, "-u", None)),
      (classify_pair _ "-c" (None, "-c", None)); try no_dash; try exact I.
  - eapply (sub_parse_pair parser_qdrant "-u" _ "url" TStr u
              "-c" _ "collection" TStr c); no_dash.
Qed.

(** X12.  The three command lines of the docstring, for any values
    that do not start with a dash: each is accepted, and each value is
    stored as given under the key of its option, next to the default
    model name and the name of the sub-command.  The value of the
    weaviate option [-i] is the exception: it is stored as the [bool]
    that tells whether it is non-empty. *)
Theorem parse_args_documented_usage (e i u c v : string) :
  Forall (fun s => starts_with_dash s = false) [e; i; u; c; v] ->
  parse_args parser ["pinecone"; "-e"; e; "-i"; i]
  = Parsed {[ "model_name" := PyStr "text-embedding-ada-002";
              "vector_database" := PyStr "pinecone";
              "environment" := PyStr e;
              "index" := PyStr i ]}
  /\ parse_args parser ["weaviate"; "-u"; u; "-c"; c; "-i"; v]
     = Parsed {[ "model_name" := PyStr "text-embedding-ada-002";
                 "vector_database" := PyStr "weaviate";
                 "url" := PyStr u;
                 "class_name" := PyStr c;
                 "include_crossrefs" := PyBool (negb (String.eqb v "")) ]}
  /\ parse_args parser ["qdrant"; "-u"; u; "-c"; c]
     = Parsed {[ "model_name" := PyStr "text-embedding-ada-002";
                 "vector_database" := PyStr "qdrant";
                 "url" := PyStr u;
                 "collection" := PyStr c ]}.
Proof.
  intros H.
  apply Forall_cons in H as [He H]. apply Forall_cons in H as [Hi H].
  apply Forall_cons in H as [Hu H]. apply Forall_cons in H as [Hc H].
  apply Forall_cons in H as [Hv _].
  split; [|split].
  - now apply parse_pinecone_usage.
  - now apply parse_weaviate_usage.
  - now apply parse_qdrant_usage.
Qed.

Lemma parse_args_documented_usage_witness :
  parse_args parser ["pinecone"; "-e"; "my_env"; "-i"; "my_index"]
  = Parsed {[ "model_name" := PyStr "text-embedding-ada-002";
              "vector_database" := PyStr "pinecone";
              "environment" := PyStr "my_env";
              "index" := PyStr "my_index" ]}
  /\ parse_args parser
       ["weaviate"; "-u"; "http://localhost:8080"; "-c"; "my_class"; "-i"; "Y"]
     = Parsed {[ "model_name" := PyStr "text-embedding-ada-002";
                 "vector_database" := PyStr "weaviate";
                 "url" := PyStr "http://localhost:8080";
                 "class_name" := PyStr "my_class";
                 "include_crossrefs" := PyBool (negb (String.eqb "Y" "")) ]}
  /\ parse_args parser
       ["qdrant"; "-u"; "http://localhost:8080"; "-c"; "my_class"]
     = Parsed {[ "model_name" := PyStr "text-embedding-ada-002";
                 "vector_database" := PyStr "qdrant";
                 "url" := PyStr "http://localhost:8080";
                 "collection" := PyStr "my_class" ]}.
Proof.
  apply (parse_args_documented_usage "my_env" "my_index"
           "http://localhost:8080" "my_class" "Y").
  repeat constructor.
Defined.

(** ** The documented command lines, run to the end *)

Lemma phase_prog_one w b (a : dict) cr sel st :
  never_raises w ->
  a !! collection_key b = Some sel ->
  sel <> PyStr "all" ->
  phase_prog w b a (collection_key b) cr st
  = (Ok a, State (argv st) (stdin st) (tty st)
             (trace st ++ [EvNew b a; EvGetData b sel cr])).
Proof.
  intros Hn Hsel Hne. apply py_eq_false in Hne.
  unfold phase_prog, new_adapter, get_data, adapter_call, bind, getitem.
  rewrite Hn, Hsel. unfold ret. rewrite Hne. simpl. rewrite Hn.
  unfold log. simpl. now rewrite <- app_assoc.
Qed.

Lemma set_arg_from_input_given (args : dict) k p st :
  missing args k = false -> set_arg_from_input args k p st = (Ok args, st).
Proof. intros H. now rewrite set_arg_from_input_run, H. Qed.

Lemma export_qdrant_given w (args : dict) sel st :
  never_raises w ->
  missing args "url" = false ->
  args !! "collection" = Some sel -> sel <> PyNone -> sel <> PyStr "all" ->
  export_qdrant w args st
  = (Ok args, State (argv st) (stdin st) (tty st)
                (trace st ++ [EvNew Qdrant args; EvGetData Qdrant sel None])).
Proof.
  intros Hn Hu Hsel Hnone Hne. unfold export_qdrant.
  rewrite (bind_ok _ _ _ _ _ (set_arg_from_input_given _ _ _ _ Hu)).
  rewrite (bind_ok _ _ _ args st).
  2:{ apply set_arg_from_input_given. unfold missing. rewrite Hsel.
      now destruct sel. }
  exact (phase_prog_one w Qdrant args None sel st Hn Hsel Hne).
Qed.

Lemma export_pinecone_given w (args : dict) sel key st :
  never_raises w ->
  missing args "environment" = false ->
  missing args "model_name" = false ->
  args !! "index" = Some sel -> sel <> PyNone -> sel <> PyStr "all" ->
  getenv w "PINECONE_API_KEY" = Some key ->
  let a := <["pinecone_api_key" := PyStr key]> args in
  export_pinecone w args st
  = (Ok a, State (argv st) (stdin st) (tty st)
             (trace st ++ [ EvPrint (PDict a); EvNew Pinecone a;
                            EvGetData Pinecone sel None ])).
Proof.
  intros Hn He Hm Hsel Hnone Hne Hk a. unfold export_pinecone.
  rewrite (bind_ok _ _ _ _ _ (set_arg_from_input_given _ _ _ _ He)).
  rewrite (bind_ok _ _ _ args st).
  2:{ apply set_arg_from_input_given. unfold missing. rewrite Hsel.
      now destruct sel. }
  rewrite (bind_ok _ _ _ _ _ (set_arg_from_input_given _ _ _ _ Hm)).
  rewrite (bind_ok _ _ _ a st).
  2:{ now rewrite set_arg_from_password_run, Hk. }
  rewrite (bind_ok _ _ _ tt (log (EvPrint (PDict a)) st)) by reflexivity.
  assert (a !! collection_key Pinecone = Some sel) as Ha
    by (subst a; simpl; now rewrite lookup_insert_ne).
  pose proof (phase_prog_one w Pinecone a None sel
                (log (EvPrint (PDict a)) st) Hn Ha Hne) as E.
  unfold phase_prog in E. simpl collection_key in E. rewrite E.
  simpl. now rewrite <- app_assoc.
Qed.

Lemma export_weaviate_given w (args : dict) sel v st :
  never_raises w ->
  missing args "url" = false ->
  args !! "class_name" = Some sel -> sel <> PyNone -> sel <> PyStr "all" ->
  args !! "include_crossrefs" = Some v -> v <> PyNone ->
  let x := PyBool (py_eq v (PyStr "Y")) in
  let a := <["include_crossrefs" := x]> args in
  export_weaviate w args st
  = (Ok a, State (argv st) (stdin st) (tty st)
             (trace st ++ [ EvNew Weaviate a;
                            EvGetData Weaviate sel (Some x) ])).
Proof.
  intros Hn Hu Hsel Hnone Hne Hv Hvn x a. unfold export_weaviate.
  rewrite (bind_ok _ _ _ _ _ (set_arg_from_input_given _ _ _ _ Hu)).
  rewrite (bind_ok _ _ _ args st).
  2:{ apply set_arg_from_input_given. unfold missing. rewrite Hsel.
      now destruct sel. }
  rewrite (bind_ok _ _ _ args st).
  2:{ apply set_arg_from_input_given. unfold missing. rewrite Hv.
      now destruct v. }
  rewrite (getitem_some _ _ _ Hv), bind_ret.
  assert ((if py_eq v (PyStr "Y")
           then <["include_crossrefs" := PyBool true]> args
           else <["include_crossrefs" := PyBool false]> args) = a) as ->
    by (subst a x; now destruct (py_eq v (PyStr "Y"))).
  assert (a !! "class_name" = Some sel) as Ha
    by (subst a; now rewrite lookup_insert_ne).
  assert (a !! "include_crossrefs" = Some x) as Hx
    by (subst a; apply lookup_insert_eq).
  rewrite (weaviate_phase w a sel x st Ha Hx).
  exact (phase_prog_one w Weaviate a (Some x) sel st Hn Ha Hne).
Qed.

Lemma string_neq_pystr (s t : string) : s <> t -> PyStr s <> PyStr t.
Proof. congruence. Qed.

Ltac given := first [eassumption | reflexivity | discriminate].

(** X13.  The three command lines of the docstring, run to the end.
    For values that do not start with a dash and a name other than
    ["all"], when no adapter call raises (and, for the pinecone line
    only, with [PINECONE_API_KEY] set), [main] returns without a prompt
    and without reading anything: it builds the adapter with the parsed
    dict, calls [get_data] once with the name given, and prints
    ["Export completed."]; [sys.argv] and the input are left as they
    were.
    Pinecone's dict has the key added and is printed first; weaviate's
    [include_crossrefs] is [False] whatever value [-i] was given. *)
Theorem main_documented_usage_runs
    (w : world) (depth : nat) (prog : string) (lines keys : list string)
    (tr : list event) (e i u c v : string) :
  Forall (fun s => starts_with_dash s = false) [e; i; u; c; v] ->
  i <> "all" -> c <> "all" ->
  never_raises w ->
  (forall key,
   getenv w "PINECONE_API_KEY" = Some key ->
   let a : dict :=
     {[ "model_name" := PyStr "text-embedding-ada-002";
        "vector_database" := PyStr "pinecone";
        "environment" := PyStr e;
        "index" := PyStr i;
        "pinecone_api_key" := PyStr key ]} in
   main w (S depth)
     (State [prog; "pinecone"; "-e"; e; "-i"; i] lines keys tr)
   = (Ok tt,
      State [prog; "pinecone"; "-e"; e; "-i"; i] lines keys
        (tr ++ [ EvPrint (PDict a); EvNew Pinecone a;
                 EvGetData Pinecone (PyStr i) None;
                 EvPrint (PText "Export completed.") ])))
  /\ (let a : dict :=
        {[ "model_name" := PyStr "text-embedding-ada-002";
           "vector_database" := PyStr "weaviate";
           "url" := PyStr u;
           "class_name" := PyStr c;
           "include_crossrefs" := PyBool false ]} in
      main w (S depth)
        (State [prog; "weaviate"; "-u"; u; "-c"; c; "-i"; v] lines keys tr)
      = (Ok tt,
         State [prog; "weaviate"; "-u"; u; "-c"; c; "-i"; v] lines keys
           (tr ++ [ EvNew Weaviate a;
                    EvGetData Weaviate (PyStr c) (Some (PyBool false));
                    EvPrint (PText "Export completed.") ])))
  /\ (let a : dict :=
        {[ "model_name" := PyStr "text-embedding-ada-002";
           "vector_database" := PyStr "qdrant";
           "url" := PyStr u;
           "collection" := PyStr c ]} in
      main w (S depth)
        (State [prog; "qdrant"; "-u"; u; "-c"; c] lines keys tr)
      = (Ok tt,
         State [prog; "qdrant"; "-u"; u; "-c"; c] lines keys
           (tr ++ [ EvNew Qdrant a;
                    EvGetData Qdrant (PyStr c) None;
                    EvPrint (PText "Export completed.") ]))).
Proof.
  intros H Hi' Hc' Hn.
  apply Forall_cons in H as [He H]. apply Forall_cons in H as [Hi H].
  apply Forall_cons in H as [Hu H]. apply Forall_cons in H as [Hc H].
  apply Forall_cons in H as [Hv _].
  apply string_neq_pystr in Hi', Hc'.
  split; [intros key Hk a|split; intros a].
  - rewrite (main_backend w depth
               (State [prog; "pinecone"; "-e"; e; "-i"; i] lines keys tr)
               _ Pinecone (parse_pinecone_usage e i He Hi) eq_refl).
    simpl export.
    erewrite export_pinecone_given; [|given ..].
    unfold log. simpl. rewrite <- app_assoc. reflexivity.
  - rewrite (main_backend w depth
               (State [prog; "weaviate"; "-u"; u; "-c"; c; "-i"; v] lines
                  keys tr)
               _ Weaviate (parse_weaviate_usage u c v Hu Hc Hv) eq_refl).
    simpl export.
    erewrite export_weaviate_given; [|given ..].
    unfold log. simpl. rewrite <- app_assoc. reflexivity.
  - rewrite (main_backend w depth
               (State [prog; "qdrant"; "-u"; u; "-c"; c] lines keys tr)
               _ Qdrant (parse_qdrant_usage u c Hu Hc) eq_refl).
    simpl export.
    erewrite export_qdrant_given; [|given ..].
    unfold log. simpl. rewrite <- app_assoc. reflexivity.
Qed.

Lemma main_documented_usage_runs_witness :
  (let a : dict :=
     {[ "model_name" := PyStr "text-embedding-ada-002";
        "vector_database" := PyStr "pinecone";
        "environment" := PyStr "my_env";
        "index" := PyStr "my_index";
        "pinecone_api_key" := PyStr "sk-env" ]} in
   main keyed_world 1
     (State ["export.py"; "pinecone"; "-e"; "my_env"; "-i"; "my_index"]
        [] [] [])
   = (Ok tt,
      State ["export.py"; "pinecone"; "-e"; "my_env"; "-i"; "my_index"]
        [] []
        ([] ++ [ EvPrint (PDict a); EvNew Pinecone a;
                 EvGetData Pinecone (PyStr "my_index") None;
                 EvPrint (PText "Export completed.") ])))
  /\ (let a : dict :=
        {[ "model_name" := PyStr "text-embedding-ada-002";
           "vector_database" := PyStr "weaviate";
           "url" := PyStr "http://localhost:8080";
           "class_name" := PyStr "my_class";
           "include_crossrefs" := PyBool false ]} in
      main example_world 1
        (State ("export.py" :: docstring_weaviate_argv) [] [] [])
      = (Ok tt,
         State ("export.py" :: docstring_weaviate_argv) [] []
           ([] ++ [ EvNew Weaviate a;
                    EvGetData Weaviate (PyStr "my_class")
                      (Some (PyBool false));
                    EvPrint (PText "Export completed.") ])))
  /\ (let a : dict :=
        {[ "model_name" := PyStr "text-embedding-ada-002";
           "vector_database" := PyStr "qdrant";
           "url" := PyStr "http://localhost:8080";
           "collection" := PyStr "my_class" ]} in
      main example_world 1
        (State ["export.py"; "qdrant"; "-u"; "http://localhost:8080";
                "-c"; "my_class"] [] [] [])
      = (Ok tt,
         State ["export.py"; "qdrant"; "-u"; "http://localhost:8080";
                "-c"; "my_class"] [] []
           ([] ++ [ EvNew Qdrant a;
                    EvGetData Qdrant (PyStr "my_class") None;
                    EvPrint (PText "Export completed.") ]))).
Proof.
  assert (Forall (fun s => starts_with_dash s = false)
            ["my_env"; "my_index"; "http://localhost:8080"; "my_class"; "Y"])
    as Hd by repeat constructor.
  assert ("my_index" <> "all") as Hi by discriminate.
  assert ("my_class" <> "all") as Hc by discriminate.
  split.
  - apply (proj1 (main_documented_usage_runs keyed_world 0 "export.py"
                    [] [] [] "my_env" "my_index" "http://localhost:8080"
                    "my_class" "Y" Hd Hi Hc (fun _ _ => eq_refl))
             "sk-env" eq_refl).
  - apply (proj2 (main_documented_usage_runs example_world 0 "export.py"
                    [] [] [] "my_env" "my_index" "http://localhost:8080"
                    "my_class" "Y" Hd Hi Hc (fun _ _ => eq_refl))).
Defined.
